(** * The mock SQL engine and query store of [server/storage.ts]

    A shallow embedding of class [MemStorage]: the query map
    ([createQuery], [updateQuery]) and the regular-expression driven
    SELECT pipeline ([executeSqlQuery], [applyWhereConditions],
    [applyOrderBy], [applyLimit], [mapColumnName]), together with the part
    of the JavaScript runtime those methods call.

    Conventions of the model.
    - A JavaScript string is a [string]: a sequence of code units below
      256 (the Latin-1 range).  Case mapping, white space and the
      regular-expression classes are those of ECMAScript on that range.
    - Arrays live in a heap and are passed by reference, so that copying
      ([[...xs]], [filter], [slice]) and sorting in place ([sort]) are
      told apart.  Row objects are never written by the pipeline and are
      carried as values.
    - The wall clock read by [new Date()] is an explicit argument [now].
    - Runtime services whose result ECMAScript leaves to the
      implementation are the fields of the class [JsRuntime]. *)

From Stdlib Require Import ZArith QArith Qabs Lqa Ascii String List Lia Bool Sorted Permutation.
From stdpp Require Import gmap strings list fin_maps.
Import ListNotations.

Close Scope Q_scope.
Local Open Scope string_scope.
Local Open Scope list_scope.

(* ===================================================================== *)
(** ** Strings of the runtime *)
(* ===================================================================== *)

Module JsString.

Definition code (c : ascii) : N := N_of_ascii c.

Definition between (lo hi : N) (c : ascii) : bool :=
  (lo <=? code c)%N && (code c <=? hi)%N.

(** WhiteSpace and LineTerminator code points below 256: TAB, LF, VT,
    FF, CR, SP and NBSP.  [String.prototype.trim] and the class [\s]
    use the same set. *)
Definition isWhiteSpace (c : ascii) : bool :=
  between 9 13 c || (code c =? 32)%N || (code c =? 160)%N.

Definition isLineTerminator (c : ascii) : bool :=
  (code c =? 10)%N || (code c =? 13)%N.

Definition isDigit (c : ascii) : bool := between 48 57 c.

Definition isUpperAZ (c : ascii) : bool := between 65 90 c.
Definition isLowerAZ (c : ascii) : bool := between 97 122 c.

(** The class [\w]: [A-Za-z0-9_]. *)
Definition isWordChar (c : ascii) : bool :=
  isUpperAZ c || isLowerAZ c || isDigit c || (code c =? 95)%N.

(** Lower-case mapping of Unicode on U+0000..U+00FF: [A-Z] and the
    Latin-1 capitals U+00C0..U+00DE (without the multiplication sign
    U+00D7) move up by 32; every result stays in the range. *)
Definition lowerChar (c : ascii) : ascii :=
  if isUpperAZ c || (between 192 222 c && negb (code c =? 215)%N)
  then ascii_of_N (code c + 32) else c.

(** Upper-case mapping as the regular-expression [Canonicalize] uses
    it: [a-z] and U+00E0..U+00FE (without the division sign U+00F7)
    move down by 32.  The three Latin-1 letters whose capital is not a
    single Latin-1 code unit (U+00B5, U+00DF, U+00FF) are left alone;
    their capitals coincide with the image of no other code unit below
    256, so equality of images is unaffected. *)
Definition upperChar (c : ascii) : ascii :=
  if isLowerAZ c || (between 224 254 c && negb (code c =? 247)%N)
  then ascii_of_N (code c - 32) else c.

Fixpoint mapChars (f : ascii -> ascii) (s : string) : string :=
  match s with
  | EmptyString => EmptyString
  | String c s' => String (f c) (mapChars f s')
  end.

Definition toLowerCase : string -> string := mapChars lowerChar.

(** [toUpperCase] on strings of Latin-1 code units.  The sort stage
    applies it to a capture of [(ASC|DESC)] under [/i], that is to
    ASCII letters, where [upperChar] is the full mapping.  A string
    type of Latin-1 code units holds no code unit above U+00FF; of
    those, U+017F has the capital S, so what is proved about the
    capitals of a text is proved for text in the Latin-1 range. *)
Definition toUpperCase : string -> string := mapChars upperChar.

Fixpoint trimStart (s : string) : string :=
  match s with
  | EmptyString => EmptyString
  | String c s' => if isWhiteSpace c then trimStart s' else s
  end.

Fixpoint trimEnd (s : string) : string :=
  match s with
  | EmptyString => EmptyString
  | String c s' =>
      match trimEnd s' with
      | EmptyString => if isWhiteSpace c then EmptyString else String c EmptyString
      | t => String c t
      end
  end.

Definition trim (s : string) : string := trimEnd (trimStart s).

(** [s.startsWith(p)] *)
Definition startsWith (s p : string) : bool := String.prefix p s.

(** [s.includes(sub)] *)
Fixpoint includes (s sub : string) : bool :=
  String.prefix sub s ||
  match s with
  | EmptyString => false
  | String _ s' => includes s' sub
  end.

(** The first [n] code units of [s]. *)
Fixpoint takeChars (n : nat) (s : string) : string :=
  match n, s with
  | S n', String c s' => String c (takeChars n' s')
  | _, _ => EmptyString
  end.

End JsString.
Import JsString.

(* ===================================================================== *)
(** ** Regular expressions *)
(* ===================================================================== *)

(** The fragment of ECMAScript patterns that [storage.ts] writes, with
    the backtracking semantics of the specification: alternatives are
    tried left to right, a greedy quantifier takes the longest run first,
    a lazy one the shortest, and [String.prototype.match] returns the
    match that starts leftmost. *)
Module Regex.

Inductive cclass :=
| Space                 (* \s *)
| Word                  (* \w *)
| Digit                 (* \d *)
| Dot                   (* .  *)
| OneOf (set : string). (* [...] *)

Fixpoint memChar (c : ascii) (set : string) : bool :=
  match set with
  | EmptyString => false
  | String d set' => Ascii.eqb c d || memChar c set'
  end.

Definition inClass (k : cclass) (c : ascii) : bool :=
  match k with
  | Space => isWhiteSpace c
  | Word => isWordChar c
  | Digit => isDigit c
  | Dot => negb (isLineTerminator c)
  | OneOf set => memChar c set
  end.

Inductive regex :=
| Lit (s : string)                    (* pattern characters *)
| Cls (k : cclass)                    (* one atom of a class *)
| Star (k : cclass) (greedy : bool)   (* k* and k*? *)
| Seq (r1 r2 : regex)
| Alt (r1 r2 : regex)                 (* r1|r2 *)
| Opt (r : regex)                     (* (?:r)? *)
| Group (i : nat) (r : regex)         (* the i-th capturing parenthesis *)
| Eos.                                (* $ without the m flag *)

(** [k+] and [k+?] *)
Definition Plus (k : cclass) (greedy : bool) : regex := Seq (Cls k) (Star k greedy).

(** Character comparison; under the [i] flag both sides are
    canonicalized. *)
Definition charMatches (icase : bool) (p c : ascii) : bool :=
  if icase then Ascii.eqb (upperChar p) (upperChar c) else Ascii.eqb p c.

Fixpoint stripLit (icase : bool) (p s : string) : option string :=
  match p, s with
  | EmptyString, _ => Some s
  | String a p', String c s' =>
      if charMatches icase a c then stripLit icase p' s' else None
  | String _ _, EmptyString => None
  end.

Definition orElse {A} (x : option A) (y : option A) : option A :=
  match x with Some _ => x | None => y end.

(** The quantified class: [k] holds the continuation of the match. *)
Fixpoint star {A} (p : ascii -> bool) (greedy : bool) (s : string)
         (k : string -> option A) : option A :=
  match s with
  | EmptyString => k s
  | String c s' =>
      if p c then
        if greedy then orElse (star p greedy s' k) (k s)
        else orElse (k s) (star p greedy s' k)
      else k s
  end.

(** Captures by group number; group 0 is the whole match. *)
Abbreviation captures := (gmap nat string).

Definition consumed (s rest : string) : string :=
  takeChars (String.length s - String.length rest) s.

Fixpoint matchAt (icase : bool) (r : regex) (s : string) (caps : captures)
         (k : string -> captures -> option captures) : option captures :=
  match r with
  | Lit p =>
      match stripLit icase p s with
      | Some s' => k s' caps
      | None => None
      end
  | Cls c =>
      match s with
      | String a s' => if inClass c a then k s' caps else None
      | EmptyString => None
      end
  | Star c greedy => star (inClass c) greedy s (fun s' => k s' caps)
  | Seq r1 r2 => matchAt icase r1 s caps (fun s' caps' => matchAt icase r2 s' caps' k)
  | Alt r1 r2 => orElse (matchAt icase r1 s caps k) (matchAt icase r2 s caps k)
  | Opt r1 => orElse (matchAt icase r1 s caps k) (k s caps)
  | Group i r1 =>
      matchAt icase r1 s caps (fun s' caps' => k s' (<[i := consumed s s']> caps'))
  | Eos =>
      match s with
      | EmptyString => k s caps
      | String _ _ => None
      end
  end.

Definition matchHere (icase : bool) (r : regex) (s : string) : option captures :=
  matchAt icase (Group 0 r) s ∅ (fun _ caps => Some caps).

(** [s.match(re)] for a pattern without the [g] flag: the captures of
    the leftmost match, or [None] for [null]. *)
Fixpoint exec (icase : bool) (r : regex) (s : string) : option captures :=
  match matchHere icase r s with
  | Some caps => Some caps
  | None =>
      match s with
      | EmptyString => None
      | String _ s' => exec icase r s'
      end
  end.

Definition test (icase : bool) (r : regex) (s : string) : bool :=
  match exec icase r s with Some _ => true | None => false end.

End Regex.
Import Regex.

(* ===================================================================== *)
(** ** Numbers, dates and values *)
(* ===================================================================== *)

Module JsValue.

(** A Number.  A finite value is carried by the rational it denotes;
    the two zeros are not told apart (no operation used here does).
    The pipeline's only arithmetic is the subtraction inside the sort
    comparator, of which the sort reads the sign, and the sign of an
    IEEE difference of two finite doubles is the sign of the exact
    difference. *)
Inductive number :=
| NaN
| Inf (negative : bool)
| Fin (q : Q).

Definition Qltb (x y : Q) : bool :=
  match (x ?= y)%Q with Lt => true | _ => false end.

Definition isNaN (n : number) : bool :=
  match n with NaN => true | _ => false end.

(** [a - b] *)
Definition sub (a b : number) : number :=
  match a, b with
  | NaN, _ | _, NaN => NaN
  | Inf s, Inf t => if Bool.eqb s t then NaN else Inf s
  | Inf s, Fin _ => Inf s
  | Fin _, Inf t => Inf (negb t)
  | Fin x, Fin y => Fin (x - y)
  end.

(** [-a] *)
Definition neg (a : number) : number :=
  match a with
  | NaN => NaN
  | Inf s => Inf (negb s)
  | Fin x => Fin (- x)
  end.

(** [a < b] on Numbers; [false] when either is NaN. *)
Definition ltb (a b : number) : bool :=
  match a, b with
  | NaN, _ | _, NaN => false
  | Inf s, Inf t => s && negb t
  | Inf s, Fin _ => s
  | Fin _, Inf t => negb t
  | Fin x, Fin y => Qltb x y
  end.

Definition ofZ (z : Z) : number := Fin (inject_Z z).

Definition isZero (n : number) : bool :=
  match n with Fin q => Qeq_bool q 0 | _ => false end.

(** *** Decimal literals *)

Fixpoint spanDigits (s : string) : string * string :=
  match s with
  | String c s' =>
      if isDigit c then let '(d, r) := spanDigits s' in (String c d, r)
      else (EmptyString, s)
  | EmptyString => (EmptyString, EmptyString)
  end.

Fixpoint digitsValue (acc : N) (s : string) : N :=
  match s with
  | String c s' => digitsValue (acc * 10 + (code c - 48))%N s'
  | EmptyString => acc
  end.

(** Round-to-nearest, ties-to-even, of a positive rational to the
    binary64 format: the value of the double, [Inf] on overflow. *)
Definition roundHalfEven (x y : Z) : Z :=
  let fl := (x / y)%Z in
  let r2 := (2 * (x mod y))%Z in
  if (r2 <? y)%Z then fl
  else if (y <? r2)%Z then (fl + 1)%Z
  else if Z.even fl then fl else (fl + 1)%Z.

Definition pow2Q (e : Z) : Q :=
  if (0 <=? e)%Z then inject_Z (2 ^ e) else (1 / inject_Z (2 ^ (- e)))%Q.

Definition floorLog2 (q : Q) : Z :=
  let e0 := (Z.log2 (Qnum q) - Z.log2 (Zpos (Qden q)))%Z in
  if Qltb q (pow2Q e0) then (e0 - 1)%Z else e0.

Definition roundDouble (q : Q) : number :=
  let e := Z.max (floorLog2 q) (-1022) in
  let u := (e - 52)%Z in
  let m := (q / pow2Q u)%Q in
  let n := roundHalfEven (Qnum m) (Zpos (Qden m)) in
  if (1024 <=? e)%Z || ((2 ^ 53 <=? n)%Z && (e =? 1023)%Z) then Inf false
  else Fin (Qred (inject_Z n * pow2Q u)).

Definition pow10Q (e : Z) : Q :=
  if (0 <=? e)%Z then inject_Z (10 ^ e) else (1 / inject_Z (10 ^ (- e)))%Q.

(** The Number a decimal mantissa and exponent denote. *)
Definition decimalValue (negative : bool) (mant : N) (e : Z) : number :=
  if (mant =? 0)%N then Fin 0
  else
    match roundDouble (inject_Z (Z.of_N mant) * pow10Q e) with
    | Fin q => Fin (if negative then Qred (- q) else q)
    | Inf _ => Inf negative
    | NaN => NaN
    end.

Definition isSign (c : ascii) : bool := (code c =? 43)%N || (code c =? 45)%N.
Definition isMinus (c : ascii) : bool := (code c =? 45)%N.
Definition isExpMark (c : ascii) : bool := (code c =? 101)%N || (code c =? 69)%N.
Definition isPoint (c : ascii) : bool := (code c =? 46)%N.

(** [ExponentPart]: the exponent and what follows it, or exponent 0
    and the input when no well-formed exponent starts here. *)
Definition scanExponent (s : string) : Z * string :=
  match s with
  | String m s1 =>
      if isExpMark m then
        let '(negE, s2) :=
          match s1 with
          | String g s2 => if isSign g then (isMinus g, s2) else (false, s1)
          | EmptyString => (false, s1)
          end in
        let '(ds, s3) := spanDigits s2 in
        match ds with
        | EmptyString => (0%Z, s)
        | _ => let v := Z.of_N (digitsValue 0 ds) in
               ((if negE then - v else v)%Z, s3)
        end
      else (0%Z, s)
  | EmptyString => (0%Z, s)
  end.

(** The longest prefix of [s] that is a [StrUnsignedDecimalLiteral]:
    its value (up to the sign given) and the rest of [s]. *)
Definition scanUnsigned (negative : bool) (s : string) : option (number * string) :=
  match stripLit false "Infinity" s with
  | Some rest => Some (Inf negative, rest)
  | None =>
      let '(ip, r1) := spanDigits s in
      let frac :=
        match r1 with
        | String p r1' => if isPoint p then Some (spanDigits r1') else None
        | EmptyString => None
        end in
      let body :=
        match frac with
        | Some (fp, r2) =>
            match ip, fp with
            | EmptyString, EmptyString => None
            | _, _ => Some (String.append ip fp, String.length fp, r2)
            end
        | None =>
            match ip with
            | EmptyString => None
            | _ => Some (ip, 0, r1)
            end
        end in
      match body with
      | Some (ds, scale, r) =>
          let '(e, rest) := scanExponent r in
          Some (decimalValue negative (digitsValue 0 ds) (e - Z.of_nat scale), rest)
      | None => None
      end
  end.

Definition scanDecimal (s : string) : option (number * string) :=
  match s with
  | String g s' => if isSign g then scanUnsigned (isMinus g) s' else scanUnsigned false s
  | EmptyString => None
  end.

(** [parseFloat(s)] for a string [s]. *)
Definition parseFloatStr (s : string) : number :=
  match scanDecimal (trimStart s) with
  | Some (n, _) => n
  | None => NaN
  end.

(** The value of a digit in the given radix. *)
Definition digitOf (radix : N) (c : ascii) : option N :=
  let v :=
    if isDigit c then Some (code c - 48)%N
    else if between 97 102 c then Some (code c - 87)%N
    else if between 65 70 c then Some (code c - 55)%N
    else None in
  match v with
  | Some d => if (d <? radix)%N then Some d else None
  | None => None
  end.

Fixpoint radixValue (radix acc : N) (s : string) : option N :=
  match s with
  | EmptyString => Some acc
  | String c s' =>
      match digitOf radix c with
      | Some d => radixValue radix (acc * radix + d)%N s'
      | None => None
      end
  end.

(** [NonDecimalIntegerLiteral]: 0x, 0o or 0b and at least one digit. *)
Definition scanNonDecimal (t : string) : option number :=
  match t with
  | String z (String m (String d ds)) =>
      let radix :=
        if (code m =? 120)%N || (code m =? 88)%N then Some 16%N
        else if (code m =? 111)%N || (code m =? 79)%N then Some 8%N
        else if (code m =? 98)%N || (code m =? 66)%N then Some 2%N
        else None in
      match radix with
      | Some r =>
          if (code z =? 48)%N then
            match radixValue r 0 (String d ds) with
            | Some v => Some (decimalValue false v 0)
            | None => None
            end
          else None
      | None => None
      end
  | _ => None
  end.

(** [Number(s)] for a string [s] ([StringToNumber]): the whole trimmed
    text must be a numeric literal; the empty text is 0. *)
Definition stringToNumber (s : string) : number :=
  match trim s with
  | EmptyString => Fin 0
  | t =>
      match scanNonDecimal t with
      | Some n => n
      | None =>
          match scanDecimal t with
          | Some (n, EmptyString) => n
          | _ => NaN
          end
      end
  end.

(** [parseInt(s)] in radix 10 for a text that starts with a digit (the
    only use: a capture of [\d+]); [None] is NaN. *)
Definition parseInt (s : string) : option N :=
  match fst (spanDigits (trimStart s)) with
  | EmptyString => None
  | ds => Some (digitsValue 0 ds)
  end.

(** *** Values *)

(** The time value of a Date object in milliseconds since the epoch;
    [None] is the NaN of an invalid date. *)
Definition timeValue := option Z.

(** The values a row holds: the column types of [shared/schema.ts]
    (text, integer, decimal as text, timestamp, nullable). *)
Inductive jsval :=
| VUndefined
| VNull
| VStr (s : string)
| VNum (n : number)
| VDate (t : timeValue).

(** A row object: its own properties, in the order they were written.
    Properties inherited from [Object.prototype] are outside the
    model. *)
Abbreviation row := (list (string * jsval)).

Fixpoint lookupProp (r : row) (key : string) : option jsval :=
  match r with
  | [] => None
  | (name, v) :: r' => if String.eqb name key then Some v else lookupProp r' key
  end.

(** [r[key]] *)
Definition getProp (r : row) (key : string) : jsval :=
  match lookupProp r key with Some v => v | None => VUndefined end.

(** [ToBoolean] *)
Definition truthy (v : jsval) : bool :=
  match v with
  | VUndefined | VNull => false
  | VStr s => negb (String.eqb s EmptyString)
  | VNum n => negb (isNaN n || isZero n)
  | VDate _ => true
  end.

(** [v === s] for a string [s]. *)
Definition strictEqStr (v : jsval) (s : string) : bool :=
  match v with VStr t => String.eqb t s | _ => false end.

Definition isNullish (v : jsval) : bool :=
  match v with VUndefined | VNull => true | _ => false end.

Definition timeToNumber (t : timeValue) : number :=
  match t with Some z => ofZ z | None => NaN end.

(** [ToNumber] *)
Definition toNumber (v : jsval) : number :=
  match v with
  | VUndefined => NaN
  | VNull => Fin 0
  | VStr s => stringToNumber s
  | VNum n => n
  | VDate t => timeToNumber t
  end.

(** Code-unit order of strings, the order [<] uses on two strings. *)
Fixpoint strLtb (a b : string) : bool :=
  match a, b with
  | _, EmptyString => false
  | EmptyString, String _ _ => true
  | String x a', String y b' =>
      if (code x <? code y)%N then true
      else if (code y <? code x)%N then false
      else strLtb a' b'
  end.

(** [a < b] (abstract relational comparison with a defined result) *)
Definition jsLt (a b : jsval) : bool :=
  match a, b with
  | VStr x, VStr y => strLtb x y
  | _, _ => ltb (toNumber a) (toNumber b)
  end.

(** [a > b] *)
Definition jsGt (a b : jsval) : bool := jsLt b a.

(** [TimeClip]: NaN beyond 8.64e15 ms, else truncated to an integer. *)
Definition timeClip (n : number) : timeValue :=
  match n with
  | Fin q =>
      if Qle_bool (Qabs q) (inject_Z 8640000000000000)
      then Some (Z.quot (Qnum q) (Zpos (Qden q)))
      else None
  | _ => None
  end.

End JsValue.
Import JsValue.

(* ===================================================================== *)
(** ** Services of the host *)
(* ===================================================================== *)

(** What ECMAScript leaves to the implementation or ties to the host's
    time zone and locale, and the text of a Number, which reaches
    nothing but [localeCompare].  Every definition below is parametric
    in an instance, and every general theorem holds for all of them. *)
Class JsRuntime := {
  (** [Date.parse(s)]: the ISO format and the implementation's fallback
      heuristics; [None] is NaN. *)
  Date_parse : string -> timeValue;
  (** [d.getMonth()] of a valid time value, in local time. *)
  Date_getMonth : Z -> Z;
  (** [d.setMonth(m)] on a valid time value, in local time: the new time
      value. *)
  Date_setMonth : Z -> Z -> timeValue;
  (** [String(d)] of a Date. *)
  Date_toString : timeValue -> string;
  (** [String(n)] of a Number. *)
  Number_toString : number -> string;
  (** [a.localeCompare(b)] in the default locale. *)
  localeCompare : string -> string -> Z
}.

Section Conversions.
Context {rt : JsRuntime}.

(** [new Date(v).getTime()] *)
Definition newDate (v : jsval) : timeValue :=
  match v with
  | VDate t => t
  | VStr s => Date_parse s
  | VNum n => timeClip n
  | VNull => Some 0%Z
  | VUndefined => None
  end.

(** [String(v)] *)
Definition jsString (v : jsval) : string :=
  match v with
  | VStr s => s
  | VNum n => Number_toString n
  | VDate t => Date_toString t
  | VNull => "null"
  | VUndefined => "undefined"
  end.

(** [parseFloat(v)]: the argument is converted to a string first.  For
    a Number the conversion and the parse are inverse of each other
    (up to the sign of zero), which the model takes as given. *)
Definition parseFloat (v : jsval) : number :=
  match v with
  | VNum n => n
  | _ => parseFloatStr (jsString v)
  end.

(** [a < b] and [a >= b] on two Date objects: their time values are
    compared, and both are [false] when one is NaN. *)
Definition dateLt (a b : timeValue) : bool :=
  match a, b with Some x, Some y => (x <? y)%Z | _, _ => false end.

Definition dateGe (a b : timeValue) : bool :=
  match a, b with Some x, Some y => (y <=? x)%Z | _, _ => false end.

End Conversions.

(* ===================================================================== *)
(** ** Arrays by reference *)
(* ===================================================================== *)

Module Heap.

(** The address of an array, and the store of all arrays: a cell is
    allocated at the end and never freed. *)
Abbreviation loc := nat.
Abbreviation heap := (list (list row)).

(** [new Error(message)] *)
Inductive exn := Error (message : string).

Definition message (e : exn) : string := match e with Error m => m end.

Inductive completion (A : Type) :=
| Normal (a : A)
| Throw (e : exn).
Arguments Normal {A} a.
Arguments Throw {A} e.

(** Computations that read and write arrays and may throw. *)
Definition M (A : Type) : Type := heap -> completion A * heap.

Definition ret {A} (a : A) : M A := fun h => (Normal a, h).

Definition bind {A B} (m : M A) (f : A -> M B) : M B :=
  fun h => match m h with
           | (Normal a, h') => f a h'
           | (Throw e, h') => (Throw e, h')
           end.

Definition throw {A} (e : exn) : M A := fun h => (Throw e, h).

(** [try { body } catch (error) { handler(error) }] *)
Definition tryCatch {A} (body : M A) (handler : exn -> M A) : M A :=
  fun h => match body h with
           | (Normal a, h') => (Normal a, h')
           | (Throw e, h') => handler e h'
           end.

Definition contents (h : heap) (l : loc) : list row :=
  match h !! l with Some xs => xs | None => [] end.

Definition load (l : loc) : M (list row) := fun h => (Normal (contents h l), h).

Definition alloc (xs : list row) : M loc := fun h => (Normal (length h), h ++ [xs]).

Definition store (l : loc) (xs : list row) : M unit :=
  fun h => (Normal tt, <[l := xs]> h).

End Heap.
Import Heap.

Notation "'do' x <- m ; k" := (bind m (fun x => k))
  (at level 10, x name, m at level 100, k at level 200).

(** *** The array methods the pipeline uses *)

(** [[...xs]]: a new array with the same elements. *)
Definition Array_spread (xs : loc) : M loc :=
  do elems <- load xs; alloc elems.

(** [xs.filter(p)]: a new array. *)
Definition Array_filter (p : row -> bool) (xs : loc) : M loc :=
  do elems <- load xs; alloc (List.filter p elems).

(** [xs.slice(0, end)]: a new array; a NaN [end] counts as 0.  The
    Number that [parseInt] returns is the integer [n] rounded to a
    double; the rounding only shows above 2^53, beyond any array length,
    so the exact integer is kept. *)
Definition Array_slice0 (finish : option N) (xs : loc) : M loc :=
  do elems <- load xs;
  alloc (take (match finish with Some n => N.to_nat n | None => 0 end) elems).

(** [n < 0]; a NaN is not negative. *)
Definition negative (n : number) : bool := ltb n (Fin 0).

(** ECMAScript requires [Array.prototype.sort] to be stable and fixes
    the order it produces only for a consistent comparator.  The model
    is insertion sort in array order: each element in turn moves left
    past every element before which the comparator puts it (a negative
    result of [cmp x y]).  The sorted prefix is held most recent first.
    Where the comparator is a consistent order on the elements, every
    stable sort returns the same array, and so does this one.  Where it
    is not, an engine that detects runs and inserts by binary search
    may return the elements in another order than this definition. *)
Fixpoint insertSorted {A} (cmp : A -> A -> number) (x : A) (revPrefix : list A) : list A :=
  match revPrefix with
  | [] => [x]
  | y :: rest =>
      if negative (cmp x y) then y :: insertSorted cmp x rest
      else x :: revPrefix
  end.

Definition sortList {A} (cmp : A -> A -> number) (xs : list A) : list A :=
  rev (fold_left (fun acc x => insertSorted cmp x acc) xs []).

(** [xs.sort(cmp)]: sorts in place and returns the same array. *)
Definition Array_sort (cmp : row -> row -> number) (xs : loc) : M loc :=
  do elems <- load xs;
  do _ <- store xs (sortList cmp elems);
  ret xs.

(* ===================================================================== *)
(** ** [shared/schema.ts]: the query record *)
(* ===================================================================== *)

Module Schema.

(** [Query = typeof queries.$inferSelect]; a nullable column is an
    [option], [None] being [null].  [status] is a [varchar]: any
    string. *)
Record Query := {
  id : string;
  userQuestion : string;
  generatedSql : option string;
  aiInterpretation : option string;
  resultData : option string;
  status : string;
  errorMessage : option string;
  executionTimeMs : option Z;
  createdAt : Z
}.

(** [InsertQuery]: the picked column. *)
Record InsertQuery := { insertUserQuestion : string }.

(** [Partial<Query>]: each property present ([Some]) or absent. *)
Record PartialQuery := {
  setId : option string;
  setUserQuestion : option string;
  setGeneratedSql : option (option string);
  setAiInterpretation : option (option string);
  setResultData : option (option string);
  setStatus : option string;
  setErrorMessage : option (option string);
  setExecutionTimeMs : option (option Z);
  setCreatedAt : option Z
}.

Definition override {A} (old : A) (new : option A) : A :=
  match new with Some v => v | None => old end.

(** [{ ...query, ...updates }] *)
Definition spread (query : Query) (updates : PartialQuery) : Query :=
  {| id := override (id query) (setId updates);
     userQuestion := override (userQuestion query) (setUserQuestion updates);
     generatedSql := override (generatedSql query) (setGeneratedSql updates);
     aiInterpretation := override (aiInterpretation query) (setAiInterpretation updates);
     resultData := override (resultData query) (setResultData updates);
     status := override (status query) (setStatus updates);
     errorMessage := override (errorMessage query) (setErrorMessage updates);
     executionTimeMs := override (executionTimeMs query) (setExecutionTimeMs updates);
     createdAt := override (createdAt query) (setCreatedAt updates) |}.

End Schema.

(* ===================================================================== *)
(** ** [server/storage.ts]: class [MemStorage] *)
(* ===================================================================== *)

(** The object: the query map by value (it is reached only through
    [this]), the four collections by the address of their array. *)
Record MemStorage := {
  queries : gmap string Schema.Query;
  salesOrders : loc;
  workOrders : loc;
  invoices : loc;
  inventoryItems : loc
}.

Definition withQueries (this : MemStorage) (qs : gmap string Schema.Query) : MemStorage :=
  {| queries := qs; salesOrders := salesOrders this; workOrders := workOrders this;
     invoices := invoices this; inventoryItems := inventoryItems this |}.

(** The constructor; the four [init...] generators draw random mock
    rows, which are arguments here. *)
Definition newMemStorage (sales work inv items : list row) : M MemStorage :=
  do s <- alloc sales;
  do w <- alloc work;
  do i <- alloc inv;
  do t <- alloc items;
  ret {| queries := ∅; salesOrders := s; workOrders := w; invoices := i; inventoryItems := t |}.

(** *** Query operations *)

(** [createQuery]; the result of [randomUUID()] and the clock are the
    arguments [id] and [now]. *)
Definition createQuery (id : string) (now : Z) (insertQuery : Schema.InsertQuery)
           (this : MemStorage) : Schema.Query * MemStorage :=
  let query :=
    {| Schema.id := id;
       Schema.userQuestion := Schema.insertUserQuestion insertQuery;
       Schema.generatedSql := None;
       Schema.aiInterpretation := None;
       Schema.resultData := None;
       Schema.status := "processing";
       Schema.errorMessage := None;
       Schema.executionTimeMs := None;
       Schema.createdAt := now |} in
  (query, withQueries this (<[id := query]> (queries this))).

Definition getQuery (id : string) (this : MemStorage) : option Schema.Query :=
  queries this !! id.

Definition updateQuery (id : string) (updates : Schema.PartialQuery)
           (this : MemStorage) : option Schema.Query * MemStorage :=
  match queries this !! id with
  | None => (None, this)
  | Some query =>
      let updated := Schema.spread query updates in
      (Some updated, withQueries this (<[id := updated]> (queries this)))
  end.

(** *** The patterns *)

Fixpoint seqs (rs : list regex) : regex :=
  match rs with
  | [] => Lit ""
  | [r] => r
  | r :: rs' => Seq r (seqs rs')
  end.

Fixpoint alts (rs : list regex) : regex :=
  match rs with
  | [] => Lit ""
  | [r] => r
  | r :: rs' => Alt r (alts rs')
  end.

(** The class of the two quote characters, U+0027 and U+0022; the
    patterns quoted below write it [<q>]. *)
Definition quote : cclass := OneOf (String "'"%char (String "034"%char EmptyString)).

(** [\s*] *)
Definition ws : regex := Star Space true.

(** [/WHERE\s+(.+?)(?:ORDER BY|LIMIT|TOP|$)/i] *)
Definition WHERE_RE : regex :=
  seqs [Lit "WHERE"; Plus Space true; Group 1 (Plus Dot false);
        alts [Lit "ORDER BY"; Lit "LIMIT"; Lit "TOP"; Eos]].

(** [/<column>\s*=\s*<q>(\w+)<q>/i] for [status], [priority] and
    [region]. *)
Definition equalityRe (column : string) : regex :=
  seqs [Lit column; ws; Lit "="; ws; Cls quote; Group 1 (Plus Word true); Cls quote].

Definition STATUS_RE : regex := equalityRe "status".
Definition PRIORITY_RE : regex := equalityRe "priority".
Definition REGION_RE : regex := equalityRe "region".

(** [/<column>\s*<\s*(?:GETDATE|CURRENT_DATE|NOW)/i] for [due_date] and
    [scheduled_date]. *)
Definition beforeNowRe (column : string) : regex :=
  seqs [Lit column; ws; Lit "<"; ws; alts [Lit "GETDATE"; Lit "CURRENT_DATE"; Lit "NOW"]].

Definition DUE_DATE_RE : regex := beforeNowRe "due_date".
Definition SCHEDULED_DATE_RE : regex := beforeNowRe "scheduled_date".

(** [/quantity_on_hand\s*<=\s*reorder_level/i] *)
Definition LOW_STOCK_RE : regex :=
  seqs [Lit "quantity_on_hand"; ws; Lit "<="; ws; Lit "reorder_level"].

(** [/order_date\s*>=\s*DATEADD\(quarter,\s*-1/i] *)
Definition QUARTER_RE : regex :=
  seqs [Lit "order_date"; ws; Lit ">="; ws; Lit "DATEADD(quarter,"; ws; Lit "-1"].

(** [/status\s*=\s*<q>delayed<q>\s+OR/i] *)
Definition DELAYED_OR_RE : regex :=
  seqs [Lit "status"; ws; Lit "="; ws; Cls quote; Lit "delayed"; Cls quote;
        Plus Space true; Lit "OR"].

(** [/ORDER BY\s+(\w+)(?:\s+(ASC|DESC))?/i] *)
Definition ORDER_BY_RE : regex :=
  seqs [Lit "ORDER BY"; Plus Space true; Group 1 (Plus Word true);
        Opt (Seq (Plus Space true) (Group 2 (Alt (Lit "ASC") (Lit "DESC"))))].

(** [/LIMIT\s+(\d+)/i] *)
Definition LIMIT_RE : regex :=
  seqs [Lit "LIMIT"; Plus Space true; Group 1 (Plus Digit true)].

(** [/SELECT\s+TOP\s+(\d+)/i] *)
Definition TOP_RE : regex :=
  seqs [Lit "SELECT"; Plus Space true; Lit "TOP"; Plus Space true; Group 1 (Plus Digit true)].

(** [s.match(re)] with the [i] flag, as every pattern above has it. *)
Definition jsMatch (s : string) (re : regex) : option captures := exec true re s.

(** [m[i]]; [None] is [undefined]. *)
Definition group (m : captures) (i : nat) : option string := m !! i.

(** [v !== m[i]] *)
Definition differsFrom (v : jsval) (capture : option string) : bool :=
  match capture with
  | Some s => negb (strictEqStr v s)
  | None => match v with VUndefined => false | _ => true end
  end.

(** *** The SELECT pipeline *)

Section Pipeline.
Context {rt : JsRuntime}.

(** An equality block of the filter callback: [true] when it returns
    [false] for the row. *)
Definition equalityRejects (re : regex) (field : string)
           (whereClause : string) (r : row) : bool :=
  match jsMatch whereClause re with
  | Some _ =>
      match jsMatch whereClause re with
      | Some m => differsFrom (getProp r field) (group m 1)
      | None => false
      end
  | None => false
  end.

(** A date block: the clause compares the column with the current
    date, the row has the field and its date is not before [now]. *)
Definition notBeforeNowRejects (re : regex) (field : string)
           (whereClause : string) (now : Z) (r : row) : bool :=
  match jsMatch whereClause re with
  | Some _ =>
      truthy (getProp r field) && dateGe (newDate (getProp r field)) (Some now)
  | None => false
  end.

Definition lowStockRejects (whereClause : string) (r : row) : bool :=
  match jsMatch whereClause LOW_STOCK_RE with
  | Some _ =>
      truthy (getProp r "quantityOnHand") && truthy (getProp r "reorderLevel") &&
      jsGt (getProp r "quantityOnHand") (getProp r "reorderLevel")
  | None => false
  end.

Definition quarterRejects (whereClause : string) (now : Z) (r : row) : bool :=
  match jsMatch whereClause QUARTER_RE with
  | Some _ =>
      truthy (getProp r "orderDate") &&
      (let orderDate := newDate (getProp r "orderDate") in
       let threeMonthsAgo := Date_setMonth now (Date_getMonth now - 3) in
       dateLt orderDate threeMonthsAgo)
  | None => false
  end.

Definition delayedOrRejects (whereClause : string) (now : Z) (r : row) : bool :=
  match jsMatch whereClause DELAYED_OR_RE with
  | Some _ =>
      let isDelayed := strictEqStr (getProp r "status") "delayed" in
      let isOverdue :=
        strictEqStr (getProp r "status") "in-progress" &&
        truthy (getProp r "scheduledDate") &&
        dateLt (newDate (getProp r "scheduledDate")) (Some now) in
      negb isDelayed && negb isOverdue
  | None => false
  end.

(** The callback of [data.filter] in [applyWhereConditions]: the
    blocks in source order, each able to return [false]. *)
Definition whereCallback (whereClause : string) (now : Z) (r : row) : bool :=
  if equalityRejects STATUS_RE "status" whereClause r then false
  else if equalityRejects PRIORITY_RE "priority" whereClause r then false
  else if equalityRejects REGION_RE "region" whereClause r then false
  else if notBeforeNowRejects DUE_DATE_RE "dueDate" whereClause now r then false
  else if notBeforeNowRejects SCHEDULED_DATE_RE "scheduledDate" whereClause now r then false
  else if lowStockRejects whereClause r then false
  else if quarterRejects whereClause now r then false
  else if delayedOrRejects whereClause now r then false
  else true.

(** The text of the WHERE clause, when the statement has one. *)
Definition whereClauseOf (sql : string) : option string :=
  match jsMatch sql WHERE_RE with
  | Some whereMatch =>
      match group whereMatch 1 with
      | Some g => Some (trim g)
      | None => None
      end
  | None => None
  end.

Definition applyWhereConditions (data : loc) (sql : string) (now : Z) : M loc :=
  match whereClauseOf sql with
  | None => ret data
  | Some whereClause => Array_filter (whereCallback whereClause now) data
  end.

Definition columnMapping : gmap string string :=
  list_to_map
    [("order_id", "orderId"); ("order_number", "orderNumber");
     ("customer_name", "customerName"); ("order_date", "orderDate");
     ("total_amount", "totalAmount"); ("sales_rep", "salesRep");
     ("work_order_id", "workOrderId"); ("work_order_number", "workOrderNumber");
     ("assigned_to", "assignedTo"); ("scheduled_date", "scheduledDate");
     ("completion_date", "completionDate"); ("invoice_id", "invoiceId");
     ("invoice_number", "invoiceNumber"); ("vendor_name", "vendorName");
     ("invoice_date", "invoiceDate"); ("due_date", "dueDate");
     ("payment_terms", "paymentTerms"); ("item_id", "itemId");
     ("item_code", "itemCode"); ("item_name", "itemName");
     ("quantity_on_hand", "quantityOnHand"); ("unit_price", "unitPrice");
     ("reorder_level", "reorderLevel")].

Definition mapColumnName (sqlColumn : string) : string :=
  match columnMapping !! toLowerCase sqlColumn with
  | Some name => name
  | None => sqlColumn
  end.

(** [aVal instanceof Date || typeof aVal === 'string' && !isNaN(Date.parse(aVal))] *)
Definition comparesAsDate (v : jsval) : bool :=
  match v with
  | VDate _ => true
  | VStr s => negb (isNaN (timeToNumber (Date_parse s)))
  | _ => false
  end.

(** [typeof aVal === 'number' || !isNaN(parseFloat(aVal))] *)
Definition comparesAsNumber (v : jsval) : bool :=
  match v with
  | VNum _ => true
  | _ => negb (isNaN (parseFloat v))
  end.

(** The comparator of [data.sort] in [applyOrderBy]. *)
Definition orderComparator (column direction : string) (a b : row) : number :=
  let aVal := getProp a column in
  let bVal := getProp b column in
  if isNullish aVal then Fin 1
  else if isNullish bVal then Fin (-1)
  else if comparesAsDate aVal then
    let aDate := timeToNumber (newDate aVal) in
    let bDate := timeToNumber (newDate bVal) in
    if String.eqb direction "DESC" then sub bDate aDate else sub aDate bDate
  else if comparesAsNumber aVal then
    let aNum := parseFloat aVal in
    let bNum := parseFloat bVal in
    if String.eqb direction "DESC" then sub bNum aNum else sub aNum bNum
  else
    let comparison := ofZ (localeCompare (jsString aVal) (jsString bVal)) in
    if String.eqb direction "DESC" then neg comparison else comparison.

(** [(orderMatch[2] || 'ASC').toUpperCase()] *)
Definition directionOf (orderMatch : captures) : string :=
  toUpperCase
    (match group orderMatch 2 with
     | Some d => if String.eqb d "" then "ASC" else d
     | None => "ASC"
     end).

(** [mapColumnName(orderMatch[1])] *)
Definition columnOf (orderMatch : captures) : string :=
  mapColumnName (match group orderMatch 1 with Some c => c | None => "undefined" end).

Definition applyOrderBy (data : loc) (sql : string) : M loc :=
  match jsMatch sql ORDER_BY_RE with
  | None => ret data
  | Some orderMatch =>
      Array_sort (orderComparator (columnOf orderMatch) (directionOf orderMatch)) data
  end.

Definition applyLimit (data : loc) (sql : string) : M loc :=
  match jsMatch sql LIMIT_RE with
  | Some limitMatch =>
      Array_slice0 (parseInt (match group limitMatch 1 with Some n => n | None => "undefined" end)) data
  | None =>
      match jsMatch sql TOP_RE with
      | Some topMatch =>
          Array_slice0 (parseInt (match group topMatch 1 with Some n => n | None => "undefined" end)) data
      | None => ret data
      end
  end.

Definition UnsupportedStatement : exn := Error "Only SELECT queries are supported".

Definition UnknownTable : exn :=
  Error "No valid table found in query. Supported tables: sales_orders, work_orders, invoices, inventory_items".

(** [`SQL execution error on ${tableName}: ${error.message}`] *)
Definition ExecutionError (tableName : string) (cause : exn) : exn :=
  Error (String.append "SQL execution error on "
           (String.append tableName (String.append ": " (message cause)))).

(** The table a statement names: its name and a copy of its rows. *)
Definition selectTable (this : MemStorage) (lowerSql : string) : M (loc * string) :=
  if includes lowerSql "sales_orders" then
    do data <- Array_spread (salesOrders this); ret (data, "sales_orders")
  else if includes lowerSql "work_orders" then
    do data <- Array_spread (workOrders this); ret (data, "work_orders")
  else if includes lowerSql "invoices" then
    do data <- Array_spread (invoices this); ret (data, "invoices")
  else if includes lowerSql "inventory_items" then
    do data <- Array_spread (inventoryItems this); ret (data, "inventory_items")
  else throw UnknownTable.

(** The three stages in their fixed order. *)
Definition runStages (data : loc) (sql : string) (now : Z) : M loc :=
  do data <- applyWhereConditions data sql now;
  do data <- applyOrderBy data sql;
  do data <- applyLimit data sql;
  ret data.

Definition executeSqlQuery (this : MemStorage) (sql : string) (now : Z) : M loc :=
  let lowerSql := trim (toLowerCase sql) in
  if negb (startsWith lowerSql "select") then throw UnsupportedStatement
  else
    do _ <- alloc [];
    do selected <- selectTable this lowerSql;
    let '(data, tableName) := selected in
    tryCatch (runStages data sql now)
             (fun error => throw (ExecutionError tableName error)).

End Pipeline.

(* ===================================================================== *)
(** ** [server/openai-service.ts]: the writer of query records *)
(* ===================================================================== *)

(** The update [processQueryAsync] stores once the generated SQL has
    been run: [errorMessage] is [null] or the text of the failure, and
    decides [status] and [resultData]. *)
Definition completedUpdate (sql interpretation resultJson : string)
           (errorMessage : option string) (executionTimeMs : Z) : Schema.PartialQuery :=
  let failed := match errorMessage with
                | Some m => negb (String.eqb m "")
                | None => false
                end in
  {| Schema.setId := None;
     Schema.setUserQuestion := None;
     Schema.setGeneratedSql := Some (Some sql);
     Schema.setAiInterpretation := Some (Some interpretation);
     Schema.setResultData := Some (if failed then None else Some resultJson);
     Schema.setStatus := Some (if failed then "error" else "success");
     Schema.setErrorMessage := Some errorMessage;
     Schema.setExecutionTimeMs := Some (Some executionTimeMs);
     Schema.setCreatedAt := None |}.

(** The update of its [catch] block. *)
Definition failedUpdate (errorMessage : string) (executionTimeMs : Z) : Schema.PartialQuery :=
  {| Schema.setId := None;
     Schema.setUserQuestion := None;
     Schema.setGeneratedSql := None;
     Schema.setAiInterpretation := None;
     Schema.setResultData := None;
     Schema.setStatus := Some "error";
     Schema.setErrorMessage := Some (Some errorMessage);
     Schema.setExecutionTimeMs := Some (Some executionTimeMs);
     Schema.setCreatedAt := None |}.

(** How one run of [processQueryAsync] ends: in its [try] block or in
    its [catch] block.  Either way it calls [updateQuery] once. *)
Inductive processed :=
| Completed (sql interpretation resultJson : string) (errorMessage : option string)
            (executionTimeMs : Z)
| Failed (errorMessage : string) (executionTimeMs : Z).

Definition processQueryAsync (queryId : string) (p : processed) (this : MemStorage)
  : MemStorage :=
  match p with
  | Completed sql interp json err ms =>
      snd (updateQuery queryId (completedUpdate sql interp json err ms) this)
  | Failed err ms => snd (updateQuery queryId (failedUpdate err ms) this)
  end.

(** The route [POST /api/queries] and the task it starts, as events: a
    submission creates the record under a fresh identifier and leaves
    its task pending; a pending task finishes once. *)
Inductive event :=
| Submit (id : string) (now : Z) (insertQuery : Schema.InsertQuery)
| Finish (id : string) (p : processed).

Record service := {
  storage : MemStorage;
  pending : gset string
}.

Definition step (e : event) (s : service) : option service :=
  match e with
  | Submit id now insertQuery =>
      if decide (id ∈ dom (queries (storage s))) then None
      else Some {| storage := snd (createQuery id now insertQuery (storage s));
                   pending := {[id]} ∪ pending s |}
  | Finish id p =>
      if decide (id ∈ pending s)
      then Some {| storage := processQueryAsync id p (storage s);
                   pending := pending s ∖ {[id]} |}
      else None
  end.

Fixpoint run (es : list event) (s : service) : option service :=
  match es with
  | [] => Some s
  | e :: es' => match step e s with
                | Some s' => run es' s'
                | None => None
                end
  end.

(** The moves of [status] the data model allows: none, or out of
    [processing] into [success] or [error]. *)
Definition allowedMove (old new : string) : Prop :=
  old = new \/ (old = "processing" /\ (new = "success" \/ new = "error")).

(** Every record of [before] is still there and made an allowed move;
    a record that is new starts in [processing]. *)
Definition disciplined (before after : gmap string Schema.Query) : Prop :=
  (forall id q, before !! id = Some q ->
     exists q', after !! id = Some q' /\ allowedMove (Schema.status q) (Schema.status q')) /\
  (forall id q', before !! id = None -> after !! id = Some q' ->
     Schema.status q' = "processing").

(* ===================================================================== *)
(** ** Vocabulary of the statements *)
(* ===================================================================== *)

(** *** What a pattern denotes *)

Fixpoint allChars (p : ascii -> bool) (s : string) : bool :=
  match s with
  | EmptyString => true
  | String c s' => p c && allChars p s'
  end.

(** [denotes icase r pre rest]: the pattern [r] can consume [pre] when
    [rest] follows. *)
Fixpoint denotes (icase : bool) (r : regex) (pre rest : string) : Prop :=
  match r with
  | Lit p => stripLit icase p pre = Some EmptyString
  | Cls c => exists a, pre = String a EmptyString /\ inClass c a = true
  | Star c _ => allChars (inClass c) pre = true
  | Seq r1 r2 =>
      exists p1 p2, pre = p1 +:+ p2 /\
        denotes icase r1 p1 (p2 +:+ rest) /\ denotes icase r2 p2 rest
  | Alt r1 r2 => denotes icase r1 pre rest \/ denotes icase r2 pre rest
  | Opt r1 => pre = EmptyString \/ denotes icase r1 pre rest
  | Group _ r1 => denotes icase r1 pre rest
  | Eos => pre = EmptyString /\ rest = EmptyString
  end.

(** The pattern occurs somewhere in [s] (flag [i] set). *)
Definition occursIn (re : regex) (s : string) : Prop :=
  exists before pre rest, s = before +:+ pre +:+ rest /\ denotes true re pre rest.


(** *** Clauses, read off the text *)

(** [text] is [word] up to letter case. *)
Definition spells (word text : string) : Prop := stripLit true word text = Some EmptyString.

(** A non-empty run of white space. *)
Definition blank (s : string) : Prop := s <> EmptyString /\ allChars isWhiteSpace s = true.


(** Somewhere in [sql], LIMIT, white space and then a decimal digit. *)
Definition limitClauseIn (sql : string) : Prop :=
  exists before kw sp d rest,
    sql = before +:+ kw +:+ sp +:+ String d rest /\
    spells "LIMIT" kw /\ blank sp /\ isDigit d = true.

(** Somewhere in [sql], SELECT, white space, TOP, white space and then
    a decimal digit. *)
Definition topClauseIn (sql : string) : Prop :=
  exists before kw1 sp1 kw2 sp2 d rest,
    sql = before +:+ kw1 +:+ sp1 +:+ kw2 +:+ sp2 +:+ String d rest /\
    spells "SELECT" kw1 /\ blank sp1 /\ spells "TOP" kw2 /\ blank sp2 /\ isDigit d = true.

(** The WHERE clause holds no recognized shape besides the status
    equality. *)
Definition statusOnly (whereClause : string) : Prop :=
  jsMatch whereClause PRIORITY_RE = None /\
  jsMatch whereClause REGION_RE = None /\
  jsMatch whereClause DUE_DATE_RE = None /\
  jsMatch whereClause SCHEDULED_DATE_RE = None /\
  jsMatch whereClause LOW_STOCK_RE = None /\
  jsMatch whereClause QUARTER_RE = None /\
  jsMatch whereClause DELAYED_OR_RE = None.



(** *** Results of array computations *)

(** The result of a computation started in [h]. *)
Definition resultRows (out : completion loc * heap) : completion (list row) :=
  match out with
  | (Normal l, h') => Normal (contents h' l)
  | (Throw e, _) => Throw e
  end.

(** The four collections are allocated arrays of [h]. *)
Definition allocated (this : MemStorage) (h : heap) : Prop :=
  salesOrders this < length h /\ workOrders this < length h /\
  invoices this < length h /\ inventoryItems this < length h.


(** A stage started in [h] on the array [data] completes normally; its
    result holds [f] of the rows of [data]; it is [data] itself or an
    array allocated since; and no other array of [h] was written. *)
Definition transforms (f : list row -> list row) (data : loc) (h : heap)
           (out : completion loc * heap) : Prop :=
  exists l h',
    out = (Normal l, h') /\
    contents h' l = f (contents h data) /\
    length h <= length h' /\
    (forall l0, l0 < length h -> l0 <> data -> h' !! l0 = h !! l0) /\
    l < length h' /\
    (l = data \/ length h <= l).

(** *** The stages on the elements of an array *)

Section Stages.
Context {rt : JsRuntime}.

Definition whereRows (sql : string) (now : Z) (rows : list row) : list row :=
  match whereClauseOf sql with
  | None => rows
  | Some whereClause => List.filter (whereCallback whereClause now) rows
  end.

Definition orderRows (sql : string) (rows : list row) : list row :=
  match jsMatch sql ORDER_BY_RE with
  | None => rows
  | Some orderMatch =>
      sortList (orderComparator (columnOf orderMatch) (directionOf orderMatch)) rows
  end.

Definition limitOf (sql : string) : option (option N) :=
  match jsMatch sql LIMIT_RE with
  | Some limitMatch =>
      Some (parseInt (match group limitMatch 1 with Some n => n | None => "undefined" end))
  | None =>
      match jsMatch sql TOP_RE with
      | Some topMatch =>
          Some (parseInt (match group topMatch 1 with Some n => n | None => "undefined" end))
      | None => None
      end
  end.

Definition limitRows (sql : string) (rows : list row) : list row :=
  match limitOf sql with
  | Some (Some n) => take (N.to_nat n) rows
  | Some None => []
  | None => rows
  end.

Definition stagesRows (sql : string) (now : Z) (rows : list row) : list row :=
  limitRows sql (orderRows sql (whereRows sql now rows)).

(** The value is a Number other than NaN, or a text that [Date.parse]
    rejects and [parseFloat] reads. *)
Definition plainNumeric (v : jsval) : bool :=
  match v with
  | VNum n => negb (isNaN n)
  | VStr s => isNaN (timeToNumber (Date_parse s)) && negb (isNaN (parseFloatStr s))
  | _ => false
  end.

End Stages.

(** [trim (toLowerCase sql)], the text [executeSqlQuery] inspects. *)
Definition lowered (sql : string) : string := trim (toLowerCase sql).

(** A statement completes normally on the rows [rows] of one collection:
    the result is a new array holding the three stages applied to
    [rows]. *)
Definition answersFrom {rt : JsRuntime} (rows : list row) (sql : string) (now : Z)
           (h : heap) (out : completion loc * heap) : Prop :=
  exists l h',
    out = (Normal l, h') /\
    contents h' l = stagesRows sql now rows /\
    length h <= l /\
    (forall l0, l0 < length h -> h' !! l0 = h !! l0).

(** *** The order of a sorted result *)

(** [a <= b] on Numbers that are not NaN. *)
Definition numLe (a b : number) : Prop := ltb b a = false.

(** The row has no value to sort by: [null] or [undefined]. *)
Definition nullAt (column : string) (r : row) : bool := isNullish (getProp r column).

(** [parseFloat] of the value the row is sorted by. *)
Definition numericValue {rt : JsRuntime} (column : string) (r : row) : number :=
  parseFloat (getProp r column).

(** No row is followed, anywhere later, by a row of greater numeric
    value. *)
Definition nonIncreasing {rt : JsRuntime} (column : string) (rows : list row) : Prop :=
  StronglySorted
    (fun earlier later => numLe (numericValue column later) (numericValue column earlier))
    rows.

(** The rows without a sort value come after all the others. *)
Definition nullsLast (column : string) (rows : list row) : Prop :=
  exists front back,
    rows = front ++ back /\
    Forall (fun r => nullAt column r = false) front /\
    Forall (fun r => nullAt column r = true) back.

(** The rows the numeric order is stated for: no sort value, or a
    plain number. *)
Definition sortable {rt : JsRuntime} (column : string) (r : row) : Prop :=
  nullAt column r = true \/ plainNumeric (getProp r column) = true.

(** The comparator under DESC puts [x] before [y]. *)
Definition beforeDesc {rt : JsRuntime} (column : string) (x y : row) : bool :=
  negative (orderComparator column "DESC" x y).

(** An insertion sort by a strict order [before]. *)
Definition insertBy {A} (before : A -> A -> bool) : A -> list A -> list A :=
  fix ins (x : A) (revPrefix : list A) : list A :=
    match revPrefix with
    | [] => [x]
    | y :: rest => if before x y then y :: ins x rest else x :: revPrefix
    end.

(** *** The records of the service *)

(** A store whose collections are the arrays 0 to 3 of the heap, as
    [newMemStorage] lays them out, and the service before any request. *)
Definition freshStorage : MemStorage :=
  {| queries := ∅; salesOrders := 0; workOrders := 1; invoices := 2; inventoryItems := 3 |}.

Definition idle : service := {| storage := freshStorage; pending := ∅ |}.

(** The status stored under [id]. *)
Definition statusOf (this : MemStorage) (id : string) : option string :=
  Schema.status <$> queries this !! id.

(** Every pending task owns a record that is still [processing]. *)
Definition pendingProcessing (s : service) : Prop :=
  forall id, id ∈ pending s ->
    exists q, queries (storage s) !! id = Some q /\ Schema.status q = "processing".

(* ===================================================================== *)
(** ** Hosts and data of the examples *)
(* ===================================================================== *)

(** A host in which no text is read as a date and every two strings
    collate as equal; enough for examples over numbers, dates and
    decimal texts. *)
Definition plainHost : JsRuntime :=
  {| Date_parse := fun _ => None;
     Date_getMonth := fun _ => 0%Z;
     Date_setMonth := fun t _ => Some t;
     Date_toString := fun _ => "Invalid Date";
     Number_toString := fun _ => "NaN";
     localeCompare := fun _ _ => 0%Z |}.

(** A host whose [Date.parse] falls back, as legacy parsers do, to
    reading [10.25] as a month and a day (25 October 2001) and rejects
    the other texts of the example. *)
Definition monthDayHost : JsRuntime :=
  {| Date_parse := fun s => if String.eqb s "10.25" then Some 1003968000000%Z else None;
     Date_getMonth := fun _ => 0%Z;
     Date_setMonth := fun t _ => Some t;
     Date_toString := fun _ => "Invalid Date";
     Number_toString := fun _ => "NaN";
     localeCompare := fun _ _ => 0%Z |}.

Definition num (z : Z) : jsval := VNum (ofZ z).

Definition workOrder (workOrderId status : string) (scheduledDate : Z) : row :=
  [("workOrderId", VStr workOrderId); ("status", VStr status);
   ("priority", VStr "medium"); ("scheduledDate", VDate (Some scheduledDate));
   ("completionDate", VNull)].

Definition inventoryItem (itemId : string) (quantityOnHand : Z) (unitPrice : jsval)
           (reorderLevel : jsval) : row :=
  [("itemId", VStr itemId); ("quantityOnHand", num quantityOnHand);
   ("unitPrice", unitPrice); ("reorderLevel", reorderLevel)].

Definition invoice (invoiceId status : string) (dueDate : Z) : row :=
  [("invoiceId", VStr invoiceId); ("status", VStr status);
   ("dueDate", VDate (Some dueDate))].

(** The statement the prompt of [openai-service.ts] prescribes for
    delayed work orders, with the ORDER BY and LIMIT of its examples. *)
Definition delayedWorkOrdersSql : string :=
  "SELECT * FROM work_orders WHERE status = 'delayed' OR (status = 'in-progress' AND scheduled_date < GETDATE()) ORDER BY scheduled_date ASC LIMIT 20".

(** One delayed order, one in progress and scheduled in the past, one
    completed; the clock reads 5000. *)
Definition delayedOrder : row := workOrder "WO-1" "delayed" 2000.
Definition overdueOrder : row := workOrder "WO-2" "in-progress" 1000.
Definition completedOrder : row := workOrder "WO-3" "completed" 500.
Definition workOrderFixture : list row := [delayedOrder; overdueOrder; completedOrder].



(** Tokens after LIMIT that begin with a digit without being a
    sequence of decimal digits. *)
Definition hexLimitSql : string := "SELECT * FROM invoices LIMIT 0x10".
Definition ordinalLimitSql : string := "SELECT * FROM invoices LIMIT 2nd".

Definition scarceItem : row := inventoryItem "ITM-1" 10 (VStr "19.99") (num 50).
Definition ampleItem : row := inventoryItem "ITM-2" 80 (VStr "5.00") (num 20).

(** Decimal prices as the mock data writes them, [toFixed(2)]. *)
Definition roundPrice : row := inventoryItem "ITM-4" 40 (VStr "10.00") (num 60).
Definition monthDayPrice : row := inventoryItem "ITM-5" 40 (VStr "10.25") (num 60).
Definition dearItem : row := inventoryItem "ITM-6" 7 (VStr "120.50") (num 60).
Definition unpricedItem : row := inventoryItem "ITM-7" 7 VNull (num 60).

Definition byPriceDescSql : string :=
  "SELECT * FROM inventory_items ORDER BY unit_price DESC".

(** The captures of [ORDER BY unit_price DESC]. *)
Definition byPriceDescMatch : captures :=
  <[0 := "ORDER BY unit_price DESC"]> (<[1 := "unit_price"]> (<[2 := "DESC"]> ∅)).

(** An update that carries a status and nothing else. *)
Definition statusUpdate (s : string) : Schema.PartialQuery :=
  {| Schema.setId := None; Schema.setUserQuestion := None; Schema.setGeneratedSql := None;
     Schema.setAiInterpretation := None; Schema.setResultData := None;
     Schema.setStatus := Some s; Schema.setErrorMessage := None;
     Schema.setExecutionTimeMs := None; Schema.setCreatedAt := None |}.

Definition question : Schema.InsertQuery :=
  {| Schema.insertUserQuestion := "Show me all delayed work orders" |}.

(** A store over given collections, and a statement run against it. *)
Definition query {rt : JsRuntime} (sales work inv items : list row) (sql : string) (now : Z)
  : completion (list row) :=
  match newMemStorage sales work inv items [] with
  | (Normal this, h) => resultRows (executeSqlQuery this sql now h)
  | (Throw e, _) => Throw e
  end.

(* ===================================================================== *)
(** ** [server/storage.ts]: the query history *)
(* ===================================================================== *)

(** [Array.from(m.values())].  A [Map] iterates in the order in which
    its keys were first set, and [set] on a key it holds keeps the
    key's place; [order] is that order of the keys. *)
Definition Map_values {V} (order : list string) (m : gmap string V) : list V :=
  omap (fun k => m !! k) order.

(** [ToIntegerOrInfinity] of a finite Number: the fraction is dropped. *)
Definition truncate (q : Q) : Z := Z.quot (Qnum q) (Zpos (Qden q)).

(** The index at which [xs.slice(0, finish)] stops on an array of
    [len] elements: NaN counts as 0, a negative [finish] counts from
    the end, and the result is clamped to the array. *)
Definition sliceEnd (len : nat) (finish : number) : nat :=
  match finish with
  | NaN => 0
  | Inf negative => if negative then 0 else len
  | Fin q =>
      let relativeEnd := truncate q in
      if (relativeEnd <? 0)%Z then Z.to_nat (Z.max (Z.of_nat len + relativeEnd) 0)
      else Z.to_nat (Z.min relativeEnd (Z.of_nat len))
  end.

(** [xs.slice(0, finish)] on an array carried as a value. *)
Definition slice0 {A} (finish : number) (xs : list A) : list A :=
  take (sliceEnd (length xs) finish) xs.

(** [(a, b) => new Date(b.createdAt).getTime() - new Date(a.createdAt).getTime()] *)
Definition newestFirst (a b : Schema.Query) : number :=
  sub (ofZ (Schema.createdAt b)) (ofZ (Schema.createdAt a)).

(** [getQueryHistory]; the result is a new array of the stored
    records. *)
Definition getQueryHistory (order : list string) (this : MemStorage) : list Schema.Query :=
  sortList newestFirst (Map_values order (queries this)).

(** [getRecentQueries(limit = 5)]; [None] is an omitted argument. *)
Definition getRecentQueries (limit : option number) (order : list string) (this : MemStorage)
  : list Schema.Query :=
  let limit := match limit with Some n => n | None => ofZ 5 end in
  slice0 limit (sortList newestFirst (Map_values order (queries this))).

(* ===================================================================== *)
(** ** [server/storage.ts]: the dashboard metrics *)
(* ===================================================================== *)

(** The double nearest to a rational of either sign. *)
Definition roundSigned (q : Q) : number :=
  match (q ?= 0)%Q with
  | Eq => Fin 0
  | Gt => roundDouble q
  | Lt => neg (roundDouble (- q))
  end.

(** [a + b] on Numbers: the exact sum rounded to a double. *)
Definition add (a b : number) : number :=
  match a, b with
  | NaN, _ | _, NaN => NaN
  | Inf s, Inf t => if Bool.eqb s t then Inf s else NaN
  | Inf s, Fin _ => Inf s
  | Fin _, Inf t => Inf t
  | Fin x, Fin y => roundSigned (x + y)
  end.

(** [xs.length] *)
Definition Array_length (xs : loc) : M nat :=
  do elems <- load xs; ret (length elems).

(** [xs.reduce(f, init)] *)
Definition Array_reduce {A} (f : A -> row -> A) (init : A) (xs : loc) : M A :=
  do elems <- load xs; ret (fold_left f elems init).

Module Metrics.

(** [DashboardMetrics] of [shared/schema.ts]; the three counts are
    array lengths. *)
Record DashboardMetrics := {
  totalSales : number;
  pendingOrders : nat;
  activeWorkOrders : nat;
  overdueInvoices : nat
}.

End Metrics.

Section Dashboard.
Context {rt : JsRuntime}.

Definition getDashboardMetrics (this : MemStorage) (now : Z) : M Metrics.DashboardMetrics :=
  do completed <- Array_filter (fun o => strictEqStr (getProp o "status") "completed")
                               (salesOrders this);
  do totalSales <- Array_reduce (fun sum o => add sum (parseFloat (getProp o "totalAmount")))
                                (Fin 0) completed;
  do pending <- Array_filter (fun o => strictEqStr (getProp o "status") "pending")
                             (salesOrders this);
  do pendingOrders <- Array_length pending;
  do active <- Array_filter (fun w => strictEqStr (getProp w "status") "in-progress")
                            (workOrders this);
  do activeWorkOrders <- Array_length active;
  do overdue <- Array_filter
                  (fun i => strictEqStr (getProp i "status") "pending" &&
                            dateLt (newDate (getProp i "dueDate")) (Some now))
                  (invoices this);
  do overdueInvoices <- Array_length overdue;
  ret {| Metrics.totalSales := totalSales;
         Metrics.pendingOrders := pendingOrders;
         Metrics.activeWorkOrders := activeWorkOrders;
         Metrics.overdueInvoices := overdueInvoices |}.

End Dashboard.

(* ===================================================================== *)
(** ** [server/openai-service.ts]: generating the statement *)
(* ===================================================================== *)

Module Generation.

(** [interface SQLGenerationResult] *)
Record SQLGenerationResult := {
  sql : string;
  interpretation : string;
  confidence : number
}.

(** The object [JSON.parse] makes of the reply, its fields typed as
    the interface declares them and as the prompt asks for them; [None]
    is a field that is absent or [null]. *)
Record Reply := {
  replySql : option string;
  replyInterpretation : option string;
  replyConfidence : option number
}.

End Generation.

(** A decimal literal of the source: the Number it denotes. *)
Definition literal (s : string) : number := stringToNumber s.

Definition generateFallbackSQL (userQuestion : string) : Generation.SQLGenerationResult :=
  let lowerQuestion := toLowerCase userQuestion in
  if includes lowerQuestion "pending" && includes lowerQuestion "sales" then
    {| Generation.sql := "SELECT * FROM sales_orders WHERE status = 'pending' ORDER BY order_date DESC LIMIT 20";
       Generation.interpretation := "Showing all pending sales orders, ordered by date (newest first), limited to 20 results";
       Generation.confidence := literal "0.85" |}
  else if includes lowerQuestion "delayed" && includes lowerQuestion "work" then
    {| Generation.sql := "SELECT * FROM work_orders WHERE status = 'delayed' ORDER BY scheduled_date ASC LIMIT 20";
       Generation.interpretation := "Showing all delayed work orders, ordered by scheduled date (oldest first), limited to 20 results";
       Generation.confidence := literal "0.85" |}
  else if includes lowerQuestion "overdue" && includes lowerQuestion "invoice" then
    {| Generation.sql := "SELECT * FROM invoices WHERE status = 'pending' AND due_date < CURRENT_TIMESTAMP ORDER BY due_date ASC LIMIT 20";
       Generation.interpretation := "Showing all overdue invoices (pending invoices past their due date), ordered by due date (oldest first), limited to 20 results";
       Generation.confidence := literal "0.85" |}
  else if includes lowerQuestion "low" && includes lowerQuestion "inventory" then
    {| Generation.sql := "SELECT * FROM inventory_items WHERE quantity_on_hand <= reorder_level ORDER BY quantity_on_hand ASC LIMIT 20";
       Generation.interpretation := "Showing all inventory items below reorder level, ordered by quantity (lowest first), limited to 20 results";
       Generation.confidence := literal "0.85" |}
  else if includes lowerQuestion "sales" then
    {| Generation.sql := "SELECT * FROM sales_orders ORDER BY order_date DESC LIMIT 20";
       Generation.interpretation := "Showing recent sales orders, ordered by date (newest first), limited to 20 results";
       Generation.confidence := literal "0.7" |}
  else if includes lowerQuestion "work" then
    {| Generation.sql := "SELECT * FROM work_orders ORDER BY scheduled_date DESC LIMIT 20";
       Generation.interpretation := "Showing recent work orders, ordered by scheduled date (newest first), limited to 20 results";
       Generation.confidence := literal "0.7" |}
  else if includes lowerQuestion "invoice" then
    {| Generation.sql := "SELECT * FROM invoices ORDER BY invoice_date DESC LIMIT 20";
       Generation.interpretation := "Showing recent invoices, ordered by date (newest first), limited to 20 results";
       Generation.confidence := literal "0.7" |}
  else if includes lowerQuestion "inventory" then
    {| Generation.sql := "SELECT * FROM inventory_items ORDER BY quantity_on_hand ASC LIMIT 20";
       Generation.interpretation := "Showing inventory items, ordered by quantity (lowest first), limited to 20 results";
       Generation.confidence := literal "0.7" |}
  else
    {| Generation.sql := "SELECT * FROM sales_orders ORDER BY order_date DESC LIMIT 10";
       Generation.interpretation := "Showing recent sales orders as a default query";
       Generation.confidence := literal "0.5" |}.

(** [Math.max(a, b)] and [Math.min(a, b)] on two Numbers. *)
Definition Math_max (a b : number) : number :=
  if isNaN a || isNaN b then NaN else if ltb a b then b else a.

Definition Math_min (a b : number) : number :=
  if isNaN a || isNaN b then NaN else if ltb b a then b else a.

(** [value || fallback] for a Number and for a string that may be
    absent: 0, NaN and the empty string are falsy. *)
Definition orNumber (value : option number) (fallback : number) : number :=
  match value with
  | Some n => if isNaN n || isZero n then fallback else n
  | None => fallback
  end.

Definition orString (value : option string) (fallback : string) : string :=
  match value with
  | Some s => if String.eqb s "" then fallback else s
  | None => fallback
  end.

Definition NotASelect : exn := Error "Generated query must be a SELECT statement".

(** The end of the [try] block of [generateSQLWithContext], from the
    parsed reply on.  In [result.sql.trim().toUpperCase()] the three
    Latin-1 letters whose capital is not one Latin-1 code unit are left
    alone: the capital of U+00DF is SS and the two others lie beyond
    Latin-1, and SELECT holds no double S, so that the test for the
    prefix SELECT has the same result. *)
Definition acceptReply (result : Generation.Reply)
  : completion Generation.SQLGenerationResult :=
  match Generation.replySql result with
  | None => Throw NotASelect
  | Some sql =>
      if String.eqb sql "" || negb (startsWith (toUpperCase (trim sql)) "SELECT")
      then Throw NotASelect
      else Normal
             {| Generation.sql := trim sql;
                Generation.interpretation :=
                  orString (Generation.replyInterpretation result)
                           "Generated SQL query based on your question";
                Generation.confidence :=
                  Math_min (Math_max (orNumber (Generation.replyConfidence result)
                                               (literal "0.7"))
                                     (Fin 0))
                           (Fin 1) |}
  end.

(** [generateSQLWithContext]: [reply] is how the request to the model
    and [JSON.parse] of its answer end, with a parsed reply or with an
    error.  The previous queries only enter the text of the request, so
    they are no argument here. *)
Definition generateSQLWithContext (userQuestion : string)
           (reply : completion Generation.Reply)
  : completion Generation.SQLGenerationResult :=
  let attempt :=
    match reply with
    | Normal result => acceptReply result
    | Throw error => Throw error
    end in
  match attempt with
  | Normal result => Normal result
  | Throw error =>
      if includes (message error) "429" || includes (message error) "quota"
      then Normal (generateFallbackSQL userQuestion)
      else Throw (Error (String.append "AI processing failed: " (message error)))
  end.

(* ===================================================================== *)
(** ** [server/openai-service.ts]: processing a submission *)
(* ===================================================================== *)

Section Processing.
Context {rt : JsRuntime}.

(** [JSON.stringify] of the rows of a result. *)
Variable JSON_stringify : list row -> string.

(** The work of [processQueryAsync] before its call of [updateQuery]:
    [generated] is how [generateSQLWithContext] ended, [startTime] and
    [finishTime] are the two readings of [Date.now()], and [now] is
    the clock of the statement.  The result says which update is
    made. *)
Definition outcomeOf (generated : completion Generation.SQLGenerationResult)
           (startTime finishTime now : Z) (this : MemStorage) : M processed :=
  match generated with
  | Throw error => ret (Failed (message error) (finishTime - startTime))
  | Normal result =>
      do _ <- alloc [];
      fun h =>
        match executeSqlQuery this (Generation.sql result) now h with
        | (Normal resultData, h') =>
            (Normal (Completed (Generation.sql result) (Generation.interpretation result)
                               (JSON_stringify (contents h' resultData)) None
                               (finishTime - startTime)), h')
        | (Throw execError, h') =>
            (Normal (Completed (Generation.sql result) (Generation.interpretation result)
                               (JSON_stringify [])
                               (Some (String.append "Failed to execute query: "
                                                    (message execError)))
                               (finishTime - startTime)), h')
        end
  end.

(** One run of [processQueryAsync], from the generated statement to
    the stored record. *)
Definition processSubmission (queryId : string)
           (generated : completion Generation.SQLGenerationResult)
           (startTime finishTime now : Z) (this : MemStorage) : M MemStorage :=
  do p <- outcomeOf generated startTime finishTime now this;
  ret (processQueryAsync queryId p this).

End Processing.

(* ===================================================================== *)
(** ** Vocabulary of the further statements *)
(* ===================================================================== *)

(** The collection a statement is answered from: the first of the four
    names, in the order [selectTable] tries them, that the text
    contains. *)
Definition namedTable (this : MemStorage) (lowerSql : string) : option loc :=
  if includes lowerSql "sales_orders" then Some (salesOrders this)
  else if includes lowerSql "work_orders" then Some (workOrders this)
  else if includes lowerSql "invoices" then Some (invoices this)
  else if includes lowerSql "inventory_items" then Some (inventoryItems this)
  else None.

(** The WHERE clause holds none of the shapes the filter recognizes. *)
Definition noShape (whereClause : string) : Prop :=
  jsMatch whereClause STATUS_RE = None /\
  jsMatch whereClause PRIORITY_RE = None /\
  jsMatch whereClause REGION_RE = None /\
  jsMatch whereClause DUE_DATE_RE = None /\
  jsMatch whereClause SCHEDULED_DATE_RE = None /\
  jsMatch whereClause LOW_STOCK_RE = None /\
  jsMatch whereClause QUARTER_RE = None /\
  jsMatch whereClause DELAYED_OR_RE = None.



(* ===================================================================== *)
(** ** Data of the further examples *)
(* ===================================================================== *)

Definition salesOrder (orderId status region totalAmount : string) (orderDate : Z) : row :=
  [("orderId", VStr orderId); ("status", VStr status); ("region", VStr region);
   ("totalAmount", VStr totalAmount); ("orderDate", VDate (Some orderDate))].

Definition pendingSouth : row := salesOrder "SO-1" "pending" "South" "120.50" 100.
Definition completedNorth : row := salesOrder "SO-2" "completed" "North" "80.25" 200.
Definition pendingNorth : row := salesOrder "SO-3" "pending" "North" "19.75" 300.

(** A heap that holds three sales orders, the work orders of the
    delayed-orders example, three invoices and two items, at the
    addresses of [freshStorage]. *)
Definition exampleHeap : heap :=
  [[pendingSouth; completedNorth; pendingNorth];
   workOrderFixture;
   [invoice "INV-1" "pending" 10; invoice "INV-2" "paid" 20; invoice "INV-3" "pending" 9000];
   [scarceItem; ampleItem]].

(** The status that the schema writes with a hyphen. *)
Definition inProgressSql : string :=
  "SELECT * FROM work_orders WHERE status = 'in-progress'".

(** A comparison of amounts, which is none of the recognized shapes. *)
Definition amountSql : string :=
  "SELECT * FROM sales_orders WHERE total_amount > 10000".


(** A statement with the WHERE clause that the prompt of
    [openai-service.ts] prescribes for overdue invoices. *)
Definition overdueSql : string :=
  "SELECT * FROM invoices WHERE status = 'pending' AND due_date < GETDATE()".

(* ===================================================================== *)
(** ** Vocabulary of the sorted results *)
(* ===================================================================== *)

(** The order of sort keys: an integer key comes before a greater one,
    and every key before the absence of one. *)
Definition rankLt (a b : option Z) : bool :=
  match a, b with
  | Some x, Some y => (x <? y)%Z
  | Some _, None => true
  | None, _ => false
  end.

(** The time value of the valid date a row holds in [column]. *)
Definition timeAt (column : string) (r : row) : option Z :=
  match getProp r column with
  | VDate t => t
  | _ => None
  end.

(** The row holds the time value [t] in [column]. *)
Definition atTime (column : string) (t : Z) (r : row) : bool :=
  bool_decide (timeAt column r = Some t).

(** Of two rows that hold a valid date, the one that comes first is
    not the later one, or under [DESC] not the earlier one. *)
Definition inTimeOrder (direction column : string) (rows : list row) : Prop :=
  StronglySorted
    (fun first second =>
       forall t u, timeAt column first = Some t -> timeAt column second = Some u ->
                   if String.eqb direction "DESC" then (u <= t)%Z else (t <= u)%Z)
    rows.

(** The sort key of a row under the comparator of [applyOrderBy], for
    rows that hold a valid date or nothing. *)
Definition dateRank (direction column : string) (r : row) : option Z :=
  match timeAt column r with
  | Some t => Some (if String.eqb direction "DESC" then (- t)%Z else t)
  | None => None
  end.

(** A statement that sorts by a name no row has as a property. *)
Definition byUnknownColumnSql : string :=
  "SELECT * FROM sales_orders ORDER BY STATUS DESC".

Definition byOrderDateDescSql : string :=
  "SELECT * FROM sales_orders ORDER BY order_date DESC".

(* ===================================================================== *)
(** ** [shared/schema.ts]: the columns of the four tables *)
(* ===================================================================== *)

(** Each column of [salesOrders], [workOrders], [invoices] and
    [inventoryItems]: the property of the row type and the name of the
    SQL column. *)
Definition schemaColumns : list (string * string) :=
  [("orderId", "order_id"); ("orderNumber", "order_number");
   ("customerName", "customer_name"); ("orderDate", "order_date");
   ("totalAmount", "total_amount"); ("status", "status"); ("region", "region");
   ("salesRep", "sales_rep");
   ("workOrderId", "work_order_id"); ("workOrderNumber", "work_order_number");
   ("description", "description"); ("assignedTo", "assigned_to"); ("status", "status");
   ("priority", "priority"); ("scheduledDate", "scheduled_date");
   ("completionDate", "completion_date"); ("department", "department");
   ("invoiceId", "invoice_id"); ("invoiceNumber", "invoice_number");
   ("vendorName", "vendor_name"); ("invoiceDate", "invoice_date"); ("dueDate", "due_date");
   ("amount", "amount"); ("status", "status"); ("paymentTerms", "payment_terms");
   ("itemId", "item_id"); ("itemCode", "item_code"); ("itemName", "item_name");
   ("category", "category"); ("quantityOnHand", "quantity_on_hand");
   ("unitPrice", "unit_price"); ("reorderLevel", "reorder_level");
   ("warehouse", "warehouse")].

(* ===================================================================== *)
(** ** Vocabulary of the query store *)
(* ===================================================================== *)

(** [{ ...first, ...second }] on two updates: a property of the second
    wins. *)
Definition mergeUpdates (first second : Schema.PartialQuery) : Schema.PartialQuery :=
  let pick {A} (a b : option A) : option A := match b with Some _ => b | None => a end in
  {| Schema.setId := pick (Schema.setId first) (Schema.setId second);
     Schema.setUserQuestion :=
       pick (Schema.setUserQuestion first) (Schema.setUserQuestion second);
     Schema.setGeneratedSql :=
       pick (Schema.setGeneratedSql first) (Schema.setGeneratedSql second);
     Schema.setAiInterpretation :=
       pick (Schema.setAiInterpretation first) (Schema.setAiInterpretation second);
     Schema.setResultData := pick (Schema.setResultData first) (Schema.setResultData second);
     Schema.setStatus := pick (Schema.setStatus first) (Schema.setStatus second);
     Schema.setErrorMessage :=
       pick (Schema.setErrorMessage first) (Schema.setErrorMessage second);
     Schema.setExecutionTimeMs :=
       pick (Schema.setExecutionTimeMs first) (Schema.setExecutionTimeMs second);
     Schema.setCreatedAt := pick (Schema.setCreatedAt first) (Schema.setCreatedAt second) |}.

(** Every record is stored under its own identifier. *)
Definition wellKeyed (qs : gmap string Schema.Query) : Prop :=
  forall k q, qs !! k = Some q -> Schema.id q = k.

(** The identifiers and the clocks of the submissions of a run, in the
    order of the run. *)
Fixpoint submitted (es : list event) : list string :=
  match es with
  | [] => []
  | Submit id _ _ :: es' => id :: submitted es'
  | Finish _ _ :: es' => submitted es'
  end.

Fixpoint clocks (es : list event) : list Z :=
  match es with
  | [] => []
  | Submit _ now _ :: es' => now :: clocks es'
  | Finish _ _ :: es' => clocks es'
  end.

(** [order] lists the keys of the query map, each once. *)
Definition enumerates (order : list string) (this : MemStorage) : Prop :=
  NoDup order /\ forall k, In k order <-> is_Some (queries this !! k).

(** The record was created at [t]. *)
Definition createdAtTime (t : Z) (q : Schema.Query) : bool :=
  (Schema.createdAt q =? t)%Z.

(** The query map holds the submissions [ids] made at the clocks [ts]:
    each identifier once, each with a record of that identifier and
    creation time, and nothing else. *)
Definition recorded (ids : list string) (ts : list Z) (qs : gmap string Schema.Query) : Prop :=
  NoDup ids /\
  (forall k, In k ids <-> is_Some (qs !! k)) /\
  Forall2 (fun k t => exists q, qs !! k = Some q /\ Schema.id q = k /\ Schema.createdAt q = t)
          ids ts.

(** The sort key of a record in the history: newest first. *)
Definition historyRank (q : Schema.Query) : option Z := Some (- Schema.createdAt q)%Z.

(** Three submissions, the second and third within one millisecond, and
    the store after the first has been answered. *)
Definition threeSubmissions : list event :=
  [Submit "q-1" 100 question;
   Submit "q-2" 250 {| Schema.insertUserQuestion := "Show overdue invoices" |};
   Finish "q-1" (Completed "SELECT * FROM work_orders" "All work orders" "[]" None 40);
   Submit "q-3" 250 {| Schema.insertUserQuestion := "Which inventory items are running low?" |}].

(* ===================================================================== *)
(** ** Vocabulary of the metrics *)
(* ===================================================================== *)

(** The status of the row is the string [s]. *)
Definition hasStatus (s : string) (r : row) : bool := strictEqStr (getProp r "status") s.

(** A Number that is neither NaN nor below zero. *)
Definition nonNegative (n : number) : Prop :=
  match n with
  | Fin q => (0 <= q)%Q
  | Inf negative => negative = false
  | NaN => False
  end.

(* ===================================================================== *)
(** ** Vocabulary of the generated statements *)
(* ===================================================================== *)

(** The question, in lower case, names one of the four subjects the
    fallback generator knows. *)
Definition namesSubject (userQuestion : string) : bool :=
  let lowerQuestion := toLowerCase userQuestion in
  includes lowerQuestion "sales" || includes lowerQuestion "work" ||
  includes lowerQuestion "invoice" || includes lowerQuestion "inventory".

(** The statement the fallback generator gives for the example question
    of the template [overdue-invoices]. *)
Definition overdueFallbackSql : string :=
  Generation.sql (generateFallbackSQL "Show overdue invoices").

(** [a <= b] on two Numbers, neither of them NaN. *)
Definition numberLe (a b : number) : Prop :=
  isNaN a = false /\ isNaN b = false /\ ltb b a = false.

(** The text stored when the statement names no table. *)
Definition unknownTableFailure : string :=
  "Failed to execute query: No valid table found in query. Supported tables: sales_orders, work_orders, invoices, inventory_items".

(** A rendering of rows for the examples: their number, in unary. *)
Definition countingStringify (rows : list row) : string :=
  fold_right (fun _ s => String "*" s) "" rows.

(* ===================================================================== *)
(** ** Vocabulary of the stock *)
(* ===================================================================== *)



(* ===================================================================== *)
(** ** The matcher finds a match exactly when the pattern occurs *)
(* ===================================================================== *)

Module RegexFacts.

Lemma app_cons (c : ascii) (s t : string) : String c s +:+ t = String c (s +:+ t).
Proof. reflexivity. Qed.

Lemma app_nil_l (s : string) : "" +:+ s = s.
Proof. reflexivity. Qed.

Lemma app_nil_r (s : string) : s +:+ "" = s.
Proof. induction s as [|c s IH]; [reflexivity | now rewrite app_cons, IH]. Qed.

Lemma app_assoc (a b c : string) : (a +:+ b) +:+ c = a +:+ b +:+ c.
Proof. induction a as [|x a IH]; [reflexivity | now rewrite !app_cons, IH]. Qed.

Lemma length_app (a b : string) :
  String.length (a +:+ b) = String.length a + String.length b.
Proof. induction a as [|x a IH]; [reflexivity | rewrite app_cons; simpl; now rewrite IH]. Qed.

Lemma stripLit_split icase p s s' :
  stripLit icase p s = Some s' ->
  exists pre, s = pre +:+ s' /\ stripLit icase p pre = Some "".
Proof.
  revert s. induction p as [|a p IH]; intros s H; simpl in H.
  - injection H as <-. exists "". split; reflexivity.
  - destruct s as [|c s]; [discriminate|].
    destruct (charMatches icase a c) eqn:E; [|discriminate].
    destruct (IH _ H) as (pre & -> & Hp).
    exists (String c pre). split; [reflexivity|]. simpl. now rewrite E.
Qed.

Lemma stripLit_app icase p pre rest :
  stripLit icase p pre = Some "" -> stripLit icase p (pre +:+ rest) = Some rest.
Proof.
  revert pre. induction p as [|a p IH]; intros pre H; simpl in *.
  - injection H as ->. reflexivity.
  - destruct pre as [|c pre]; [discriminate|]. simpl.
    destruct (charMatches icase a c); [now apply IH | discriminate].
Qed.

Lemma orElse_Some {A} (x y : option A) r :
  orElse x y = Some r -> x = Some r \/ y = Some r.
Proof. destruct x; simpl; intros H; [left | right]; assumption. Qed.

Lemma orElse_is_Some {A} (x y : option A) :
  is_Some x \/ is_Some y -> is_Some (orElse x y).
Proof. destruct x; simpl; intros [H|H]; eauto; destruct H; discriminate. Qed.

Lemma star_sound {A} p greedy s (k : string -> option A) r :
  star p greedy s k = Some r ->
  exists pre rest, s = pre +:+ rest /\ allChars p pre = true /\ k rest = Some r.
Proof.
  induction s as [|c s IH]; simpl; intros H.
  - exists "", "". auto.
  - destruct (p c) eqn:Ec.
    + assert (star p greedy s k = Some r \/ k (String c s) = Some r) as [Hs|Hk].
      { destruct greedy; apply orElse_Some in H; tauto. }
      * destruct (IH Hs) as (pre & rest & -> & Hall & Hk).
        exists (String c pre), rest. simpl. rewrite Ec. auto.
      * exists "", (String c s). auto.
    + exists "", (String c s). auto.
Qed.

Lemma star_complete {A} p greedy pre rest (k : string -> option A) :
  allChars p pre = true -> is_Some (k rest) ->
  is_Some (star p greedy (pre +:+ rest) k).
Proof.
  induction pre as [|c pre IH]; simpl; intros Hall Hk.
  - destruct rest as [|d rest]; simpl; [assumption|].
    destruct (p d); [|assumption].
    destruct greedy; apply orElse_is_Some; auto.
  - apply andb_prop in Hall as [-> Hall].
    destruct greedy; apply orElse_is_Some; auto.
Qed.

Lemma matchAt_sound icase r : forall s caps k res,
  matchAt icase r s caps k = Some res ->
  exists pre rest caps',
    s = pre +:+ rest /\ denotes icase r pre rest /\ k rest caps' = Some res.
Proof.
  induction r as [p|c|c g|r1 IH1 r2 IH2|r1 IH1 r2 IH2|r1 IH1|i r1 IH1|];
    intros s caps k res H; simpl in H.
  - destruct (stripLit icase p s) as [s'|] eqn:E; [|discriminate].
    destruct (stripLit_split _ _ _ _ E) as (pre & -> & Hp).
    exists pre, s', caps. auto.
  - destruct s as [|a s]; [discriminate|].
    destruct (inClass c a) eqn:E; [|discriminate].
    exists (String a ""), s, caps. simpl. eauto.
  - destruct (star_sound _ _ _ _ _ H) as (pre & rest & -> & Hall & Hk).
    exists pre, rest, caps. auto.
  - destruct (IH1 _ _ _ _ H) as (p1 & rest1 & caps1 & -> & D1 & H2).
    destruct (IH2 _ _ _ _ H2) as (p2 & rest & caps2 & -> & D2 & Hk).
    exists (p1 +:+ p2), rest, caps2. rewrite app_assoc.
    split; [reflexivity|]. split; [|assumption]. simpl. eauto.
  - apply orElse_Some in H as [H|H].
    + destruct (IH1 _ _ _ _ H) as (pre & rest & caps' & -> & D & Hk).
      exists pre, rest, caps'. simpl. auto.
    + destruct (IH2 _ _ _ _ H) as (pre & rest & caps' & -> & D & Hk).
      exists pre, rest, caps'. simpl. auto.
  - apply orElse_Some in H as [H|H].
    + destruct (IH1 _ _ _ _ H) as (pre & rest & caps' & -> & D & Hk).
      exists pre, rest, caps'. simpl. auto.
    + exists "", s, caps. simpl. auto.
  - destruct (IH1 _ _ _ _ H) as (pre & rest & caps' & -> & D & Hk).
    exists pre, rest, (<[i := consumed (pre +:+ rest) rest]> caps'). auto.
  - destruct s; [|discriminate]. exists "", "", caps. simpl. auto.
Qed.

Lemma matchAt_complete icase r : forall pre rest caps k,
  denotes icase r pre rest ->
  (forall caps', is_Some (k rest caps')) ->
  is_Some (matchAt icase r (pre +:+ rest) caps k).
Proof.
  induction r as [p|c|c g|r1 IH1 r2 IH2|r1 IH1 r2 IH2|r1 IH1|i r1 IH1|];
    intros pre rest caps k D Hk; simpl in D |- *.
  - rewrite (stripLit_app _ _ _ _ D). apply Hk.
  - destruct D as (a & -> & E). simpl. rewrite E. apply Hk.
  - apply star_complete; auto.
  - destruct D as (p1 & p2 & -> & D1 & D2). rewrite app_assoc.
    apply IH1; [assumption|]. intros caps'. apply IH2; assumption.
  - apply orElse_is_Some. destruct D as [D|D]; [left | right]; auto.
  - apply orElse_is_Some. destruct D as [->|D]; [right | left]; auto.
  - apply IH1; [assumption|]. intros caps'. apply Hk.
  - destruct D as [-> ->]. simpl. apply Hk.
Qed.

Lemma exec_is_Some icase r s :
  is_Some (exec icase r s) <->
  exists before pre rest, s = before +:+ pre +:+ rest /\ denotes icase r pre rest.
Proof.
  split.
  - induction s as [|c s IH]; simpl.
    + destruct (matchHere icase r "") as [m|] eqn:E.
      * intros _. destruct (matchAt_sound _ _ _ _ _ _ E) as (pre & rest & _ & Hs & D & _).
        exists "", pre, rest. auto.
      * intros [x Hx]. discriminate.
    + destruct (matchHere icase r (String c s)) as [m|] eqn:E.
      * intros _. destruct (matchAt_sound _ _ _ _ _ _ E) as (pre & rest & _ & Hs & D & _).
        exists "", pre, rest. auto.
      * intros H. destruct (IH H) as (before & pre & rest & -> & D).
        exists (String c before), pre, rest. auto.
  - intros (before & pre & rest & -> & D).
    assert (Hhere : is_Some (matchHere icase r (pre +:+ rest))).
    { unfold matchHere. apply (matchAt_complete icase (Group 0 r)); [exact D|]. eauto. }
    induction before as [|c before IH]; simpl.
    + destruct Hhere as [m Hm].
      destruct (pre +:+ rest); simpl; rewrite Hm; eauto.
    + destruct (matchHere icase r (String c (before +:+ pre +:+ rest))); eauto.
Qed.

(** [s.match(re)] is not [null] exactly when [re] occurs in [s]. *)
Lemma jsMatch_is_Some s re : is_Some (jsMatch s re) <-> occursIn re s.
Proof. apply exec_is_Some. Qed.

Lemma jsMatch_None s re : jsMatch s re = None <-> ~ occursIn re s.
Proof.
  rewrite <- jsMatch_is_Some. destruct (jsMatch s re); split; intros H.
  - discriminate.
  - exfalso. apply H. eauto.
  - intros [x Hx]. discriminate.
  - reflexivity.
Qed.

End RegexFacts.

(* ===================================================================== *)
(** ** Captures of the LIMIT and TOP patterns *)
(* ===================================================================== *)

Module CaptureFacts.
Import RegexFacts.













End CaptureFacts.

(* ===================================================================== *)
(** ** The stages as array computations *)
(* ===================================================================== *)

Section StageFacts.
Context {rt : JsRuntime}.

Lemma contents_alloc (h : heap) (xs : list row) : contents (h ++ [xs]) (length h) = xs.
Proof. unfold contents. now rewrite list_lookup_middle. Qed.

Lemma contents_alloc_old (h : heap) (xs : list row) (l : loc) :
  l < length h -> contents (h ++ [xs]) l = contents h l.
Proof. intros Hl. unfold contents. now rewrite lookup_app_l. Qed.

Lemma contents_store (h : heap) (xs : list row) (l : loc) :
  l < length h -> contents (<[l := xs]> h) l = xs.
Proof. intros Hl. unfold contents. now rewrite list_lookup_insert_eq. Qed.

Lemma applyWhereConditions_eq data sql now h :
  applyWhereConditions data sql now h =
  match whereClauseOf sql with
  | None => (Normal data, h)
  | Some whereClause =>
      (Normal (length h), h ++ [List.filter (whereCallback whereClause now) (contents h data)])
  end.
Proof. unfold applyWhereConditions. destruct (whereClauseOf sql); reflexivity. Qed.

Lemma applyOrderBy_eq data sql h :
  applyOrderBy data sql h =
  match jsMatch sql ORDER_BY_RE with
  | None => (Normal data, h)
  | Some orderMatch =>
      (Normal data,
       <[data := sortList (orderComparator (columnOf orderMatch) (directionOf orderMatch))
                          (contents h data)]> h)
  end.
Proof. unfold applyOrderBy. destruct (jsMatch sql ORDER_BY_RE); reflexivity. Qed.

Lemma applyLimit_eq data sql h :
  applyLimit data sql h =
  match limitOf sql with
  | Some finish =>
      (Normal (length h),
       h ++ [take (match finish with Some n => N.to_nat n | None => 0 end) (contents h data)])
  | None => (Normal data, h)
  end.
Proof.
  unfold applyLimit, limitOf.
  destruct (jsMatch sql LIMIT_RE); [reflexivity|].
  destruct (jsMatch sql TOP_RE); reflexivity.
Qed.

End StageFacts.

(* ===================================================================== *)
(** ** The limit stage *)
(* ===================================================================== *)

Section LimitStage.
Context {rt : JsRuntime}.
Import RegexFacts CaptureFacts.





End LimitStage.

(* ===================================================================== *)
(** ** A LIMIT that is not followed by digits *)
(* ===================================================================== *)

Section MalformedLimit.
Context {rt : JsRuntime}.
Import RegexFacts CaptureFacts.

Lemma denotes_Plus icase c g p rest :
  denotes icase (Plus c g) p rest <-> p <> "" /\ allChars (inClass c) p = true.
Proof.
  unfold Plus. simpl. split.
  - intros (q1 & q2 & -> & (a & -> & Ha) & Hall). split; [discriminate|].
    simpl. now rewrite Ha.
  - intros [Hne Hall]. destruct p as [|a p]; [congruence|].
    simpl in Hall. apply andb_prop in Hall as [Ha Hall].
    exists (String a ""), p. eauto.
Qed.

Lemma limitClause_iff sql : occursIn LIMIT_RE sql <-> limitClauseIn sql.
Proof.
  unfold occursIn, limitClauseIn, LIMIT_RE. cbn [seqs]. split.
  - intros (before & pre & rest & -> & D).
    cbn [denotes] in D. destruct D as (kw & p2 & -> & Hkw & sp & ds & -> & Hsp & Hds).
    apply denotes_Plus in Hsp. apply denotes_Plus in Hds.
    destruct Hds as [Hne Hall]. destruct ds as [|d ds]; [congruence|].
    simpl in Hall. apply andb_prop in Hall as [Hd _].
    exists before, kw, sp, d, (ds +:+ rest).
    split; [|auto]. rewrite !app_assoc. reflexivity.
  - intros (before & kw & sp & d & rest & -> & Hkw & Hsp & Hd).
    exists before, (kw +:+ sp +:+ String d ""), rest. split.
    + rewrite !app_assoc. reflexivity.
    + cbn [denotes]. exists kw, (sp +:+ String d ""). split; [reflexivity|].
      split; [exact Hkw|]. exists sp, (String d ""). split; [reflexivity|].
      split; apply denotes_Plus; [exact Hsp|]. split; [discriminate|].
      simpl. now rewrite Hd.
Qed.

Lemma topClause_iff sql : occursIn TOP_RE sql <-> topClauseIn sql.
Proof.
  unfold occursIn, topClauseIn, TOP_RE. cbn [seqs]. split.
  - intros (before & pre & rest & -> & D).
    cbn [denotes] in D.
    destruct D as (kw1 & p2 & -> & Hkw1 & sp1 & p3 & -> & Hsp1 &
                   kw2 & p4 & -> & Hkw2 & sp2 & ds & -> & Hsp2 & Hds).
    apply denotes_Plus in Hsp1. apply denotes_Plus in Hsp2. apply denotes_Plus in Hds.
    destruct Hds as [Hne Hall]. destruct ds as [|d ds]; [congruence|].
    simpl in Hall. apply andb_prop in Hall as [Hd _].
    exists before, kw1, sp1, kw2, sp2, d, (ds +:+ rest).
    split; [|auto 6]. rewrite !app_assoc. reflexivity.
  - intros (before & kw1 & sp1 & kw2 & sp2 & d & rest & -> & Hkw1 & Hsp1 & Hkw2 & Hsp2 & Hd).
    exists before, (kw1 +:+ sp1 +:+ kw2 +:+ sp2 +:+ String d ""), rest. split.
    + rewrite !app_assoc. reflexivity.
    + cbn [denotes]. exists kw1, (sp1 +:+ kw2 +:+ sp2 +:+ String d "").
      split; [reflexivity|]. split; [exact Hkw1|].
      exists sp1, (kw2 +:+ sp2 +:+ String d ""). split; [reflexivity|].
      split; [apply denotes_Plus; exact Hsp1|].
      exists kw2, (sp2 +:+ String d ""). split; [reflexivity|].
      split; [exact Hkw2|]. exists sp2, (String d ""). split; [reflexivity|].
      split; apply denotes_Plus; [exact Hsp2|]. split; [discriminate|].
      simpl. now rewrite Hd.
Qed.

(** C10.  When no LIMIT in the statement is followed, after white
    space, by a decimal digit (as in [LIMIT abc]) and the statement has
    no SELECT TOP with digits, the limit stage completes normally with
    the array it was given, whose rows are unchanged: the malformed
    clause raises no error and empties nothing. *)
Theorem C10_malformed_limit_ignored (data : loc) (sql : string) (h : heap) :
  ~ limitClauseIn sql ->
  ~ topClauseIn sql ->
  applyLimit data sql h = (Normal data, h) /\
  resultRows (applyLimit data sql h) = Normal (contents h data).
Proof.
  intros HL HT.
  rewrite <- limitClause_iff in HL. rewrite <- topClause_iff in HT.
  apply jsMatch_None in HL. apply jsMatch_None in HT.
  assert (E : applyLimit data sql h = (Normal data, h)).
  { rewrite applyLimit_eq. unfold limitOf. now rewrite HL, HT. }
  split; [exact E|]. now rewrite E.
Qed.

End MalformedLimit.

Lemma C10_malformed_limit_ignored_witness :
  resultRows (applyLimit 0 "SELECT * FROM invoices LIMIT abc"
                [[invoice "INV-1" "pending" 10; invoice "INV-2" "paid" 20]]) =
  Normal [invoice "INV-1" "pending" 10; invoice "INV-2" "paid" 20].
Proof.
  refine (proj2 (C10_malformed_limit_ignored 0
            "SELECT * FROM invoices LIMIT abc"
            [[invoice "INV-1" "pending" 10; invoice "INV-2" "paid" 20]] _ _)).
  - rewrite <- limitClause_iff. apply RegexFacts.jsMatch_None. vm_compute. reflexivity.
  - rewrite <- topClause_iff. apply RegexFacts.jsMatch_None. vm_compute. reflexivity.
Defined.

(** C10, counterexample.  The tokens [0x10] and [2nd] are no sequences
    of decimal digits and the statements have no SELECT TOP, yet the
    limit stage does not return its input: the pattern takes the digits
    the token begins with, so [LIMIT 0x10] gives an empty result and
    [LIMIT 2nd] the first two rows. *)
Lemma C10_counterexample_leading_digits :
  let rows := [invoice "INV-1" "pending" 10; invoice "INV-2" "paid" 20;
               invoice "INV-3" "overdue" 30] in
  allChars isDigit "0x10" = false /\
  jsMatch hexLimitSql TOP_RE = None /\
  resultRows (applyLimit 0 hexLimitSql [rows]) = Normal [] /\
  allChars isDigit "2nd" = false /\
  jsMatch ordinalLimitSql TOP_RE = None /\
  resultRows (applyLimit 0 ordinalLimitSql [rows]) =
    Normal [invoice "INV-1" "pending" 10; invoice "INV-2" "paid" 20].
Proof. vm_compute. repeat split. Qed.


(* ===================================================================== *)
(** ** The pipeline as a whole *)
(* ===================================================================== *)

Section PipelineFacts.
Context {rt : JsRuntime}.

Lemma transforms_compose f g data h (stage2 : loc -> M loc) out1 :
  transforms f data h out1 ->
  (forall l1 h1, l1 < length h1 -> transforms g l1 h1 (stage2 l1 h1)) ->
  transforms (fun rows => g (f rows)) data h
    (match out1 with
     | (Normal l1, h1) => stage2 l1 h1
     | (Throw e, h1) => (Throw e, h1)
     end).
Proof.
  intros (l1 & h1 & -> & Hc1 & Hlen1 & Hfr1 & Hl1 & Hfresh1) H2.
  destruct (H2 l1 h1 Hl1) as (l2 & h2 & -> & Hc2 & Hlen2 & Hfr2 & Hl2 & Hfresh2).
  exists l2, h2. split; [reflexivity|]. split; [now rewrite Hc2, Hc1|].
  split; [lia|]. split; [|split; [assumption | lia]].
  intros l0 Hl0 Hne. rewrite Hfr2; [now apply Hfr1 | lia | lia].
Qed.

Lemma applyWhereConditions_transforms data sql now h :
  data < length h ->
  transforms (whereRows sql now) data h (applyWhereConditions data sql now h).
Proof.
  intros Hd. rewrite applyWhereConditions_eq. unfold whereRows, transforms.
  destruct (whereClauseOf sql) as [c|].
  - eexists _, _. split; [reflexivity|]. rewrite contents_alloc, length_app. simpl.
    split; [reflexivity|]. split; [lia|]. split; [|lia].
    intros l0 Hl0 _. now rewrite lookup_app_l.
  - exists data, h. auto 7.
Qed.

Lemma applyOrderBy_transforms data sql h :
  data < length h ->
  transforms (orderRows sql) data h (applyOrderBy data sql h).
Proof.
  intros Hd. rewrite applyOrderBy_eq. unfold orderRows, transforms.
  destruct (jsMatch sql ORDER_BY_RE) as [m|].
  - eexists _, _. split; [reflexivity|]. rewrite contents_store, length_insert by assumption.
    split; [reflexivity|]. split; [lia|]. split; [|auto].
    intros l0 Hl0 Hne. now rewrite list_lookup_insert_ne.
  - exists data, h. auto 7.
Qed.

Lemma applyLimit_transforms data sql h :
  data < length h ->
  transforms (limitRows sql) data h (applyLimit data sql h).
Proof.
  intros Hd. rewrite applyLimit_eq. unfold limitRows, transforms.
  destruct (limitOf sql) as [finish|].
  - eexists _, _. split; [reflexivity|]. rewrite contents_alloc, length_app. simpl.
    split; [destruct finish; reflexivity|]. split; [lia|]. split; [|lia].
    intros l0 Hl0 _. now rewrite lookup_app_l.
  - exists data, h. auto 7.
Qed.

(** The three stages never throw: the [catch] of [executeSqlQuery] is
    not entered. *)
Lemma runStages_transforms data sql now h :
  data < length h ->
  transforms (stagesRows sql now) data h (runStages data sql now h).
Proof.
  intros Hd. unfold runStages, bind, ret, stagesRows.
  pose proof (applyWhereConditions_transforms data sql now h Hd) as H1.
  pose proof (transforms_compose _ _ _ _ (fun l => applyOrderBy l sql) _ H1
                (fun l1 h1 Hl => applyOrderBy_transforms l1 sql h1 Hl)) as H2.
  pose proof (transforms_compose _ _ _ _ (fun l => applyLimit l sql) _ H2
                (fun l1 h1 Hl => applyLimit_transforms l1 sql h1 Hl)) as H3.
  destruct (applyWhereConditions data sql now h) as [[l1|e1] h1];
    [|destruct H1 as (? & ? & [=] & _)].
  destruct (applyOrderBy l1 sql h1) as [[l2|e2] h2];
    [|destruct H2 as (? & ? & [=] & _)].
  destruct (applyLimit l2 sql h2) as [[l3|e3] h3];
    [|destruct H3 as (? & ? & [=] & _)].
  exact H3.
Qed.

(** A statement run against the rows of one collection. *)
Lemma queryTable_spec (table : loc) (tableName sql : string) (now : Z) (h : heap) :
  exists l h',
    (do _ <- alloc [];
     do data <- Array_spread table;
     tryCatch (runStages data sql now)
              (fun error => throw (ExecutionError tableName error))) h = (Normal l, h') /\
    contents h' l = stagesRows sql now (contents h table) /\
    length h <= l /\
    (forall l0, l0 < length h -> h' !! l0 = h !! l0).
Proof.
  unfold Array_spread, tryCatch, bind, alloc, load. cbn beta iota.
  rewrite length_app. cbn [length].
  set (h1 := h ++ [[]]).
  set (h2 := h1 ++ [contents h1 table]).
  assert (Hlen1 : length h1 = length h + 1)
    by (subst h1; rewrite length_app; simpl; lia).
  rewrite <- Hlen1.
  assert (Hd : length h1 < length h2)
    by (subst h2; rewrite length_app; simpl; lia).
  destruct (runStages_transforms (length h1) sql now h2 Hd)
    as (l & h' & -> & Hc & Hlen & Hfr & Hl & Hfresh).
  exists l, h'. split; [reflexivity|].
  assert (Hlen2 : length h2 = S (length h1))
    by (subst h2; rewrite length_app; simpl; lia).
  split; [|split].
  - rewrite Hc. f_equal. subst h2. rewrite contents_alloc. subst h1.
    unfold contents. destruct (decide (table < length h)) as [Hlt|Hge].
    + now rewrite lookup_app_l.
    + rewrite (lookup_ge_None_2 h table) by lia.
      destruct (decide (table = length h)) as [->|Hne].
      * now rewrite list_lookup_middle.
      * rewrite lookup_ge_None_2; [reflexivity|]. rewrite length_app. simpl. lia.
  - lia.
  - intros l0 Hl0. rewrite Hfr by lia.
    subst h2 h1. rewrite !lookup_app_l; [reflexivity | lia | rewrite length_app; simpl; lia].
Qed.

End PipelineFacts.

Section Orchestrator.
Context {rt : JsRuntime}.

Lemma executeSqlQuery_unsupported this sql now h :
  startsWith (lowered sql) "select" = false ->
  executeSqlQuery this sql now h = (Throw UnsupportedStatement, h).
Proof. intros H. unfold executeSqlQuery. fold (lowered sql). now rewrite H. Qed.

Lemma executeSqlQuery_unknown this sql now h :
  startsWith (lowered sql) "select" = true ->
  selectTable this (lowered sql) = throw UnknownTable ->
  executeSqlQuery this sql now h = (Throw UnknownTable, h ++ [[]]).
Proof.
  intros H Hsel. unfold executeSqlQuery. fold (lowered sql). rewrite H, Hsel.
  reflexivity.
Qed.

Lemma executeSqlQuery_on this sql now h (table : loc) (tableName : string) :
  startsWith (lowered sql) "select" = true ->
  selectTable this (lowered sql) =
    (do data <- Array_spread table; ret (data, tableName)) ->
  answersFrom (contents h table) sql now h (executeSqlQuery this sql now h).
Proof.
  intros H Hsel. unfold executeSqlQuery. fold (lowered sql). rewrite H, Hsel.
  exact (queryTable_spec table tableName sql now h).
Qed.

(** The table is picked in the order sales_orders, work_orders,
    invoices, inventory_items. *)
Lemma selectTable_cases this lowerSql :
  (includes lowerSql "sales_orders" = true /\
   selectTable this lowerSql =
     (do data <- Array_spread (salesOrders this); ret (data, "sales_orders"))) \/
  (includes lowerSql "sales_orders" = false /\
   includes lowerSql "work_orders" = true /\
   selectTable this lowerSql =
     (do data <- Array_spread (workOrders this); ret (data, "work_orders"))) \/
  (includes lowerSql "sales_orders" = false /\
   includes lowerSql "work_orders" = false /\
   includes lowerSql "invoices" = true /\
   selectTable this lowerSql =
     (do data <- Array_spread (invoices this); ret (data, "invoices"))) \/
  (includes lowerSql "sales_orders" = false /\
   includes lowerSql "work_orders" = false /\
   includes lowerSql "invoices" = false /\
   includes lowerSql "inventory_items" = true /\
   selectTable this lowerSql =
     (do data <- Array_spread (inventoryItems this); ret (data, "inventory_items"))) \/
  (includes lowerSql "sales_orders" = false /\
   includes lowerSql "work_orders" = false /\
   includes lowerSql "invoices" = false /\
   includes lowerSql "inventory_items" = false /\
   selectTable this lowerSql = throw UnknownTable).
Proof.
  unfold selectTable.
  destruct (includes lowerSql "sales_orders"); [left; auto|].
  destruct (includes lowerSql "work_orders"); [right; left; auto|].
  destruct (includes lowerSql "invoices"); [right; right; left; auto|].
  destruct (includes lowerSql "inventory_items");
    [right; right; right; left; repeat split | do 4 right; repeat split].
Qed.

Lemma answersFrom_Normal rows sql now h out :
  answersFrom rows sql now h out ->
  resultRows out = Normal (stagesRows sql now rows).
Proof. intros (l & h' & -> & Hc & _). simpl. now rewrite Hc. Qed.

Lemma answersFrom_not_Throw rows sql now h out e :
  answersFrom rows sql now h out -> fst out <> Throw e.
Proof. intros (l & h' & -> & _). discriminate. Qed.

(** C6.  [executeSqlQuery] fails with the error for an unsupported
    statement exactly when the input, lower-cased and trimmed, does
    not start with [select]; so it does on [not a select]. *)
Theorem C6_unsupported_statement_iff :
  (forall (this : MemStorage) (sql : string) (now : Z) (h : heap),
     fst (executeSqlQuery this sql now h) = Throw UnsupportedStatement <->
     startsWith (trim (toLowerCase sql)) "select" = false) /\
  (forall (this : MemStorage) (now : Z) (h : heap),
     fst (executeSqlQuery this "not a select" now h) = Throw UnsupportedStatement).
Proof.
  assert (Hiff : forall this sql now h,
             fst (executeSqlQuery this sql now h) = Throw UnsupportedStatement <->
             startsWith (trim (toLowerCase sql)) "select" = false).
  { intros this sql now h. fold (lowered sql). split.
    - destruct (startsWith (lowered sql) "select") eqn:Hs; [|reflexivity].
      intros Hthrow. exfalso.
      destruct (selectTable_cases this (lowered sql))
        as [(_ & Hsel)|[(_ & _ & Hsel)|[(_ & _ & _ & Hsel)|
           [(_ & _ & _ & _ & Hsel)|(_ & _ & _ & _ & Hsel)]]]].
      1-4: eapply answersFrom_not_Throw;
           [eapply (executeSqlQuery_on this sql now h); eassumption | exact Hthrow].
      rewrite (executeSqlQuery_unknown _ _ _ _ Hs Hsel) in Hthrow. discriminate.
    - intros Hs. now rewrite executeSqlQuery_unsupported. }
  split; [exact Hiff|]. intros this now h. apply Hiff. reflexivity.
Qed.

(** C7.  For a statement that starts with [select] once lower-cased
    and trimmed, [executeSqlQuery] fails with the error for an unknown
    table exactly when that text contains none of [sales_orders],
    [work_orders], [invoices], [inventory_items]; otherwise it answers
    from the first of the four, in this order, that the text contains. *)
Theorem C7_unknown_table_iff_and_priority
        (this : MemStorage) (sql : string) (now : Z) (h : heap) :
  startsWith (trim (toLowerCase sql)) "select" = true ->
  let lowerSql := trim (toLowerCase sql) in
  let out := executeSqlQuery this sql now h in
  (fst out = Throw UnknownTable <->
     includes lowerSql "sales_orders" = false /\
     includes lowerSql "work_orders" = false /\
     includes lowerSql "invoices" = false /\
     includes lowerSql "inventory_items" = false) /\
  (includes lowerSql "sales_orders" = true ->
     answersFrom (contents h (salesOrders this)) sql now h out) /\
  (includes lowerSql "sales_orders" = false ->
   includes lowerSql "work_orders" = true ->
     answersFrom (contents h (workOrders this)) sql now h out) /\
  (includes lowerSql "sales_orders" = false ->
   includes lowerSql "work_orders" = false ->
   includes lowerSql "invoices" = true ->
     answersFrom (contents h (invoices this)) sql now h out) /\
  (includes lowerSql "sales_orders" = false ->
   includes lowerSql "work_orders" = false ->
   includes lowerSql "invoices" = false ->
   includes lowerSql "inventory_items" = true ->
     answersFrom (contents h (inventoryItems this)) sql now h out).
Proof.
  intros Hs lowerSql out. subst lowerSql out. fold (lowered sql) in *.
  destruct (selectTable_cases this (lowered sql))
    as [(H1 & Hsel)|[(H1 & H2 & Hsel)|[(H1 & H2 & H3 & Hsel)|
       [(H1 & H2 & H3 & H4 & Hsel)|(H1 & H2 & H3 & H4 & Hsel)]]]];
    rewrite ?H1, ?H2, ?H3, ?H4.
  1-4: pose proof (executeSqlQuery_on this sql now h _ _ Hs Hsel) as Hans;
       (split; [split; [intros Hthrow; exfalso;
                        exact (answersFrom_not_Throw _ _ _ _ _ _ Hans Hthrow)
                       | intros (? & ? & ? & ?); discriminate]
               | repeat split; intros; try discriminate; exact Hans]).
  rewrite (executeSqlQuery_unknown _ _ _ _ Hs Hsel).
  split; [split; auto|]. repeat split; intros; discriminate.
Qed.

(** C8.  Whatever the statement and however the call ends, the four
    stored collections hold the same rows in the same order after
    [executeSqlQuery] as before: no array that existed before the call
    is written, and a result is an array allocated during the call. *)
Theorem C8_store_not_mutated (this : MemStorage) (sql : string) (now : Z) (h : heap) :
  allocated this h ->
  let out := executeSqlQuery this sql now h in
  contents (snd out) (salesOrders this) = contents h (salesOrders this) /\
  contents (snd out) (workOrders this) = contents h (workOrders this) /\
  contents (snd out) (invoices this) = contents h (invoices this) /\
  contents (snd out) (inventoryItems this) = contents h (inventoryItems this) /\
  (forall l0, l0 < length h -> snd out !! l0 = h !! l0) /\
  (forall l, fst out = Normal l -> length h <= l).
Proof.
  intros (Hs & Hw & Hi & Ht) out.
  assert (Hframe : (forall l0, l0 < length h -> snd out !! l0 = h !! l0) /\
                   (forall l, fst out = Normal l -> length h <= l)).
  { subst out. destruct (startsWith (lowered sql) "select") eqn:Hsel.
    - destruct (selectTable_cases this (lowered sql))
        as [(_ & Hc)|[(_ & _ & Hc)|[(_ & _ & _ & Hc)|
           [(_ & _ & _ & _ & Hc)|(_ & _ & _ & _ & Hc)]]]].
      1-4: destruct (executeSqlQuery_on this sql now h _ _ Hsel Hc)
             as (l & h' & -> & _ & Hl & Hfr);
           (split; [exact Hfr | intros l' [= <-]; exact Hl]).
      rewrite (executeSqlQuery_unknown _ _ _ _ Hsel Hc). simpl. split.
      + intros l0 Hl0. now rewrite lookup_app_l.
      + discriminate.
    - rewrite (executeSqlQuery_unsupported _ _ _ _ Hsel). simpl.
      split; [reflexivity | discriminate]. }
  destruct Hframe as [Hfr Hfresh].
  unfold contents. rewrite !Hfr by assumption.
  repeat split; [exact Hfr | exact Hfresh].
Qed.

End Orchestrator.

(* ===================================================================== *)
(** ** The insertion sort *)
(* ===================================================================== *)

Module SortFacts.

Section Generic.
Context {A : Type} (cmp : A -> A -> number).

Lemma insertSorted_perm x l : Permutation (insertSorted cmp x l) (x :: l).
Proof.
  induction l as [|y l IH]; simpl; [reflexivity|].
  destruct (negative (cmp x y)); [|reflexivity].
  rewrite IH. apply perm_swap.
Qed.

Lemma fold_insert_perm xs : forall acc,
  Permutation (fold_left (fun acc x => insertSorted cmp x acc) xs acc) (xs ++ acc).
Proof.
  induction xs as [|x xs IH]; intros acc; simpl; [reflexivity|].
  rewrite IH, insertSorted_perm. symmetry. apply Permutation_middle.
Qed.

Lemma sortList_perm xs : Permutation (sortList cmp xs) xs.
Proof.
  unfold sortList. rewrite <- Permutation_rev, fold_insert_perm.
  now rewrite app_nil_r.
Qed.

Lemma sortList_In xs x : In x (sortList cmp xs) <-> In x xs.
Proof.
  split; apply Permutation_in; [|symmetry]; apply sortList_perm.
Qed.

(** An invariant of the sorted prefix that every insertion of an
    element of [xs] keeps holds of the result. *)
Lemma fold_insert_invariant (Inv : list A -> Prop) xs :
  (forall x acc, In x xs -> Inv acc -> Inv (insertSorted cmp x acc)) ->
  forall acc, Inv acc ->
  Inv (fold_left (fun acc x => insertSorted cmp x acc) xs acc).
Proof.
  induction xs as [|x xs IH]; intros Hstep acc Hacc; simpl; [assumption|].
  apply IH.
  - intros y acc' Hy. apply Hstep. now right.
  - apply Hstep; [now left | assumption].
Qed.

End Generic.

Lemma StronglySorted_app {A} (R : A -> A -> Prop) l1 l2 :
  StronglySorted R l1 -> StronglySorted R l2 ->
  (forall a b, In a l1 -> In b l2 -> R a b) ->
  StronglySorted R (l1 ++ l2).
Proof.
  induction l1 as [|x l1 IH]; simpl; intros H1 H2 H12; [assumption|].
  apply StronglySorted_inv in H1 as [H1 Hx].
  constructor.
  - apply IH; [assumption | assumption |]. intros a b Ha Hb. apply H12; auto.
  - apply Forall_app. split; [assumption|].
    apply List.Forall_forall. intros b Hb. apply H12; auto.
Qed.

Lemma StronglySorted_rev {A} (R : A -> A -> Prop) l :
  StronglySorted R l -> StronglySorted (fun a b => R b a) (rev l).
Proof.
  induction 1 as [|x l Hs IH Hx]; simpl; [constructor|].
  apply StronglySorted_app; [assumption | repeat constructor |].
  intros a b Ha [<-|[]]. apply in_rev in Ha.
  rewrite List.Forall_forall in Hx. now apply Hx.
Qed.

Lemma StronglySorted_app_l {A} (R : A -> A -> Prop) l1 l2 :
  StronglySorted R (l1 ++ l2) -> StronglySorted R l1.
Proof.
  induction l1 as [|x l1 IH]; simpl; intros H; [constructor|].
  apply StronglySorted_inv in H as [H Hx]. constructor; [auto|].
  apply Forall_app in Hx. tauto.
Qed.

(** Insertion by a strict weak order keeps the prefix sorted. *)
Section ByOrder.
Context {A : Type} (before : A -> A -> bool) (P : A -> Prop).
Hypothesis asym : forall x y, P x -> P y -> before x y = true -> before y x = false.
Hypothesis negtrans : forall x y z, P x -> P y -> P z ->
  before x z = true -> before x y = true \/ before y z = true.

Abbreviation later := (fun u v : A => before u v = false).

Lemma insertBy_sorted x l :
  P x -> Forall P l -> StronglySorted later l ->
  StronglySorted later (insertBy before x l) /\ Forall P (insertBy before x l).
Proof.
  intros Px. induction l as [|y l IH]; intros HP Hs; simpl.
  - split; repeat constructor; assumption.
  - apply Forall_cons_iff in HP as [Py HP].
    apply StronglySorted_inv in Hs as [Hs Hy].
    destruct (before x y) eqn:E.
    + destruct (IH HP Hs) as [IHs IHP]. split; [|constructor; assumption].
      constructor; [assumption|].
      clear IHs IHP IH. induction l as [|z l IHl]; simpl.
      * constructor; [|constructor]. cbv beta. now apply asym.
      * apply Forall_cons_iff in Hy as [Hyz Hy].
        apply Forall_cons_iff in HP as [Pz HP].
        apply StronglySorted_inv in Hs as [Hs _].
        destruct (before x z).
        -- constructor; [assumption | now apply IHl].
        -- constructor; [cbv beta; now apply asym|].
           constructor; assumption.
    + split; [|repeat constructor; assumption].
      constructor; [constructor; assumption|].
      constructor; [exact E|].
      rewrite List.Forall_forall in Hy, HP |- *. intros z Hz.
      cbv beta. destruct (before x z) eqn:Exz; [|reflexivity].
      destruct (negtrans x y z Px Py (HP z Hz) Exz) as [H|H].
      * congruence.
      * specialize (Hy z Hz). cbv beta in Hy. congruence.
Qed.

End ByOrder.

End SortFacts.

(* ===================================================================== *)
(** ** The order of Numbers *)
(* ===================================================================== *)

Module NumberFacts.

Lemma Qltb_spec (x y : Q) : reflect (x < y)%Q (Qltb x y).
Proof.
  unfold Qltb. destruct (x ?= y)%Q eqn:E.
  - constructor. apply Qeq_alt in E. lra.
  - constructor. now apply Qlt_alt.
  - constructor. apply Qgt_alt in E. lra.
Qed.

Lemma negative_Fin (q : Q) : negative (Fin q) = Qltb q 0.
Proof. reflexivity. Qed.

(** The sign of a difference decides the comparison. *)
Lemma negative_sub (a b : number) :
  isNaN a = false -> isNaN b = false -> negative (sub b a) = ltb b a.
Proof.
  destruct a as [|s|x], b as [|t|y]; try discriminate; intros _ _; simpl.
  - destruct s, t; reflexivity.
  - reflexivity.
  - reflexivity.
  - unfold negative. simpl.
    destruct (Qltb_spec (y - x) 0), (Qltb_spec y x); try reflexivity; lra.
Qed.

Lemma ltb_asym (a b : number) : ltb a b = true -> ltb b a = false.
Proof.
  destruct a as [|s|x], b as [|t|y]; simpl; try discriminate; try reflexivity.
  - destruct s, t; simpl; try discriminate; reflexivity.
  - now intros ->.
  - destruct t; simpl; [discriminate | reflexivity].
  - destruct (Qltb_spec x y), (Qltb_spec y x); try discriminate; try reflexivity; lra.
Qed.

Lemma ltb_negtrans (a b c : number) :
  isNaN b = false -> ltb a c = true -> ltb a b = true \/ ltb b c = true.
Proof.
  destruct a as [|s|x], b as [|t|y], c as [|u|z]; simpl;
    try discriminate; intros _ H.
  - destruct s, t, u; simpl in *; auto.
  - destruct s, t; simpl in *; auto.
  - destruct s, u; simpl in *; auto; discriminate.
  - destruct s; auto.
  - destruct t, u; simpl in *; auto.
  - destruct t; simpl; auto.
  - destruct u; simpl in *; auto.
  - destruct (Qltb_spec x z), (Qltb_spec x y), (Qltb_spec y z); auto; try discriminate.
    lra.
Qed.

End NumberFacts.

(* ===================================================================== *)
(** ** The sort stage *)
(* ===================================================================== *)

Section SortStage.
Context {rt : JsRuntime}.
Import SortFacts NumberFacts.

Lemma comparator_null_l column direction a b :
  nullAt column a = true -> orderComparator column direction a b = Fin 1.
Proof. unfold nullAt, orderComparator. now intros ->. Qed.

Lemma comparator_null_r column direction a b :
  nullAt column a = false -> nullAt column b = true ->
  orderComparator column direction a b = Fin (-1).
Proof. unfold nullAt, orderComparator. now intros -> ->. Qed.

Lemma plainNumeric_facts v :
  plainNumeric v = true ->
  isNullish v = false /\ comparesAsDate v = false /\ comparesAsNumber v = true /\
  isNaN (parseFloat v) = false.
Proof.
  destruct v as [| |s|n|t]; simpl; try discriminate.
  - intros H. apply andb_prop in H as [H1 H2].
    rewrite H1. apply negb_true_iff in H2. rewrite H2. auto.
  - intros H. apply negb_true_iff in H. auto.
Qed.

Lemma comparator_numeric_desc column a b :
  plainNumeric (getProp a column) = true ->
  plainNumeric (getProp b column) = true ->
  negative (orderComparator column "DESC" a b) =
  ltb (numericValue column b) (numericValue column a).
Proof.
  intros Ha Hb.
  destruct (plainNumeric_facts _ Ha) as (Na & Da & Ca & Fa).
  destruct (plainNumeric_facts _ Hb) as (Nb & _ & _ & Fb).
  unfold orderComparator, numericValue. rewrite Na, Nb, Da, Ca. simpl.
  now apply negative_sub.
Qed.

Lemma insertSorted_insertBy {A} (cmp : A -> A -> number) x l :
  insertSorted cmp x l = insertBy (fun x y => negative (cmp x y)) x l.
Proof. induction l as [|y l IH]; simpl; [reflexivity | now rewrite IH]. Qed.

(** A row with a sort value passes every row without one. *)
Lemma insertSorted_past_nulls column direction x nulls others :
  nullAt column x = false ->
  Forall (fun r => nullAt column r = true) nulls ->
  insertSorted (orderComparator column direction) x (nulls ++ others) =
  nulls ++ insertSorted (orderComparator column direction) x others.
Proof.
  intros Hx. induction 1 as [|y nulls Hy _ IH]; simpl; [reflexivity|].
  rewrite (comparator_null_r _ _ _ _ Hx Hy). change (negative (Fin (-1))) with true.
  cbn iota. now rewrite IH.
Qed.

Lemma insertSorted_nullsFirst column direction x acc :
  nullsLast column (rev acc) ->
  nullsLast column (rev (insertSorted (orderComparator column direction) x acc)).
Proof.
  intros (front & back & Hrev & Hfront & Hback).
  assert (Hacc : acc = rev back ++ rev front).
  { rewrite <- rev_app_distr, <- Hrev. now rewrite rev_involutive. }
  subst acc. clear Hrev.
  assert (Hnulls : Forall (fun r => nullAt column r = true) (rev back))
    by (apply Forall_rev; assumption).
  destruct (nullAt column x) eqn:Hx.
  - exists front, (back ++ [x]). split; [|split].
    + destruct (rev back ++ rev front) as [|y l] eqn:E.
      * apply app_eq_nil in E as [E1 E2].
        apply (f_equal (@rev _)) in E1, E2. rewrite rev_involutive in E1, E2.
        simpl in E1, E2. now subst.
      * cbn [insertSorted]. rewrite (comparator_null_l _ _ _ _ Hx).
        change (negative (Fin 1)) with false. cbn iota. rewrite <- E.
        change (rev (x :: (rev back ++ rev front)))
          with (rev (rev back ++ rev front) ++ [x]).
        rewrite rev_app_distr, !rev_involutive.
        now rewrite <- List.app_assoc.
    + assumption.
    + apply Forall_app. split; [assumption | repeat constructor; assumption].
  - rewrite (insertSorted_past_nulls _ _ _ _ _ Hx Hnulls).
    exists (rev (insertSorted (orderComparator column direction) x (rev front))), back.
    split; [|split].
    + now rewrite rev_app_distr, rev_involutive.
    + apply Forall_rev.
      eapply Permutation_Forall; [symmetry; apply insertSorted_perm|].
      constructor; [assumption | apply Forall_rev; assumption].
    + assumption.
Qed.

Lemma sortList_nullsLast column direction rows :
  nullsLast column (sortList (orderComparator column direction) rows).
Proof.
  unfold sortList.
  apply (fold_insert_invariant _ (fun acc => nullsLast column (rev acc))).
  - intros x acc _. apply insertSorted_nullsFirst.
  - exists [], []. simpl. auto.
Qed.

End SortStage.

Section SortedByNumber.
Context {rt : JsRuntime}.
Import SortFacts NumberFacts.

Variable column : string.

Lemma plainNumeric_not_null r :
  plainNumeric (getProp r column) = true -> nullAt column r = false.
Proof. intros H. unfold nullAt. now destruct (plainNumeric_facts _ H). Qed.

Lemma before_cases x y :
  sortable column x -> sortable column y ->
  (nullAt column x = true /\ beforeDesc column x y = false) \/
  (nullAt column x = false /\ nullAt column y = true /\ beforeDesc column x y = true) \/
  (plainNumeric (getProp x column) = true /\ plainNumeric (getProp y column) = true /\
   beforeDesc column x y = ltb (numericValue column y) (numericValue column x)).
Proof.
  intros [Hx|Hx] Hy.
  - left. split; [assumption|]. unfold beforeDesc. now rewrite comparator_null_l.
  - pose proof (plainNumeric_not_null _ Hx) as Nx.
    destruct Hy as [Hy|Hy].
    + right; left. repeat split; try assumption.
      unfold beforeDesc. now rewrite comparator_null_r.
    + right; right. repeat split; try assumption.
      now apply comparator_numeric_desc.
Qed.

Lemma before_asym x y :
  sortable column x -> sortable column y -> beforeDesc column x y = true -> beforeDesc column y x = false.
Proof.
  intros Px Py H.
  destruct (before_cases x y Px Py) as [(_ & E)|[(Nx & Ny & _)|(Hx & Hy & E)]].
  - congruence.
  - destruct (before_cases y x Py Px) as [(_ & E')|[(Ny' & _)|(Hy' & _)]];
      [assumption | congruence |].
    apply plainNumeric_not_null in Hy'. congruence.
  - destruct (before_cases y x Py Px) as [(Ny' & _)|[(_ & Nx' & _)|(_ & _ & E')]].
    + apply plainNumeric_not_null in Hy. congruence.
    + apply plainNumeric_not_null in Hx. congruence.
    + rewrite E'. apply ltb_asym. congruence.
Qed.

Lemma before_negtrans x y z :
  sortable column x -> sortable column y -> sortable column z ->
  beforeDesc column x z = true -> beforeDesc column x y = true \/ beforeDesc column y z = true.
Proof.
  intros Px Py Pz H.
  destruct (before_cases x y Px Py) as [(Nx & _)|[(_ & _ & E)|(Hx & Hy & Exy)]].
  - destruct (before_cases x z Px Pz) as [(_ & E')|[(Nx' & _)|(Hx' & _)]];
      [congruence | congruence |].
    apply plainNumeric_not_null in Hx'. congruence.
  - now left.
  - destruct (before_cases y z Py Pz) as [(Ny & _)|[(_ & _ & E)|(_ & Hz & Eyz)]].
    + apply plainNumeric_not_null in Hy. congruence.
    + now right.
    + destruct (before_cases x z Px Pz) as [(Nx & _)|[(_ & Nz & _)|(_ & _ & Exz)]].
      * apply plainNumeric_not_null in Hx. congruence.
      * apply plainNumeric_not_null in Hz. congruence.
      * rewrite Exy, Eyz. rewrite Exz in H.
        destruct (plainNumeric_facts _ Hy) as (_ & _ & _ & Fy).
        destruct (ltb_negtrans _ (numericValue column y) _ Fy H); auto.
Qed.

Lemma sortList_desc_sorted rows :
  Forall (sortable column) rows ->
  StronglySorted (fun earlier later => beforeDesc column later earlier = false)
                 (sortList (orderComparator column "DESC") rows).
Proof.
  intros HP. unfold sortList.
  apply (StronglySorted_rev (fun u v => beforeDesc column u v = false)).
  refine (proj1 (fold_insert_invariant _
            (fun acc => StronglySorted (fun u v => beforeDesc column u v = false) acc /\
                        Forall (sortable column) acc) rows _ [] _)).
  - intros x acc Hx [Hs Hacc]. rewrite insertSorted_insertBy.
    apply (insertBy_sorted (beforeDesc column) (sortable column) before_asym before_negtrans);
      [|assumption|assumption].
    rewrite List.Forall_forall in HP. now apply HP.
  - split; constructor.
Qed.

Lemma StronglySorted_weaken {A} (R1 R2 : A -> A -> Prop) l :
  (forall a b, In a l -> In b l -> R1 a b -> R2 a b) ->
  StronglySorted R1 l -> StronglySorted R2 l.
Proof.
  induction l as [|x l IH]; intros Himp Hs; [constructor|].
  apply StronglySorted_inv in Hs as [Hs Hx]. constructor.
  - apply IH; [|assumption]. intros a b Ha Hb. apply Himp; now right.
  - rewrite List.Forall_forall in Hx |- *. intros b Hb.
    apply Himp; [now left | now right | now apply Hx].
Qed.

(** Under DESC the rows that have a sort value come out in
    non-increasing numeric order, when those values are plain numbers. *)
Lemma sortList_desc_nonIncreasing rows front back :
  (forall r, In r rows -> nullAt column r = false ->
             plainNumeric (getProp r column) = true) ->
  sortList (orderComparator column "DESC") rows = front ++ back ->
  Forall (fun r => nullAt column r = false) front ->
  nonIncreasing column front.
Proof.
  intros Hplain Hsplit Hfront.
  assert (HP : Forall (sortable column) rows).
  { apply List.Forall_forall. intros r Hr. unfold sortable.
    destruct (nullAt column r) eqn:E; [now left | right; now apply Hplain]. }
  pose proof (sortList_desc_sorted rows HP) as Hs. rewrite Hsplit in Hs.
  apply StronglySorted_app_l in Hs. unfold nonIncreasing.
  refine (StronglySorted_weaken _ _ _ _ Hs).
  intros a b Ha Hb Hab. unfold numLe.
  assert (Hin : forall r, In r front -> plainNumeric (getProp r column) = true).
  { intros r Hr. apply Hplain.
    - apply (sortList_In (orderComparator column "DESC")). rewrite Hsplit.
      apply in_or_app. now left.
    - rewrite List.Forall_forall in Hfront. now apply Hfront. }
  unfold beforeDesc in Hab.
  rewrite (comparator_numeric_desc column b a (Hin b Hb) (Hin a Ha)) in Hab.
  exact Hab.
Qed.

End SortedByNumber.

Section SortStageClaim.
Context {rt : JsRuntime}.
Import SortFacts.

(** C4.  For a statement with an ORDER BY clause the sort
    stage rearranges the rows of its array in place; every row whose
    sort value is [null] or [undefined] comes after every row that has
    one, whatever the direction.  Under DESC, if each sort value that
    is present is a Number other than NaN or a text that [Date.parse]
    rejects and [parseFloat] reads, the rows that have a value are in
    non-increasing order of [parseFloat] of it. *)
Theorem C4_nulls_last_numeric_desc
        (data : loc) (sql : string) (orderMatch : captures) (h : heap) :
  data < length h ->
  jsMatch sql ORDER_BY_RE = Some orderMatch ->
  let column := columnOf orderMatch in
  let rows := contents h data in
  exists front back,
    applyOrderBy data sql h = (Normal data, <[data := front ++ back]> h) /\
    resultRows (applyOrderBy data sql h) = Normal (front ++ back) /\
    Permutation (front ++ back) rows /\
    Forall (fun r => nullAt column r = false) front /\
    Forall (fun r => nullAt column r = true) back /\
    (directionOf orderMatch = "DESC" ->
     (forall r, In r rows -> nullAt column r = false ->
                plainNumeric (getProp r column) = true) ->
     nonIncreasing column front).
Proof.
  intros Hd Hm column rows.
  destruct (sortList_nullsLast column (directionOf orderMatch) rows)
    as (front & back & Hsplit & Hfront & Hback).
  exists front, back.
  assert (E : applyOrderBy data sql h = (Normal data, <[data := front ++ back]> h)).
  { rewrite applyOrderBy_eq, Hm. fold column rows. now rewrite Hsplit. }
  split; [exact E|]. split.
  { rewrite E. simpl. now rewrite contents_store. }
  split; [rewrite <- Hsplit; apply sortList_perm|].
  split; [assumption|]. split; [assumption|].
  intros Hdesc Hplain. rewrite Hdesc in Hsplit.
  exact (sortList_desc_nonIncreasing column rows front back Hplain Hsplit Hfront).
Qed.

End SortStageClaim.

(** C4, counterexample.  On a host that
    reads the text [10.25] as a date, sorting the prices [10.00] and
    [10.25] by [unit_price DESC] leaves them in this order: the
    comparator takes [10.25] for a date, [10.00] for none, and answers
    NaN.  The result rises from 10 to 10.25. *)
Lemma C4_counterexample_date_like_price :
  resultRows (applyOrderBy (rt := monthDayHost) 0 byPriceDescSql [[roundPrice; monthDayPrice]])
    = Normal [roundPrice; monthDayPrice] /\
  nullAt "unitPrice" roundPrice = false /\
  nullAt "unitPrice" monthDayPrice = false /\
  ltb (numericValue (rt := monthDayHost) "unitPrice" roundPrice)
      (numericValue (rt := monthDayHost) "unitPrice" monthDayPrice) = true.
Proof. vm_compute. repeat split. Qed.

Lemma C4_nulls_last_numeric_desc_witness :
  exists front back,
    resultRows (applyOrderBy (rt := plainHost) 0 byPriceDescSql
                  [[scarceItem; unpricedItem; dearItem; ampleItem]]) = Normal (front ++ back) /\
    Forall (fun r => nullAt "unitPrice" r = false) front /\
    Forall (fun r => nullAt "unitPrice" r = true) back /\
    nonIncreasing (rt := plainHost) "unitPrice" front.
Proof.
  destruct (@C4_nulls_last_numeric_desc plainHost 0 byPriceDescSql byPriceDescMatch
              [[scarceItem; unpricedItem; dearItem; ampleItem]])
    as (front & back & _ & Hr & _ & Hf & Hb & Hsorted).
  - simpl. lia.
  - vm_compute. reflexivity.
  - exists front, back. split; [exact Hr|]. split; [exact Hf|]. split; [exact Hb|].
    apply Hsorted; [vm_compute; reflexivity|].
    intros r Hr' Hn. simpl in Hr'.
    destruct Hr' as [<-|[<-|[<-|[<-|[]]]]];
      try (vm_compute; reflexivity).
    vm_compute in Hn. discriminate Hn.
Defined.

(* ===================================================================== *)
(** ** The predicate matcher *)
(* ===================================================================== *)

Section WhereStage.
Context {rt : JsRuntime}.

Lemma strictEqStr_true v s : strictEqStr v s = true <-> v = VStr s.
Proof.
  destruct v; simpl; try (split; [discriminate | intros [=]]).
  rewrite String.eqb_eq. split; [now intros -> | now intros [= ->]].
Qed.

Lemma equalityRejects_eq re field whereClause m value r :
  jsMatch whereClause re = Some m ->
  group m 1 = Some value ->
  equalityRejects re field whereClause r = negb (strictEqStr (getProp r field) value).
Proof. intros Hm Hg. unfold equalityRejects. now rewrite Hm, Hg. Qed.

Lemma equalityRejects_absent re field whereClause r :
  jsMatch whereClause re = None -> equalityRejects re field whereClause r = false.
Proof. intros Hm. unfold equalityRejects. now rewrite Hm. Qed.

(** A row the callback keeps was rejected by no block. *)
Lemma whereCallback_true whereClause now r :
  whereCallback whereClause now r = true <->
  equalityRejects STATUS_RE "status" whereClause r = false /\
  equalityRejects PRIORITY_RE "priority" whereClause r = false /\
  equalityRejects REGION_RE "region" whereClause r = false /\
  notBeforeNowRejects DUE_DATE_RE "dueDate" whereClause now r = false /\
  notBeforeNowRejects SCHEDULED_DATE_RE "scheduledDate" whereClause now r = false /\
  lowStockRejects whereClause r = false /\
  quarterRejects whereClause now r = false /\
  delayedOrRejects whereClause now r = false.
Proof.
  unfold whereCallback.
  destruct (equalityRejects STATUS_RE "status" whereClause r);
  destruct (equalityRejects PRIORITY_RE "priority" whereClause r);
  destruct (equalityRejects REGION_RE "region" whereClause r);
  destruct (notBeforeNowRejects DUE_DATE_RE "dueDate" whereClause now r);
  destruct (notBeforeNowRejects SCHEDULED_DATE_RE "scheduledDate" whereClause now r);
  destruct (lowStockRejects whereClause r);
  destruct (quarterRejects whereClause now r);
  destruct (delayedOrRejects whereClause now r);
  split; try discriminate; try tauto; intuition discriminate.
Qed.

Lemma whereCallback_statusOnly whereClause now r :
  statusOnly whereClause ->
  whereCallback whereClause now r =
  negb (equalityRejects STATUS_RE "status" whereClause r).
Proof.
  intros (Hp & Hr & Hd & Hs & Hl & Hq & Ho).
  unfold whereCallback, notBeforeNowRejects, lowStockRejects, quarterRejects,
    delayedOrRejects.
  rewrite (equalityRejects_absent _ _ _ _ Hp), (equalityRejects_absent _ _ _ _ Hr).
  rewrite Hd, Hs, Hl, Hq, Ho.
  now destruct (equalityRejects STATUS_RE "status" whereClause r).
Qed.



End WhereStage.






(* ===================================================================== *)
(** ** The delayed-work-orders statement *)
(* ===================================================================== *)

Section DelayedWorkOrders.
Context {rt : JsRuntime}.
Import SortFacts.

Lemma take_In {A} (n : nat) (l : list A) x : In x (take n l) -> In x l.
Proof.
  revert l. induction n as [|n IH]; intros [|y l]; simpl; try tauto.
  intros [->|H]; [now left | right; now apply IH].
Qed.

Lemma limitRows_In sql rows r : In r (limitRows sql rows) -> In r rows.
Proof.
  unfold limitRows. destruct (limitOf sql) as [[n|]|]; simpl; [|tauto|tauto].
  apply take_In.
Qed.

Lemma orderRows_In sql rows r : In r (orderRows sql rows) -> In r rows.
Proof.
  unfold orderRows. destruct (jsMatch sql ORDER_BY_RE); [|tauto].
  apply sortList_In.
Qed.

Lemma stagesRows_kept sql whereClause now rows r :
  whereClauseOf sql = Some whereClause ->
  In r (stagesRows sql now rows) ->
  In r rows /\ whereCallback whereClause now r = true.
Proof.
  intros Hw H. unfold stagesRows in H.
  apply limitRows_In, orderRows_In in H. unfold whereRows in H. rewrite Hw in H.
  now apply filter_In in H.
Qed.

Lemma query_eq sales work inv items sql now :
  query sales work inv items sql now =
  resultRows (executeSqlQuery freshStorage sql now [sales; work; inv; items]).
Proof. reflexivity. Qed.

(** Whatever the work orders and the clock, the statement returns
    rows of status [delayed] only: the status block reads the first
    equality of the clause and rejects every other row before the
    block for the disjunction is reached. *)
Lemma delayedWorkOrders_only_delayed sales work inv items now :
  exists rows,
    query sales work inv items delayedWorkOrdersSql now = Normal rows /\
    Forall (fun r => getProp r "status" = VStr "delayed") rows.
Proof.
  rewrite query_eq.
  assert (Hs : startsWith (lowered delayedWorkOrdersSql) "select" = true)
    by (vm_compute; reflexivity).
  assert (Hsel : selectTable freshStorage (lowered delayedWorkOrdersSql) =
                 (do data <- Array_spread (workOrders freshStorage);
                  ret (data, "work_orders"))).
  { unfold selectTable.
    replace (includes (lowered delayedWorkOrdersSql) "sales_orders") with false
      by (vm_compute; reflexivity).
    replace (includes (lowered delayedWorkOrdersSql) "work_orders") with true
      by (vm_compute; reflexivity).
    reflexivity. }
  pose proof (executeSqlQuery_on freshStorage delayedWorkOrdersSql now
                [sales; work; inv; items] _ _ Hs Hsel) as Hans.
  apply answersFrom_Normal in Hans. rewrite Hans. eexists. split; [reflexivity|].
  apply List.Forall_forall. intros r Hr.
  assert (Hw : whereClauseOf delayedWorkOrdersSql =
               Some "status = 'delayed' OR (status = 'in-progress' AND scheduled_date < GETDATE())")
    by (vm_compute; reflexivity).
  destruct (stagesRows_kept _ _ _ _ _ Hw Hr) as [_ Hkeep].
  apply whereCallback_true in Hkeep as [Hstatus _].
  rewrite (equalityRejects_eq STATUS_RE "status" _
             (<[0 := "status = 'delayed'"]> (<[1 := "delayed"]> ∅)) "delayed")
    in Hstatus; [| vm_compute; reflexivity | vm_compute; reflexivity].
  apply negb_false_iff in Hstatus. now apply strictEqStr_true.
Qed.

(** C1.  Against the three work orders of the
    scenario the statement returns the delayed one alone; the order
    that is in progress and scheduled in the past is missing.  The
    same holds of every collection and clock: only rows whose status
    is [delayed] are ever returned. *)
Theorem C1_delayed_or_overdue_returns_delayed_only :
  query [] workOrderFixture [] [] delayedWorkOrdersSql 5000 = Normal [delayedOrder] /\
  getProp overdueOrder "status" = VStr "in-progress" /\
  dateLt (newDate (getProp overdueOrder "scheduledDate")) (Some 5000%Z) = true /\
  (forall sales work inv items now, exists rows,
     query sales work inv items delayedWorkOrdersSql now = Normal rows /\
     Forall (fun r => getProp r "status" = VStr "delayed") rows).
Proof.
  split; [vm_compute; reflexivity|]. split; [vm_compute; reflexivity|].
  split; [vm_compute; reflexivity|]. apply delayedWorkOrders_only_delayed.
Qed.

End DelayedWorkOrders.

Lemma C7_unknown_table_iff_and_priority_witness :
  answersFrom (rt := plainHost) [invoice "INV-9" "paid" 1]
    "  Select * FROM invoices i JOIN sales_orders s" 0
    [[invoice "INV-9" "paid" 1]; []; [invoice "INV-1" "pending" 10]; []]
    (executeSqlQuery (rt := plainHost) freshStorage
       "  Select * FROM invoices i JOIN sales_orders s" 0
       [[invoice "INV-9" "paid" 1]; []; [invoice "INV-1" "pending" 10]; []]).
Proof.
  refine (proj1 (proj2 (@C7_unknown_table_iff_and_priority plainHost freshStorage
            "  Select * FROM invoices i JOIN sales_orders s" 0
            [[invoice "INV-9" "paid" 1]; []; [invoice "INV-1" "pending" 10]; []] _)) _).
  - vm_compute. reflexivity.
  - vm_compute. reflexivity.
Defined.

Lemma C8_store_not_mutated_witness :
  let h := [[]; workOrderFixture; []; [ampleItem; scarceItem]] in
  let out := executeSqlQuery (rt := plainHost) freshStorage
               "SELECT * FROM work_orders ORDER BY scheduled_date ASC" 5000 h in
  resultRows out = Normal [completedOrder; overdueOrder; delayedOrder] /\
  contents (snd out) (workOrders freshStorage) = workOrderFixture.
Proof.
  pose proof (@C8_store_not_mutated plainHost freshStorage
                "SELECT * FROM work_orders ORDER BY scheduled_date ASC" 5000
                [[]; workOrderFixture; []; [ampleItem; scarceItem]]) as H.
  cbv zeta in H. intros h out.
  destruct H as (_ & Hw & _).
  - unfold allocated. simpl. lia.
  - split; [vm_compute; reflexivity | exact Hw].
Defined.

(* ===================================================================== *)
(** ** The life of a query record *)
(* ===================================================================== *)

Section QueryRecords.

Lemma allowedMove_refl s : allowedMove s s.
Proof. now left. Qed.

Lemma createQuery_lookup id now insertQuery this :
  queries (snd (createQuery id now insertQuery this)) =
  <[id := fst (createQuery id now insertQuery this)]> (queries this) /\
  Schema.status (fst (createQuery id now insertQuery this)) = "processing".
Proof. split; reflexivity. Qed.

Lemma updateQuery_lookup id updates this q :
  queries this !! id = Some q ->
  queries (snd (updateQuery id updates this)) =
  <[id := Schema.spread q updates]> (queries this).
Proof. intros H. unfold updateQuery. now rewrite H. Qed.

(** The one update a finished task makes moves [status] to [success]
    or to [error]. *)
Lemma processQueryAsync_lookup id p this q :
  queries this !! id = Some q ->
  exists q',
    queries (processQueryAsync id p this) = <[id := q']> (queries this) /\
    (Schema.status q' = "success" \/ Schema.status q' = "error").
Proof.
  intros H. destruct p as [sql interp json err ms|err ms]; simpl;
    rewrite (updateQuery_lookup _ _ _ _ H); eexists; (split; [reflexivity|]); simpl.
  - destruct err as [m|]; [destruct (String.eqb m "")|]; simpl; auto.
  - now right.
Qed.

Lemma step_disciplined e s s' :
  pendingProcessing s ->
  step e s = Some s' ->
  disciplined (queries (storage s)) (queries (storage s')) /\ pendingProcessing s'.
Proof.
  intros Inv Hstep. destruct e as [id now insertQuery|id p]; cbn [step] in Hstep.
  - destruct (decide (id ∈ dom (queries (storage s)))) as [|Hfresh]; [discriminate|].
    apply not_elem_of_dom in Hfresh.
    destruct (createQuery_lookup id now insertQuery (storage s)) as [Hqs Hst].
    assert (Es : storage s' = snd (createQuery id now insertQuery (storage s)))
      by (injection Hstep as <-; reflexivity).
    assert (Ep : pending s' = {[id]} ∪ pending s)
      by (injection Hstep as <-; reflexivity).
    unfold pendingProcessing. rewrite Es, Ep, Hqs. clear Hstep Es Ep Hqs.
    set (created := fst (createQuery id now insertQuery (storage s))) in *.
    split; [split|].
    + intros id' q Hq. assert (id <> id') by congruence.
      exists q. rewrite lookup_insert_ne by assumption. split; [assumption|].
      apply allowedMove_refl.
    + intros id' q' Hnone Hq'. destruct (decide (id = id')) as [<-|Hne].
      * rewrite lookup_insert_eq in Hq'. injection Hq' as <-. exact Hst.
      * rewrite lookup_insert_ne in Hq' by assumption. congruence.
    + intros id' Hin. apply elem_of_union in Hin as [Hin|Hin].
      * apply elem_of_singleton in Hin as ->. exists created.
        rewrite lookup_insert_eq. split; [reflexivity | exact Hst].
      * destruct (Inv id' Hin) as (q & Hq & Hproc). exists q.
        rewrite lookup_insert_ne by congruence. auto.
  - destruct (decide (id ∈ pending s)) as [Hin|]; [|discriminate].
    destruct (Inv id Hin) as (q & Hq & Hproc).
    destruct (processQueryAsync_lookup id p (storage s) q Hq) as (q' & Hqs & Hdone).
    assert (Es : storage s' = processQueryAsync id p (storage s))
      by (injection Hstep as <-; reflexivity).
    assert (Ep : pending s' = pending s ∖ {[id]})
      by (injection Hstep as <-; reflexivity).
    unfold pendingProcessing. rewrite Es, Ep, Hqs. clear Hstep Es Ep Hqs.
    split; [split|].
    + intros id' q0 Hq0. destruct (decide (id = id')) as [<-|Hne].
      * exists q'. rewrite lookup_insert_eq. split; [reflexivity|].
        right. split; [congruence | exact Hdone].
      * exists q0. rewrite lookup_insert_ne by assumption.
        split; [assumption | apply allowedMove_refl].
    + intros id' q0 Hnone Hq0. destruct (decide (id = id')) as [<-|Hne].
      * congruence.
      * rewrite lookup_insert_ne in Hq0 by assumption. congruence.
    + intros id' Hin'. apply elem_of_difference in Hin' as [Hin' Hne].
      rewrite elem_of_singleton in Hne.
      destruct (Inv id' Hin') as (q0 & Hq0 & Hproc0). exists q0.
      rewrite lookup_insert_ne by congruence. auto.
Qed.

Lemma run_pendingProcessing es : forall s s',
  pendingProcessing s -> run es s = Some s' -> pendingProcessing s'.
Proof.
  induction es as [|e es IH]; intros s s' Inv Hrun; simpl in Hrun.
  - now injection Hrun as <-.
  - destruct (step e s) as [s1|] eqn:E; [|discriminate].
    apply (IH s1); [|assumption]. now destruct (step_disciplined e s s1 Inv E).
Qed.

(** C9.  Every record is created with status [processing], and in
    every sequence of [createQuery] and [updateQuery] calls that the
    service can reach, the status of a stored record only moves from
    [processing] to [success] or to [error], once, and stays as it is
    thereafter.  The reachable sequences are the runs of the service:
    the route creates the record under a fresh identifier and starts
    one task, and the task, the only caller of [updateQuery], calls it
    once with [success] or [error].  Each step of a run leaves every
    stored record with its status unchanged or moved out of
    [processing]; a record that has left [processing] belongs to no
    pending task and is not written again. *)
Theorem C9_status_moves_in_service_runs
        (es : list event) (e : event) (s s' : service) :
  run es idle = Some s ->
  step e s = Some s' ->
  disciplined (queries (storage s)) (queries (storage s')) /\
  (forall id q, queries (storage s') !! id = Some q ->
     Schema.status q <> "processing" -> id ∉ pending s') /\
  (forall id now insertQuery this,
     statusOf (snd (createQuery id now insertQuery this)) id = Some "processing").
Proof.
  intros Hrun Hstep.
  assert (Inv0 : pendingProcessing idle) by (intros id Hin; simpl in Hin; set_solver).
  pose proof (run_pendingProcessing es idle s Inv0 Hrun) as Inv.
  destruct (step_disciplined e s s' Inv Hstep) as [Hd Inv'].
  split; [exact Hd|]. split.
  - intros id q Hq Hnot Hin. destruct (Inv' id Hin) as (q0 & Hq0 & Hproc). congruence.
  - intros id now insertQuery this. unfold statusOf.
    destruct (createQuery_lookup id now insertQuery this) as [-> Hst].
    rewrite lookup_insert_eq. reflexivity.
Qed.

End QueryRecords.

(** The discipline is the writer's, not the store's: [updateQuery]
    has no guard on the status.  Called directly, as no code path of
    the service does, with an update that carries [processing] on a
    record in [error], it stores it. *)
Remark updateQuery_has_no_status_guard :
  let created := snd (createQuery "q-1" 0 question freshStorage) in
  let failed := snd (updateQuery "q-1" (failedUpdate "rate limited" 12) created) in
  let reopened := snd (updateQuery "q-1" (statusUpdate "processing") failed) in
  statusOf created "q-1" = Some "processing" /\
  statusOf failed "q-1" = Some "error" /\
  statusOf reopened "q-1" = Some "processing" /\
  ~ allowedMove "error" "processing" /\
  ~ disciplined (queries failed) (queries reopened).
Proof.
  cbv zeta.
  assert (Hmove : ~ allowedMove "error" "processing").
  { intros [H|[H _]]; discriminate H. }
  split; [vm_compute; reflexivity|]. split; [vm_compute; reflexivity|].
  split; [vm_compute; reflexivity|]. split; [exact Hmove|].
  intros [Hd _].
  destruct (Hd "q-1" _ ltac:(vm_compute; reflexivity)) as (q' & Hq' & Hallowed).
  vm_compute in Hq'. injection Hq' as <-. exact (Hmove Hallowed).
Qed.

Lemma C9_status_moves_in_service_runs_witness :
  disciplined
    (queries (snd (createQuery "q-1" 0 question freshStorage)))
    (queries (processQueryAsync "q-1" (Completed "SELECT * FROM invoices" "All invoices"
                                                 "[]" None 42)
                (snd (createQuery "q-1" 0 question freshStorage)))).
Proof.
  refine (proj1 (C9_status_moves_in_service_runs
            [Submit "q-1" 0 question]
            (Finish "q-1" (Completed "SELECT * FROM invoices" "All invoices" "[]" None 42))
            {| storage := snd (createQuery "q-1" 0 question freshStorage);
               pending := {["q-1"]} ∪ ∅ |}
            {| storage := processQueryAsync "q-1"
                            (Completed "SELECT * FROM invoices" "All invoices" "[]" None 42)
                            (snd (createQuery "q-1" 0 question freshStorage));
               pending := ({["q-1"]} ∪ ∅) ∖ {["q-1"]} |} _ _)).
  - vm_compute. reflexivity.
  - vm_compute. reflexivity.
Defined.

(* ===================================================================== *)
(** ** The outcomes of a statement *)
(* ===================================================================== *)

Section Outcomes.
Context {rt : JsRuntime}.
Import RegexFacts.

(** How [executeSqlQuery] ends, by the text of the statement alone. *)
Lemma executeSqlQuery_cases this sql now h :
  (startsWith (lowered sql) "select" = false /\
   executeSqlQuery this sql now h = (Throw UnsupportedStatement, h)) \/
  (startsWith (lowered sql) "select" = true /\
   namedTable this (lowered sql) = None /\
   executeSqlQuery this sql now h = (Throw UnknownTable, h ++ [[]])) \/
  (startsWith (lowered sql) "select" = true /\
   exists table,
     namedTable this (lowered sql) = Some table /\
     answersFrom (contents h table) sql now h (executeSqlQuery this sql now h)).
Proof.
  destruct (startsWith (lowered sql) "select") eqn:Hs;
    [|left; split; [reflexivity | now apply executeSqlQuery_unsupported]].
  right. unfold namedTable.
  destruct (selectTable_cases this (lowered sql))
    as [(H1 & E)|[(H1 & H2 & E)|[(H1 & H2 & H3 & E)|[(H1 & H2 & H3 & H4 & E)|
        (H1 & H2 & H3 & H4 & E)]]]].
  - right. split; [reflexivity|]. rewrite H1. eexists; split; [reflexivity|].
    exact (executeSqlQuery_on _ _ _ _ _ _ Hs E).
  - right. split; [reflexivity|]. rewrite H1, H2. eexists; split; [reflexivity|].
    exact (executeSqlQuery_on _ _ _ _ _ _ Hs E).
  - right. split; [reflexivity|]. rewrite H1, H2, H3. eexists; split; [reflexivity|].
    exact (executeSqlQuery_on _ _ _ _ _ _ Hs E).
  - right. split; [reflexivity|]. rewrite H1, H2, H3, H4. eexists; split; [reflexivity|].
    exact (executeSqlQuery_on _ _ _ _ _ _ Hs E).
  - left. rewrite H1, H2, H3, H4. repeat split.
    now apply executeSqlQuery_unknown.
Qed.

Lemma ExecutionError_distinct tableName cause :
  ExecutionError tableName cause <> UnsupportedStatement /\
  ExecutionError tableName cause <> UnknownTable.
Proof.
  unfold ExecutionError, UnsupportedStatement, UnknownTable.
  rewrite app_cons. split; intros [=].
Qed.

(** A call of [executeSqlQuery] writes no array that existed before
    it. *)
Lemma executeSqlQuery_frame this sql now h l0 :
  l0 < length h -> snd (executeSqlQuery this sql now h) !! l0 = h !! l0.
Proof.
  intros Hl0.
  destruct (executeSqlQuery_cases this sql now h)
    as [(_ & ->)|[(_ & _ & ->)|(_ & table & _ & l & h' & -> & _ & _ & Hfr)]]; simpl.
  - reflexivity.
  - now rewrite lookup_app_l.
  - now apply Hfr.
Qed.

(** The answer depends on the heap through the rows of the four
    collections only. *)
Lemma executeSqlQuery_rows_ext this sql now h1 h2 :
  contents h1 (salesOrders this) = contents h2 (salesOrders this) ->
  contents h1 (workOrders this) = contents h2 (workOrders this) ->
  contents h1 (invoices this) = contents h2 (invoices this) ->
  contents h1 (inventoryItems this) = contents h2 (inventoryItems this) ->
  resultRows (executeSqlQuery this sql now h1) = resultRows (executeSqlQuery this sql now h2).
Proof.
  intros Es Ew Ei Et.
  destruct (executeSqlQuery_cases this sql now h1)
    as [(Hs & E1)|[(Hs & Hn & E1)|(Hs & table & Hn & A1)]];
  destruct (executeSqlQuery_cases this sql now h2)
    as [(Hs' & E2)|[(Hs' & Hn' & E2)|(Hs' & table' & Hn' & A2)]];
  try congruence.
  - now rewrite E1, E2.
  - now rewrite E1, E2.
  - rewrite (answersFrom_Normal _ _ _ _ _ A1), (answersFrom_Normal _ _ _ _ _ A2).
    assert (table' = table) as -> by congruence.
    f_equal. f_equal. unfold namedTable in Hn.
    destruct (includes (lowered sql) "sales_orders"); [now injection Hn as <-|].
    destruct (includes (lowered sql) "work_orders"); [now injection Hn as <-|].
    destruct (includes (lowered sql) "invoices"); [now injection Hn as <-|].
    destruct (includes (lowered sql) "inventory_items"); [now injection Hn as <-|].
    discriminate.
Qed.

(** X1.  A call of [executeSqlQuery] ends in one of three ways: it
    returns an array, or it fails with the error for an unsupported
    statement, or with the error for an unknown table.  The error
    [SQL execution error on <table>] of its [catch] block never
    arises: the three stages do not throw. *)
Theorem executeSqlQuery_three_outcomes
        (this : MemStorage) (sql : string) (now : Z) (h : heap) :
  let out := executeSqlQuery this sql now h in
  ((exists l, fst out = Normal l) \/
   fst out = Throw UnsupportedStatement \/
   fst out = Throw UnknownTable) /\
  (forall tableName cause, fst out <> Throw (ExecutionError tableName cause)).
Proof.
  intros out. subst out.
  destruct (executeSqlQuery_cases this sql now h)
    as [(_ & ->)|[(_ & _ & ->)|(_ & table & _ & l & h' & -> & _)]];
    cbn [fst].
  - split; [auto|]. intros t c E.
    destruct (ExecutionError_distinct t c) as [H _]. apply H. congruence.
  - split; [auto|]. intros t c E.
    destruct (ExecutionError_distinct t c) as [_ H]. apply H. congruence.
  - split; [left; eauto|]. discriminate.
Qed.

End Outcomes.

(* ===================================================================== *)
(** ** The rows of an answer *)
(* ===================================================================== *)

Section AnswerRows.
Context {rt : JsRuntime}.
Import SortFacts.

Lemma List_filter_sublist {A} (p : A -> bool) (l : list A) : sublist (List.filter p l) l.
Proof.
  induction l as [|x l IH]; simpl; [constructor|].
  destruct (p x); [now apply sublist_skip | now apply sublist_cons].
Qed.

Lemma List_filter_true {A} (p : A -> bool) (l : list A) :
  (forall x, In x l -> p x = true) -> List.filter p l = l.
Proof.
  induction l as [|x l IH]; intros H; simpl; [reflexivity|].
  rewrite (H x) by now left. f_equal. apply IH. intros y Hy. apply H. now right.
Qed.

Lemma whereRows_sublist sql now rows : sublist (whereRows sql now rows) rows.
Proof.
  unfold whereRows. destruct (whereClauseOf sql); [apply List_filter_sublist | reflexivity].
Qed.

Lemma orderRows_perm sql rows : Permutation (orderRows sql rows) rows.
Proof.
  unfold orderRows. destruct (jsMatch sql ORDER_BY_RE); [apply sortList_perm | reflexivity].
Qed.

Lemma limitRows_sublist sql rows : sublist (limitRows sql rows) rows.
Proof.
  unfold limitRows. destruct (limitOf sql) as [[n|]|];
    [apply sublist_take | apply sublist_nil_l | reflexivity].
Qed.

Lemma stagesRows_submseteq sql now rows : stagesRows sql now rows ⊆+ rows.
Proof.
  unfold stagesRows.
  etrans; [apply sublist_submseteq, limitRows_sublist|].
  etrans; [apply Permutation_submseteq, orderRows_perm|].
  apply sublist_submseteq, whereRows_sublist.
Qed.

(** X2.  The rows a statement returns are rows of the collection it
    names, each at most as often as the collection holds it: whatever
    the SELECT list, the WHERE clause, the order or the limit, no row
    is invented, changed or repeated, and whole rows are returned. *)
Theorem executeSqlQuery_rows_of_table
        (this : MemStorage) (sql : string) (now : Z) (h : heap) (rows : list row) :
  resultRows (executeSqlQuery this sql now h) = Normal rows ->
  exists table,
    namedTable this (lowered sql) = Some table /\
    rows ⊆+ contents h table /\
    length rows <= length (contents h table) /\
    (forall r, In r rows -> In r (contents h table)).
Proof.
  intros Hres.
  destruct (executeSqlQuery_cases this sql now h)
    as [(_ & E)|[(_ & _ & E)|(_ & table & Hn & A)]];
    [rewrite E in Hres; discriminate | rewrite E in Hres; discriminate |].
  rewrite (answersFrom_Normal _ _ _ _ _ A) in Hres. injection Hres as <-.
  exists table. split; [assumption|].
  pose proof (stagesRows_submseteq sql now (contents h table)) as Hsub.
  split; [assumption|]. split; [now apply submseteq_length|].
  intros r Hr. apply list_elem_of_In. apply list_elem_of_In in Hr.
  eapply elem_of_submseteq; eassumption.
Qed.

(** X3.  No statement influences the answer to a later one: after any
    call of [executeSqlQuery], a second call returns the rows it would
    have returned without the first. *)
Theorem executeSqlQuery_repeatable
        (this : MemStorage) (sql sql' : string) (now now' : Z) (h : heap) :
  allocated this h ->
  resultRows (executeSqlQuery this sql' now' (snd (executeSqlQuery this sql now h))) =
  resultRows (executeSqlQuery this sql' now' h).
Proof.
  intros (Hs & Hw & Hi & Ht).
  apply executeSqlQuery_rows_ext; unfold contents;
    now rewrite executeSqlQuery_frame.
Qed.

End AnswerRows.

Lemma executeSqlQuery_rows_of_table_witness :
  exists table,
    namedTable freshStorage (lowered "SELECT order_id FROM sales_orders WHERE status = 'pending'")
      = Some table /\
    [pendingSouth; pendingNorth] ⊆+ contents exampleHeap table /\
    length [pendingSouth; pendingNorth] <= length (contents exampleHeap table) /\
    (forall r, In r [pendingSouth; pendingNorth] -> In r (contents exampleHeap table)).
Proof.
  apply (executeSqlQuery_rows_of_table (rt := plainHost) freshStorage
           "SELECT order_id FROM sales_orders WHERE status = 'pending'" 0 exampleHeap).
  vm_compute. reflexivity.
Defined.

Lemma executeSqlQuery_repeatable_witness :
  resultRows
    (executeSqlQuery (rt := plainHost) freshStorage "SELECT * FROM work_orders LIMIT 2" 5000
       (snd (executeSqlQuery (rt := plainHost) freshStorage
               "SELECT * FROM work_orders ORDER BY scheduled_date ASC" 5000 exampleHeap))) =
  Normal [delayedOrder; overdueOrder].
Proof.
  rewrite (executeSqlQuery_repeatable (rt := plainHost) freshStorage
             "SELECT * FROM work_orders ORDER BY scheduled_date ASC"
             "SELECT * FROM work_orders LIMIT 2" 5000 5000 exampleHeap).
  - vm_compute. reflexivity.
  - vm_compute. repeat split; lia.
Defined.

(* ===================================================================== *)
(** ** The conditions of a WHERE clause *)
(* ===================================================================== *)

Section Conditions.
Context {rt : JsRuntime}.

Lemma notBeforeNowRejects_absent re field whereClause now r :
  jsMatch whereClause re = None -> notBeforeNowRejects re field whereClause now r = false.
Proof. intros H. unfold notBeforeNowRejects. now rewrite H. Qed.

Lemma noShape_keeps whereClause now r :
  noShape whereClause -> whereCallback whereClause now r = true.
Proof.
  intros (Hs & Hp & Hr & Hd & Hsd & Hl & Hq & Ho).
  apply whereCallback_true. repeat split.
  - now apply equalityRejects_absent.
  - now apply equalityRejects_absent.
  - now apply equalityRejects_absent.
  - now apply notBeforeNowRejects_absent.
  - now apply notBeforeNowRejects_absent.
  - unfold lowStockRejects. now rewrite Hl.
  - unfold quarterRejects. now rewrite Hq.
  - unfold delayedOrRejects. now rewrite Ho.
Qed.

(** X4.  A WHERE clause in which the filter recognizes none of its
    eight shapes filters nothing: the predicate matcher returns a new
    array with every row of its input, in the same order. *)
Theorem where_without_known_shape
        (data : loc) (sql whereClause : string) (now : Z) (h : heap) :
  whereClauseOf sql = Some whereClause ->
  noShape whereClause ->
  applyWhereConditions data sql now h = (Normal (length h), h ++ [contents h data]) /\
  resultRows (applyWhereConditions data sql now h) = Normal (contents h data).
Proof.
  intros Hw Hno.
  assert (E : applyWhereConditions data sql now h =
              (Normal (length h), h ++ [contents h data])).
  { rewrite applyWhereConditions_eq, Hw. do 2 f_equal. f_equal.
    apply List_filter_true. intros r _. now apply noShape_keeps. }
  split; [exact E|]. rewrite E. simpl. now rewrite contents_alloc.
Qed.

(** X5.  The status [in-progress] cannot be selected: the pattern of
    the status equality takes word characters only, so the clause
    [status = 'in-progress'] is not recognized and the statement
    returns every work order, whatever its status. *)
Theorem in_progress_filter_not_applied :
  forall (sales work inv items : list row) (now : Z),
    query sales work inv items inProgressSql now = Normal work.
Proof.
  intros sales work inv items now. rewrite query_eq.
  assert (Hs : startsWith (lowered inProgressSql) "select" = true) by (vm_compute; reflexivity).
  assert (Hsel : selectTable freshStorage (lowered inProgressSql) =
                 (do data <- Array_spread (workOrders freshStorage); ret (data, "work_orders")))
    by (vm_compute; reflexivity).
  rewrite (answersFrom_Normal _ _ _ _ _ (executeSqlQuery_on _ _ _ _ _ _ Hs Hsel)).
  f_equal. change (contents [sales; work; inv; items] (workOrders freshStorage)) with work.
  unfold stagesRows, limitRows, orderRows, whereRows.
  replace (limitOf inProgressSql) with (@None (option N)) by (vm_compute; reflexivity).
  replace (jsMatch inProgressSql ORDER_BY_RE) with (@None captures) by (vm_compute; reflexivity).
  replace (whereClauseOf inProgressSql) with (Some "status = 'in-progress'")
    by (vm_compute; reflexivity).
  apply List_filter_true. intros r _. apply noShape_keeps.
  vm_compute. repeat split; reflexivity.
Qed.




End Conditions.

Lemma where_without_known_shape_witness :
  resultRows (applyWhereConditions (rt := plainHost) 0 amountSql 0 exampleHeap) =
  Normal [pendingSouth; completedNorth; pendingNorth].
Proof.
  apply (proj2 (where_without_known_shape (rt := plainHost) 0 amountSql
                  "total_amount > 10000" 0 exampleHeap
                  ltac:(vm_compute; reflexivity)
                  ltac:(vm_compute; repeat split; reflexivity))).
Defined.



(* ===================================================================== *)
(** ** Sorting by a key *)
(* ===================================================================== *)

Module RankFacts.
Import SortFacts NumberFacts.

Lemma rankLt_irrefl k : rankLt k k = false.
Proof. destruct k; simpl; [lia | reflexivity]. Qed.

Lemma rankLt_asym a b : rankLt a b = true -> rankLt b a = false.
Proof. destruct a, b; simpl; try reflexivity; try discriminate; lia. Qed.

Lemma rankLt_negtrans a b c :
  rankLt a c = true -> rankLt a b = true \/ rankLt b c = true.
Proof.
  destruct a, b, c; simpl; try discriminate; auto.
  intros H. destruct (Z.ltb_spec z z0); [now left | right; lia].
Qed.

Lemma negative_sub_ofZ (x y : Z) : negative (sub (ofZ x) (ofZ y)) = (x <? y)%Z.
Proof.
  unfold negative, ofZ, sub, ltb.
  destruct (Qltb_spec (inject_Z x - inject_Z y) 0) as [H|H];
    unfold Qlt, Qminus, Qplus, Qopp, inject_Z in H; simpl in H; lia.
Qed.

Section ByRank.
Context {A : Type} (cmp : A -> A -> number) (rank : A -> option Z) (P : A -> Prop).
Hypothesis cmp_rank :
  forall x y, P x -> P y -> negative (cmp x y) = rankLt (rank x) (rank y).

Lemma Forall_insertSorted x acc :
  P x -> Forall P acc -> Forall P (insertSorted cmp x acc).
Proof.
  intros Hx Hacc. apply List.Forall_forall. intros y Hy.
  apply (Permutation_in _ (insertSorted_perm cmp x acc)) in Hy.
  destruct Hy as [<-|Hy]; [assumption|].
  rewrite List.Forall_forall in Hacc. now apply Hacc.
Qed.

Lemma before_asym_rank x y :
  P x -> P y -> negative (cmp x y) = true -> negative (cmp y x) = false.
Proof. intros Hx Hy. rewrite !cmp_rank by assumption. apply rankLt_asym. Qed.

Lemma before_negtrans_rank x y z :
  P x -> P y -> P z -> negative (cmp x z) = true ->
  negative (cmp x y) = true \/ negative (cmp y z) = true.
Proof. intros Hx Hy Hz. rewrite !cmp_rank by assumption. apply rankLt_negtrans. Qed.

Lemma Forall_sortList l : Forall P l -> Forall P (sortList cmp l).
Proof.
  intros HP. apply List.Forall_forall. intros x Hx.
  apply sortList_In in Hx. rewrite List.Forall_forall in HP. now apply HP.
Qed.

(** The result is in the order of the keys. *)
Lemma sortList_by_rank l :
  Forall P l ->
  StronglySorted (fun first second => rankLt (rank second) (rank first) = false)
                 (sortList cmp l).
Proof.
  intros HP.
  assert (Hs : StronglySorted (fun a b => negative (cmp b a) = false) (sortList cmp l)).
  { unfold sortList.
    apply (StronglySorted_rev (fun u v => negative (cmp u v) = false)).
    refine (proj1 (fold_insert_invariant cmp
              (fun acc => StronglySorted (fun u v => negative (cmp u v) = false) acc /\
                          Forall P acc) l _ [] _)).
    - intros x acc Hx [Hs Hacc]. rewrite insertSorted_insertBy.
      apply (insertBy_sorted (fun x y => negative (cmp x y)) P
               before_asym_rank before_negtrans_rank); [|assumption|assumption].
      rewrite List.Forall_forall in HP. now apply HP.
    - split; constructor. }
  pose proof (Forall_sortList l HP) as Hall. rewrite List.Forall_forall in Hall.
  refine (StronglySorted_weaken _ _ _ _ Hs).
  intros a b Ha Hb Hab. now rewrite <- cmp_rank by auto.
Qed.

Lemma insertSorted_stable (f : A -> bool) x acc :
  (forall y z, f y = true -> f z = true -> rank y = rank z) ->
  P x -> Forall P acc ->
  List.filter f (rev (insertSorted cmp x acc)) = List.filter f (rev acc ++ [x]).
Proof.
  intros Hf Hx. induction acc as [|y rest IH]; intros Hacc; [reflexivity|].
  apply Forall_cons_1 in Hacc as [Hy Hrest]. cbn [insertSorted].
  destruct (negative (cmp x y)) eqn:E; [|reflexivity].
  cbn [rev]. rewrite !List.filter_app, (IH Hrest), !List.filter_app, <- !List.app_assoc.
  f_equal. simpl.
  destruct (f x) eqn:Fx, (f y) eqn:Fy; try reflexivity.
  rewrite cmp_rank, (Hf x y Fx Fy), rankLt_irrefl in E by assumption. discriminate.
Qed.

(** The sort is stable: the elements of one key keep their order. *)
Lemma sortList_stable (f : A -> bool) l :
  (forall y z, f y = true -> f z = true -> rank y = rank z) ->
  Forall P l ->
  List.filter f (sortList cmp l) = List.filter f l.
Proof.
  intros Hf HP. unfold sortList.
  enough (H : forall acc, Forall P acc ->
            List.filter f (rev (fold_left (fun acc x => insertSorted cmp x acc) l acc)) =
            List.filter f (rev acc ++ l)) by exact (H [] (List.Forall_nil _)).
  induction l as [|x l IH]; intros acc Hacc; simpl.
  - now rewrite List.app_nil_r.
  - apply Forall_cons_1 in HP as [Hx Hl].
    rewrite (IH Hl) by now apply Forall_insertSorted.
    rewrite List.filter_app, insertSorted_stable by assumption.
    now rewrite <- List.filter_app, <- List.app_assoc.
Qed.

End ByRank.
End RankFacts.

(* ===================================================================== *)
(** ** Sorting by a date, and by a name that is no property *)
(* ===================================================================== *)

Section SortByDate.
Context {rt : JsRuntime}.
Import SortFacts NumberFacts RankFacts.

Variables column direction : string.

(** The rows the order is stated for: no value, or a valid date. *)
Abbreviation dated := (fun r : row =>
  nullAt column r = true \/ exists t, getProp r column = VDate (Some t)).

Lemma comparator_dateRank x y :
  dated x -> dated y ->
  negative (orderComparator column direction x y) =
  rankLt (dateRank direction column x) (dateRank direction column y).
Proof.
  intros [Nx|(t & Hx)] Hy.
  - rewrite comparator_null_l by assumption.
    unfold dateRank, timeAt. unfold nullAt in Nx.
    destruct (getProp x column); try discriminate; reflexivity.
  - assert (Nx : nullAt column x = false) by (unfold nullAt; now rewrite Hx).
    destruct Hy as [Ny|(u & Hy)].
    + rewrite comparator_null_r by assumption.
      unfold dateRank, timeAt. rewrite Hx. unfold nullAt in Ny.
      destruct (getProp y column); try discriminate; reflexivity.
    + unfold orderComparator, dateRank, timeAt. rewrite Hx, Hy.
      cbn [isNullish comparesAsDate newDate timeToNumber].
      destruct (String.eqb direction "DESC"); rewrite negative_sub_ofZ; cbn [rankLt];
        destruct (Z.ltb_spec u t), (Z.ltb_spec (- t) (- u)),
                 (Z.ltb_spec t u); try reflexivity; lia.
Qed.

Lemma rank_sorted_inTimeOrder rows :
  StronglySorted
    (fun first second =>
       rankLt (dateRank direction column second) (dateRank direction column first) = false)
    rows ->
  inTimeOrder direction column rows.
Proof.
  unfold inTimeOrder. apply StronglySorted_weaken.
  intros a b _ _ Hab t u Ha Hb. unfold dateRank in Hab. rewrite Ha, Hb in Hab.
  cbn in Hab. destruct (String.eqb direction "DESC"); lia.
Qed.

Lemma atTime_same_rank t y z :
  atTime column t y = true -> atTime column t z = true ->
  dateRank direction column y = dateRank direction column z.
Proof.
  unfold atTime. intros Hy%bool_decide_eq_true Hz%bool_decide_eq_true.
  unfold dateRank. now rewrite Hy, Hz.
Qed.

Lemma sortList_dates rows :
  (forall r, In r rows -> dated r) ->
  inTimeOrder direction column (sortList (orderComparator column direction) rows) /\
  (forall t, List.filter (atTime column t) (sortList (orderComparator column direction) rows) =
             List.filter (atTime column t) rows).
Proof.
  intros Hd. apply List.Forall_forall in Hd. split.
  - apply rank_sorted_inTimeOrder.
    exact (sortList_by_rank _ _ _ comparator_dateRank rows Hd).
  - intros t.
    exact (sortList_stable _ _ _ comparator_dateRank _ rows (atTime_same_rank t) Hd).
Qed.

Lemma sortList_all_null rows :
  (forall r, In r rows -> nullAt column r = true) ->
  sortList (orderComparator column direction) rows = rows.
Proof.
  intros Hn. unfold sortList.
  enough (H : forall acc,
            fold_left (fun acc x => insertSorted (orderComparator column direction) x acc)
                      rows acc = rev rows ++ acc)
    by (rewrite H, List.app_nil_r; apply rev_involutive).
  induction rows as [|x rows IH]; intros acc; [reflexivity|]. cbn [fold_left rev].
  rewrite IH by (intros r Hr; apply Hn; now right).
  rewrite <- List.app_assoc. f_equal.
  destruct acc as [|y acc]; [reflexivity|]. cbn [insertSorted].
  now rewrite comparator_null_l by (apply Hn; now left).
Qed.

End SortByDate.

Section SortStageMore.
Context {rt : JsRuntime}.

(** X8.  Sorting by a date.  When the rows hold in the sort column a
    valid date or nothing, the sort stage leaves them, in their array,
    in the order of time: ascending, or descending under DESC, with the
    rows that hold nothing at the end; and the sort is stable, rows of
    equal date keeping the order they had. *)
Theorem order_by_date
        (data : loc) (sql : string) (orderMatch : captures) (h : heap) :
  data < length h ->
  jsMatch sql ORDER_BY_RE = Some orderMatch ->
  let column := columnOf orderMatch in
  let direction := directionOf orderMatch in
  let rows := contents h data in
  (forall r, In r rows ->
     nullAt column r = true \/ exists t, getProp r column = VDate (Some t)) ->
  exists sorted,
    applyOrderBy data sql h = (Normal data, <[data := sorted]> h) /\
    resultRows (applyOrderBy data sql h) = Normal sorted /\
    Permutation sorted rows /\
    nullsLast column sorted /\
    inTimeOrder direction column sorted /\
    (forall t, List.filter (atTime column t) sorted = List.filter (atTime column t) rows).
Proof.
  intros Hd Hm column direction rows Hdated.
  exists (sortList (orderComparator column direction) rows).
  assert (E : applyOrderBy data sql h =
              (Normal data, <[data := sortList (orderComparator column direction) rows]> h))
    by (rewrite applyOrderBy_eq, Hm; reflexivity).
  split; [exact E|]. split; [rewrite E; simpl; now rewrite contents_store|].
  split; [apply SortFacts.sortList_perm|]. split; [apply sortList_nullsLast|].
  exact (sortList_dates column direction rows Hdated).
Qed.

(** X9.  Sorting by a name that no row has as a property changes
    nothing: the array keeps its order.  So it is for a single-word
    column written in capitals, which [mapColumnName] leaves as
    written. *)
Theorem order_by_absent_column
        (data : loc) (sql : string) (orderMatch : captures) (h : heap) :
  data < length h ->
  jsMatch sql ORDER_BY_RE = Some orderMatch ->
  (forall r, In r (contents h data) -> lookupProp r (columnOf orderMatch) = None) ->
  applyOrderBy data sql h = (Normal data, h) /\
  resultRows (applyOrderBy data sql h) = Normal (contents h data).
Proof.
  intros Hd Hm Habsent.
  assert (E : applyOrderBy data sql h = (Normal data, h)).
  { rewrite applyOrderBy_eq, Hm. f_equal.
    rewrite sortList_all_null.
    - apply list_insert_id. unfold contents.
      destruct (lookup_lt_is_Some_2 h data Hd) as [xs Hxs]. now rewrite Hxs.
    - intros r Hr. unfold nullAt, getProp. now rewrite (Habsent r Hr). }
  split; [exact E|]. now rewrite E.
Qed.

End SortStageMore.

Lemma order_by_date_witness :
  resultRows (applyOrderBy (rt := plainHost) 0 byOrderDateDescSql exampleHeap) =
    Normal [pendingNorth; completedNorth; pendingSouth] /\
  exists sorted,
    resultRows (applyOrderBy (rt := plainHost) 0 byOrderDateDescSql exampleHeap) =
      Normal sorted /\
    inTimeOrder "DESC" "orderDate" sorted.
Proof.
  split; [vm_compute; reflexivity|].
  destruct (order_by_date (rt := plainHost) 0 byOrderDateDescSql
              (<[0 := "ORDER BY order_date DESC"]>
                 (<[1 := "order_date"]> (<[2 := "DESC"]> ∅))) exampleHeap
              ltac:(vm_compute; lia) ltac:(vm_compute; reflexivity))
    as (sorted & _ & Hres & _ & _ & Hord & _).
  - intros r Hr. right. vm_compute in Hr.
    destruct Hr as [<-|[<-|[<-|[]]]]; eexists; vm_compute; reflexivity.
  - exists sorted. split; [exact Hres | exact Hord].
Defined.

Lemma order_by_absent_column_witness :
  resultRows (applyOrderBy (rt := plainHost) 0 byUnknownColumnSql exampleHeap) =
  Normal [pendingSouth; completedNorth; pendingNorth].
Proof.
  refine (proj2 (order_by_absent_column (rt := plainHost) 0 byUnknownColumnSql
                   (<[0 := "ORDER BY STATUS DESC"]>
                      (<[1 := "STATUS"]> (<[2 := "DESC"]> ∅))) exampleHeap
                   ltac:(vm_compute; lia) ltac:(vm_compute; reflexivity) _)).
  intros r Hr. vm_compute in Hr.
  destruct Hr as [<-|[<-|[<-|[]]]]; vm_compute; reflexivity.
Defined.

(* ===================================================================== *)
(** ** The names of the columns *)
(* ===================================================================== *)

(** X10.  Every column of the four tables of [shared/schema.ts],
    written in lower case, is mapped to the property that holds it in a
    row.  Written in capitals, the columns whose name has an underscore
    are mapped just the same, while a single-word column ([status],
    [region], [amount], ...) is returned as written, in capitals, which
    is the name of no property. *)
Theorem mapColumnName_schema :
  Forall (fun '(property, sqlColumn) =>
            mapColumnName sqlColumn = property /\
            mapColumnName (toUpperCase sqlColumn) =
              (if includes sqlColumn "_" then property else toUpperCase sqlColumn) /\
            (includes sqlColumn "_" = false -> toUpperCase sqlColumn <> property))
         schemaColumns.
Proof.
  unfold schemaColumns.
  repeat (apply Forall_cons_2; [vm_compute; repeat split; try reflexivity; discriminate|]).
  apply List.Forall_nil.
Qed.

(* ===================================================================== *)
(** ** The query store *)
(* ===================================================================== *)

Section QueryStore.

(** X11.  [createQuery] and [getQuery].  The record [createQuery]
    returns is the one [getQuery] then finds under the identifier: it
    carries the identifier, the question and the clock, has status
    [processing] and [null] in every other field; a record stored under
    the same identifier before is replaced; every other identifier
    reads as before, and the four collections are the same arrays. *)
Theorem createQuery_getQuery
        (id : string) (now : Z) (insertQuery : Schema.InsertQuery) (this : MemStorage) :
  let query := fst (createQuery id now insertQuery this) in
  let this' := snd (createQuery id now insertQuery this) in
  getQuery id this' = Some query /\
  (forall id', id' <> id -> getQuery id' this' = getQuery id' this) /\
  Schema.id query = id /\
  Schema.userQuestion query = Schema.insertUserQuestion insertQuery /\
  Schema.createdAt query = now /\
  Schema.status query = "processing" /\
  Schema.generatedSql query = None /\ Schema.aiInterpretation query = None /\
  Schema.resultData query = None /\ Schema.errorMessage query = None /\
  Schema.executionTimeMs query = None /\
  (salesOrders this', workOrders this', invoices this', inventoryItems this') =
  (salesOrders this, workOrders this, invoices this, inventoryItems this).
Proof.
  intros query this'. subst query this'. unfold getQuery, createQuery. cbn.
  split; [apply lookup_insert_eq|].
  split; [intros id' Hne; now apply lookup_insert_ne|].
  repeat split.
Qed.

(** X12.  [updateQuery].  It returns a record exactly when the
    identifier is stored, and otherwise leaves the store as it is: an
    update never creates a record.  When it returns one, that record is
    what [getQuery] then finds; each of its fields is the update's
    where the update has the property and the old one elsewhere; and
    in both cases every other identifier reads as before and the set of
    stored identifiers is the same. *)
Theorem updateQuery_getQuery
        (id : string) (updates : Schema.PartialQuery) (this : MemStorage) :
  let result := fst (updateQuery id updates this) in
  let this' := snd (updateQuery id updates this) in
  (result = None <-> getQuery id this = None) /\
  (getQuery id this = None -> this' = this) /\
  (forall old, getQuery id this = Some old ->
     result = Some (Schema.spread old updates) /\ getQuery id this' = result) /\
  (forall id', id' <> id -> getQuery id' this' = getQuery id' this) /\
  dom (queries this') = dom (queries this) /\
  (salesOrders this', workOrders this', invoices this', inventoryItems this') =
  (salesOrders this, workOrders this, invoices this, inventoryItems this).
Proof.
  intros result this'. subst result this'. unfold getQuery, updateQuery.
  destruct (queries this !! id) as [old|] eqn:E; cbn.
  - split; [split; discriminate|]. split; [discriminate|].
    split; [intros ? [= <-]; split; [reflexivity | apply lookup_insert_eq]|].
    split; [intros id' Hne; now apply lookup_insert_ne|].
    split; [|reflexivity].
    apply set_eq. intros k. rewrite dom_insert, elem_of_union, elem_of_singleton.
    split; [intros [->|H]; [apply elem_of_dom; eauto | exact H] | auto].
  - rewrite E. repeat split; discriminate.
Qed.

Lemma spread_merge (q : Schema.Query) (first second : Schema.PartialQuery) :
  Schema.spread (Schema.spread q first) second = Schema.spread q (mergeUpdates first second).
Proof.
  destruct first, second. unfold Schema.spread, mergeUpdates. cbn.
  f_equal;
    match goal with
    | |- Schema.override (Schema.override _ ?a) ?b = _ => destruct a, b; reflexivity
    end.
Qed.

(** X13.  Two updates of one record in a row are one update with the
    two merged, a property of the second winning over the first: the
    store they leave and the record the second returns are the same. *)
Theorem updateQuery_twice
        (id : string) (first second : Schema.PartialQuery) (this : MemStorage) :
  updateQuery id second (snd (updateQuery id first this)) =
  updateQuery id (mergeUpdates first second) this.
Proof.
  unfold updateQuery.
  destruct (queries this !! id) as [old|] eqn:E; cbn.
  - rewrite lookup_insert_eq, insert_insert_eq, spread_merge. reflexivity.
  - rewrite E. reflexivity.
Qed.

End QueryStore.

(* ===================================================================== *)
(** ** The records in the runs of the service *)
(* ===================================================================== *)

Section ServiceRecords.

(** What a step does to the query map. *)
Lemma step_shape e s s' :
  step e s = Some s' ->
  (salesOrders (storage s'), workOrders (storage s'),
   invoices (storage s'), inventoryItems (storage s')) =
  (salesOrders (storage s), workOrders (storage s),
   invoices (storage s), inventoryItems (storage s)) /\
  ((exists id now insertQuery,
      e = Submit id now insertQuery /\
      queries (storage s) !! id = None /\
      queries (storage s') =
        <[id := fst (createQuery id now insertQuery (storage s))]> (queries (storage s))) \/
   (exists id p,
      e = Finish id p /\
      (queries (storage s') = queries (storage s) \/
       exists q q',
         queries (storage s) !! id = Some q /\
         queries (storage s') = <[id := q']> (queries (storage s)) /\
         Schema.id q' = Schema.id q /\
         Schema.userQuestion q' = Schema.userQuestion q /\
         Schema.createdAt q' = Schema.createdAt q))).
Proof.
  intros Hstep. destruct e as [id now insertQuery|id p]; cbn [step] in Hstep.
  - destruct (decide (id ∈ dom (queries (storage s)))) as [|Hfresh]; [discriminate|].
    apply not_elem_of_dom in Hfresh.
    assert (Es : storage s' = snd (createQuery id now insertQuery (storage s)))
      by (injection Hstep as <-; reflexivity).
    rewrite Es. split; [reflexivity|]. left. exists id, now, insertQuery.
    repeat split. assumption.
  - destruct (decide (id ∈ pending s)) as [Hin|]; [|discriminate].
    assert (Es : storage s' = processQueryAsync id p (storage s))
      by (injection Hstep as <-; reflexivity).
    rewrite Es. clear Hstep Es.
    destruct (queries (storage s) !! id) as [q|] eqn:Hq.
    + split.
      * destruct p; cbn [processQueryAsync]; unfold updateQuery; rewrite Hq; reflexivity.
      * right. exists id, p. split; [reflexivity|]. right.
        destruct p as [sql interp json err ms|err ms]; cbn [processQueryAsync];
          rewrite (updateQuery_lookup _ _ _ _ Hq); eexists q, _;
          (split; [exact Hq|]); (split; [reflexivity|]); repeat split.
    + split.
      * destruct p; cbn [processQueryAsync]; unfold updateQuery; rewrite Hq; reflexivity.
      * right. exists id, p. split; [reflexivity|]. left.
        destruct p; cbn [processQueryAsync]; unfold updateQuery; rewrite Hq; reflexivity.
Qed.

Lemma step_wellKeyed e s s' :
  wellKeyed (queries (storage s)) -> step e s = Some s' ->
  wellKeyed (queries (storage s')).
Proof.
  intros Hk Hstep.
  destruct (step_shape e s s' Hstep)
    as [_ [(id & now & iq & _ & _ & ->)|(id & p & _ & [->|(q & q' & Hq & -> & Hid & _)])]];
    [| assumption |]; intros k r; destruct (decide (id = k)) as [<-|Hne].
  - rewrite lookup_insert_eq. now intros [= <-].
  - rewrite lookup_insert_ne by assumption. apply Hk.
  - rewrite lookup_insert_eq. intros [= <-]. rewrite Hid. now apply Hk.
  - rewrite lookup_insert_ne by assumption. apply Hk.
Qed.

Lemma run_wellKeyed es : forall s s',
  wellKeyed (queries (storage s)) -> run es s = Some s' ->
  wellKeyed (queries (storage s')).
Proof.
  induction es as [|e es IH]; intros s s' Inv Hrun; simpl in Hrun.
  - now injection Hrun as <-.
  - destruct (step e s) as [s1|] eqn:E; [|discriminate].
    apply (IH s1); [|assumption]. exact (step_wellKeyed e s s1 Inv E).
Qed.

(** X14.  In the runs of the service a record is never deleted and
    never changes its identity: after every step each record is stored
    under its own identifier, each record stored before is still
    stored, under the same key, with the question and the creation time
    it had, and the four collections are the same arrays. *)
Theorem service_records_keep_identity
        (es : list event) (e : event) (s s' : service) :
  run es idle = Some s ->
  step e s = Some s' ->
  wellKeyed (queries (storage s')) /\
  (forall k q, queries (storage s) !! k = Some q ->
     exists q', queries (storage s') !! k = Some q' /\
                Schema.id q' = k /\
                Schema.userQuestion q' = Schema.userQuestion q /\
                Schema.createdAt q' = Schema.createdAt q) /\
  (salesOrders (storage s'), workOrders (storage s'),
   invoices (storage s'), inventoryItems (storage s')) =
  (salesOrders (storage s), workOrders (storage s),
   invoices (storage s), inventoryItems (storage s)).
Proof.
  intros Hrun Hstep.
  assert (Hk0 : wellKeyed (queries (storage idle))) by (intros k q; cbn; now rewrite lookup_empty).
  pose proof (run_wellKeyed es idle s Hk0 Hrun) as Hk.
  pose proof (step_wellKeyed e s s' Hk Hstep) as Hk'.
  split; [exact Hk'|].
  destruct (step_shape e s s' Hstep) as [Hcols Hq]. split; [|exact Hcols].
  intros k q Hkq.
  destruct Hq as [(id & now & iq & _ & Hfresh & E)|(id & p & _ & [E|(q0 & q' & Hq0 & E & Hid & Hu & Hc)])].
  - exists q. rewrite E, lookup_insert_ne by congruence.
    split; [assumption|]. split; [now apply Hk | auto].
  - exists q. rewrite E. split; [assumption|]. split; [now apply Hk | auto].
  - destruct (decide (id = k)) as [<-|Hne].
    + exists q'. rewrite E, lookup_insert_eq. split; [reflexivity|].
      assert (q0 = q) as -> by congruence.
      split; [rewrite Hid; now apply Hk | auto].
    + exists q. rewrite E, lookup_insert_ne by assumption.
      split; [assumption|]. split; [now apply Hk | auto].
Qed.

End ServiceRecords.

Lemma service_records_keep_identity_witness :
  let s := {| storage := snd (createQuery "q-1" 7 question freshStorage);
              pending := {["q-1"]} ∪ ∅ |} in
  let s' := {| storage := processQueryAsync "q-1" (Failed "AI processing failed: timeout" 30)
                            (storage s);
               pending := pending s ∖ {["q-1"]} |} in
  wellKeyed (queries (storage s')) /\
  exists q', queries (storage s') !! "q-1" = Some q' /\
             Schema.userQuestion q' = "Show me all delayed work orders" /\
             Schema.createdAt q' = 7%Z.
Proof.
  intros s s'.
  destruct (service_records_keep_identity [Submit "q-1" 7 question]
              (Finish "q-1" (Failed "AI processing failed: timeout" 30)) s s'
              ltac:(vm_compute; reflexivity) ltac:(vm_compute; reflexivity))
    as (Hk & Hkeep & _).
  split; [exact Hk|].
  destruct (Hkeep "q-1" (fst (createQuery "q-1" 7 question freshStorage))
              ltac:(vm_compute; reflexivity)) as (q' & Hq' & _ & Hu & Hc).
  exists q'. split; [exact Hq'|]. split; [exact Hu | exact Hc].
Defined.

(* ===================================================================== *)
(** ** The query history *)
(* ===================================================================== *)

Section History.
Import SortFacts NumberFacts RankFacts.

Lemma Map_values_Forall2 {V} (order : list string) (m : gmap string V) (records : list V) :
  Forall2 (fun k q => m !! k = Some q) order records -> Map_values order m = records.
Proof.
  unfold Map_values. induction 1 as [|k q ks qs Hk _ IH]; [reflexivity|].
  cbn. rewrite Hk. cbn. now rewrite IH.
Qed.

Lemma stored_records (order : list string) (this : MemStorage) :
  (forall k, In k order -> is_Some (queries this !! k)) ->
  exists records, Forall2 (fun k q => getQuery k this = Some q) order records.
Proof.
  induction order as [|k ks IH]; intros H; [exists []; constructor|].
  destruct (H k (or_introl eq_refl)) as [q Hq].
  destruct IH as (qs & Hqs); [intros k' Hk'; apply H; now right|].
  exists (q :: qs). now constructor.
Qed.

Lemma newestFirst_rank (a b : Schema.Query) :
  True -> True -> negative (newestFirst a b) = rankLt (historyRank a) (historyRank b).
Proof.
  intros _ _. unfold newestFirst, historyRank. rewrite negative_sub_ofZ. cbn.
  destruct (Z.ltb_spec (Schema.createdAt b) (Schema.createdAt a)),
           (Z.ltb_spec (- Schema.createdAt a) (- Schema.createdAt b)); try reflexivity; lia.
Qed.

Lemma Forall_True {A} (l : list A) : Forall (fun _ => True) l.
Proof. apply List.Forall_forall. auto. Qed.

Lemma history_sorted (records : list Schema.Query) :
  StronglySorted (fun first second => (Schema.createdAt second <= Schema.createdAt first)%Z)
                 (sortList newestFirst records).
Proof.
  refine (StronglySorted_weaken _ _ _ _
            (sortList_by_rank newestFirst historyRank (fun _ => True) newestFirst_rank
               records (Forall_True _))).
  intros a b _ _ H. unfold historyRank in H. cbn in H. lia.
Qed.

Lemma history_stable (records : list Schema.Query) (t : Z) :
  List.filter (createdAtTime t) (sortList newestFirst records) =
  List.filter (createdAtTime t) records.
Proof.
  apply (sortList_stable newestFirst historyRank (fun _ => True) newestFirst_rank);
    [|apply Forall_True].
  intros y z Hy Hz. unfold createdAtTime in Hy, Hz. unfold historyRank. f_equal. lia.
Qed.

Lemma enumerates_size (order : list string) (this : MemStorage) :
  enumerates order this -> length order = size (queries this).
Proof.
  intros [Hnd Hin]. rewrite <- size_dom.
  assert (E : dom (queries this) = list_to_set order).
  { apply set_eq. intros k. rewrite elem_of_dom, elem_of_list_to_set, list_elem_of_In.
    symmetry. apply Hin. }
  rewrite E. symmetry. apply size_list_to_set. exact Hnd.
Qed.

(** X15.  [getQueryHistory] returns every stored record exactly once,
    newest first: no record comes before one created later, and the
    records of one creation time keep the order in which their keys
    were first set. *)
Theorem getQueryHistory_newest_first (order : list string) (this : MemStorage) :
  enumerates order this ->
  let history := getQueryHistory order this in
  exists records,
    Forall2 (fun k q => getQuery k this = Some q) order records /\
    Permutation history records /\
    length history = size (queries this) /\
    StronglySorted
      (fun first second => (Schema.createdAt second <= Schema.createdAt first)%Z) history /\
    (forall t, List.filter (createdAtTime t) history = List.filter (createdAtTime t) records).
Proof.
  intros Henum history. subst history. unfold getQueryHistory.
  destruct (stored_records order this) as (records & Hrec);
    [intros k Hk; now apply (proj2 Henum)|].
  exists records. rewrite (Map_values_Forall2 _ _ _ Hrec).
  split; [exact Hrec|]. split; [apply sortList_perm|]. split; [|split].
  - rewrite (Permutation_length (sortList_perm newestFirst records)).
    rewrite <- (Forall2_length _ _ _ Hrec). now apply enumerates_size.
  - apply history_sorted.
  - apply history_stable.
Qed.

Lemma truncate_inject_Z (z : Z) : truncate (inject_Z z) = z.
Proof. unfold truncate, inject_Z. cbn. apply Z.quot_1_r. Qed.

Lemma slice0_nat {A} (n : nat) (xs : list A) : slice0 (ofZ (Z.of_nat n)) xs = take n xs.
Proof.
  unfold slice0, sliceEnd, ofZ. rewrite truncate_inject_Z.
  destruct (Z.ltb_spec (Z.of_nat n) 0); [lia|].
  destruct (Nat.le_gt_cases n (length xs)).
  - f_equal. lia.
  - rewrite !take_ge by lia. reflexivity.
Qed.

Lemma slice0_negative {A} (n : nat) (xs : list A) :
  0 < n -> slice0 (ofZ (- Z.of_nat n)) xs = take (length xs - n) xs.
Proof.
  intros Hn. unfold slice0, sliceEnd, ofZ. rewrite truncate_inject_Z.
  destruct (Z.ltb_spec (- Z.of_nat n) 0); [|lia]. f_equal. lia.
Qed.

(** X16.  [getRecentQueries] returns the first records of the history:
    five when the limit is omitted, [n] for a limit [n], or all of them
    when there are fewer; a negative limit [-n] drops the last [n]
    instead, and a NaN limit returns nothing.  Whatever the limit, the
    result is a part of the history, in the order of the history. *)
Theorem getRecentQueries_prefix (order : list string) (this : MemStorage) :
  let history := getQueryHistory order this in
  getRecentQueries None order this = take 5 history /\
  (forall n : nat, getRecentQueries (Some (ofZ (Z.of_nat n))) order this = take n history) /\
  (forall n : nat, 0 < n ->
     getRecentQueries (Some (ofZ (- Z.of_nat n))) order this =
     take (length history - n) history) /\
  getRecentQueries (Some NaN) order this = [] /\
  (forall limit, exists n, getRecentQueries limit order this = take n history) /\
  length (getRecentQueries None order this) = Nat.min 5 (length (Map_values order (queries this))).
Proof.
  intros history. subst history. unfold getRecentQueries, getQueryHistory.
  split; [exact (slice0_nat 5 _)|]. split; [intros n; apply slice0_nat|].
  split; [intros n Hn; now apply slice0_negative|]. split; [reflexivity|].
  split; [intros limit; eexists; reflexivity|].
  rewrite (slice0_nat 5), length_take.
  now rewrite (Permutation_length (sortList_perm newestFirst _)).
Qed.

End History.

Section HistoryOfRuns.
Import SortFacts NumberFacts RankFacts.

Lemma Forall2_impl_In {A B} (R S : A -> B -> Prop) (l : list A) (k : list B) :
  Forall2 R l k -> (forall x y, In x l -> R x y -> S x y) -> Forall2 S l k.
Proof.
  induction 1 as [|x y l k Hxy _ IH]; intros Himp; constructor.
  - apply Himp; [now left | exact Hxy].
  - apply IH. intros x' y' Hx'. apply Himp. now right.
Qed.

Lemma recorded_insert_new ids ts (qs : gmap string Schema.Query) id q :
  recorded ids ts qs -> qs !! id = None ->
  Schema.id q = id ->
  recorded (ids ++ [id]) (ts ++ [Schema.createdAt q]) (<[id := q]> qs).
Proof.
  intros (Hnd & Hin & Hf) Hfresh Hid.
  assert (Hnot : ~ In id ids).
  { intros Hi. apply Hin in Hi as [x Hx]. congruence. }
  split; [|split].
  - apply NoDup_app. split; [exact Hnd|]. split; [|apply NoDup_singleton].
    intros k Hk Hk'. apply list_elem_of_In in Hk.
    apply list_elem_of_singleton in Hk'. subst k. contradiction.
  - intros k. rewrite in_app_iff. cbn. destruct (decide (id = k)) as [<-|Hne].
    + rewrite lookup_insert_eq. split; [eauto | auto].
    + rewrite lookup_insert_ne by assumption. rewrite <- Hin.
      split; [intros [H|[H|[]]]; [exact H | contradiction] | auto].
  - apply Forall2_app.
    + apply (Forall2_impl_In _ _ _ _ Hf).
      intros k t Hk (q0 & Hq0 & Hrest). exists q0. split; [|exact Hrest].
      rewrite lookup_insert_ne; [exact Hq0|]. now intros <-.
    + constructor; [|constructor]. exists q. rewrite lookup_insert_eq. auto.
Qed.

Lemma recorded_insert_same ids ts (qs : gmap string Schema.Query) id q q' :
  recorded ids ts qs -> qs !! id = Some q ->
  Schema.id q' = Schema.id q -> Schema.createdAt q' = Schema.createdAt q ->
  recorded ids ts (<[id := q']> qs).
Proof.
  intros (Hnd & Hin & Hf) Hq Hid Hc. split; [exact Hnd|]. split.
  - intros k. rewrite Hin. destruct (decide (id = k)) as [<-|Hne].
    + rewrite lookup_insert_eq, Hq. split; eauto.
    + now rewrite lookup_insert_ne.
  - apply (Forall2_impl_In _ _ _ _ Hf).
    intros k t _ (q0 & Hq0 & Hk & Ht). destruct (decide (id = k)) as [<-|Hne].
    + exists q'. rewrite lookup_insert_eq. split; [reflexivity|].
      assert (q0 = q) as -> by congruence. split; congruence.
    + exists q0. now rewrite lookup_insert_ne.
Qed.

Lemma step_recorded e s s' ids ts :
  recorded ids ts (queries (storage s)) -> step e s = Some s' ->
  recorded (ids ++ submitted [e]) (ts ++ clocks [e]) (queries (storage s')).
Proof.
  intros Hrec Hstep.
  destruct (step_shape e s s' Hstep)
    as [_ [(id & now & iq & -> & Hfresh & ->)|
           (id & p & -> & [->|(q & q' & Hq & -> & Hid & _ & Hc)])]]; cbn.
  - exact (recorded_insert_new ids ts _ id (fst (createQuery id now iq (storage s)))
             Hrec Hfresh eq_refl).
  - now rewrite !List.app_nil_r.
  - rewrite !List.app_nil_r. exact (recorded_insert_same ids ts _ id q q' Hrec Hq Hid Hc).
Qed.

Lemma submitted_cons e es : submitted (e :: es) = submitted [e] ++ submitted es.
Proof. destruct e; reflexivity. Qed.

Lemma clocks_cons e es : clocks (e :: es) = clocks [e] ++ clocks es.
Proof. destruct e; reflexivity. Qed.

Lemma run_recorded es : forall s s' ids ts,
  recorded ids ts (queries (storage s)) -> run es s = Some s' ->
  recorded (ids ++ submitted es) (ts ++ clocks es) (queries (storage s')).
Proof.
  induction es as [|e es IH]; intros s s' ids ts Hrec Hrun; cbn [run] in Hrun.
  - injection Hrun as <-. cbn. now rewrite !List.app_nil_r.
  - destruct (step e s) as [s1|] eqn:E; [|discriminate].
    rewrite submitted_cons, clocks_cons, !List.app_assoc.
    apply (IH s1); [|exact Hrun]. exact (step_recorded e s s1 ids ts Hrec E).
Qed.

Lemma recorded_records ids ts (qs : gmap string Schema.Query) :
  recorded ids ts qs ->
  exists records,
    Forall2 (fun k q => qs !! k = Some q) ids records /\
    map Schema.id records = ids /\
    map Schema.createdAt records = ts.
Proof.
  intros (_ & _ & Hf). induction Hf as [|k t ks ts' (q & Hq & Hk & Ht) _ (qs' & H1 & H2 & H3)].
  - exists []. repeat split. constructor.
  - exists (q :: qs'). split; [now constructor|]. cbn. split; congruence.
Qed.

Lemma insertSorted_last {A} (cmp : A -> A -> number) x acc :
  Forall (fun y => negative (cmp x y) = true) acc ->
  insertSorted cmp x acc = acc ++ [x].
Proof.
  induction 1 as [|y acc Hy _ IH]; [reflexivity|].
  cbn [insertSorted]. rewrite Hy, IH. reflexivity.
Qed.

(** A list in which every element is put before all the earlier ones
    is reversed by the sort. *)
Lemma sortList_reverses {A} (cmp : A -> A -> number) l :
  StronglySorted (fun earlier later => negative (cmp later earlier) = true) l ->
  sortList cmp l = rev l.
Proof.
  intros Hs. unfold sortList. f_equal.
  enough (H : forall acc,
            StronglySorted (fun earlier later => negative (cmp later earlier) = true)
                           (acc ++ l) ->
            fold_left (fun acc x => insertSorted cmp x acc) l acc = acc ++ l)
    by exact (H [] Hs).
  clear Hs. induction l as [|x l IH]; intros acc Hs; cbn [fold_left].
  - now rewrite List.app_nil_r.
  - assert (Hx : Forall (fun y => negative (cmp x y) = true) acc).
    { clear IH. induction acc as [|y acc IHacc]; [constructor|].
      cbn in Hs. apply StronglySorted_inv in Hs as [Hs Hy]. constructor.
      - rewrite List.Forall_forall in Hy. apply Hy. apply in_or_app. right. now left.
      - now apply IHacc. }
    rewrite (insertSorted_last cmp x acc Hx), IH; rewrite <- List.app_assoc; [reflexivity|].
    exact Hs.
Qed.

Lemma recorded_idle : recorded [] [] (queries (storage idle)).
Proof.
  split; [constructor|]. split; [|constructor].
  intros k. cbn. rewrite lookup_empty. split; [intros [] | intros [x Hx]; discriminate].
Qed.

(** X17.  The history in the runs of the service.  After any run the
    query map holds exactly the records submitted, each once, so that
    [getQueryHistory] lists the identifiers of all submissions; and when
    the clock has advanced from each submission to the next, it lists
    them in the reverse of the order of submission, the latest
    first. *)
Theorem history_of_a_run (es : list event) (s : service) :
  run es idle = Some s ->
  let history := getQueryHistory (submitted es) (storage s) in
  enumerates (submitted es) (storage s) /\
  Permutation (map Schema.id history) (submitted es) /\
  (StronglySorted Z.lt (clocks es) -> map Schema.id history = rev (submitted es)).
Proof.
  intros Hrun history. subst history.
  pose proof (run_recorded es idle s [] [] recorded_idle Hrun) as Hrec. cbn in Hrec.
  destruct (recorded_records _ _ _ Hrec) as (records & Hf & Hids & Hts).
  unfold getQueryHistory. rewrite (Map_values_Forall2 _ _ _ Hf).
  split; [destruct Hrec as (Hnd & Hin & _); split; assumption|]. split.
  - rewrite <- Hids. apply Permutation_map, sortList_perm.
  - intros Hclock. rewrite sortList_reverses.
    + now rewrite map_rev, Hids.
    + rewrite <- Hts in Hclock. clear -Hclock.
      induction records as [|q qs IH]; [constructor|].
      cbn in Hclock. apply StronglySorted_inv in Hclock as [Hs Hq].
      constructor; [now apply IH|].
      rewrite List.Forall_forall in Hq |- *. intros q' Hq'.
      unfold newestFirst. rewrite negative_sub_ofZ.
      apply Z.ltb_lt. apply Hq. now apply in_map.
Qed.

End HistoryOfRuns.

Lemma getQueryHistory_newest_first_witness :
  let this := storage (default idle (run threeSubmissions idle)) in
  map Schema.id (getQueryHistory ["q-1"; "q-2"; "q-3"] this) = ["q-2"; "q-3"; "q-1"] /\
  exists records,
    Permutation (getQueryHistory ["q-1"; "q-2"; "q-3"] this) records /\
    length (getQueryHistory ["q-1"; "q-2"; "q-3"] this) = size (queries this).
Proof.
  intros this. split; [vm_compute; reflexivity|].
  destruct (getQueryHistory_newest_first ["q-1"; "q-2"; "q-3"] this)
    as (records & _ & Hperm & Hlen & _).
  - destruct (run_recorded threeSubmissions idle (default idle (run threeSubmissions idle))
                [] [] recorded_idle ltac:(vm_compute; reflexivity)) as (Hnd & Hin & _).
    split; [exact Hnd | exact Hin].
  - exists records. split; [exact Hperm | exact Hlen].
Defined.

Lemma history_of_a_run_witness :
  map Schema.id
      (getQueryHistory ["q-1"; "q-2"]
         (storage (default idle (run (take 3 threeSubmissions) idle)))) =
  ["q-2"; "q-1"].
Proof.
  refine (proj2 (proj2 (history_of_a_run (take 3 threeSubmissions)
                          (default idle (run (take 3 threeSubmissions) idle))
                          ltac:(vm_compute; reflexivity))) _).
  vm_compute. repeat constructor.
Defined.

(* ===================================================================== *)
(** ** The dashboard metrics *)
(* ===================================================================== *)

Section DashboardFacts.
Context {rt : JsRuntime}.

Lemma contents_app_old (h k : heap) (l : loc) :
  l < length h -> contents (h ++ k) l = contents h l.
Proof. intros Hl. unfold contents. now rewrite lookup_app_l. Qed.

(** The metrics, and the heap the call leaves: the four arrays its
    filters allocate are added at the end. *)
Lemma getDashboardMetrics_eq this now h :
  allocated this h ->
  let sales := contents h (salesOrders this) in
  let completed := List.filter (hasStatus "completed") sales in
  let pending := List.filter (hasStatus "pending") sales in
  let active := List.filter (hasStatus "in-progress") (contents h (workOrders this)) in
  let overdue :=
    List.filter (fun i => hasStatus "pending" i &&
                          dateLt (newDate (getProp i "dueDate")) (Some now))
                (contents h (invoices this)) in
  getDashboardMetrics this now h =
  (Normal {| Metrics.totalSales :=
               fold_left (fun sum o => add sum (parseFloat (getProp o "totalAmount")))
                         completed (Fin 0);
             Metrics.pendingOrders := length pending;
             Metrics.activeWorkOrders := length active;
             Metrics.overdueInvoices := length overdue |},
   h ++ [completed; pending; active; overdue]).
Proof.
  intros (Hs & Hw & Hi & _) sales completed pending active overdue.
  unfold getDashboardMetrics, Array_filter, Array_reduce, Array_length, bind, load, alloc, ret.
  cbn beta iota.
  rewrite !contents_alloc.
  rewrite !contents_app_old by (rewrite ?length_app; cbn [length]; lia).
  f_equal. now rewrite <- !List.app_assoc.
Qed.

Lemma filter_disjoint_length {A} (p q : A -> bool) (l : list A) :
  (forall x, p x = true -> q x = false) ->
  length (List.filter p l) + length (List.filter q l) <= length l.
Proof.
  intros Hd. induction l as [|x l IH]; cbn; [lia|].
  destruct (p x) eqn:Px; [rewrite (Hd x Px)|destruct (q x)]; cbn; lia.
Qed.

Lemma filter_and_length {A} (p q : A -> bool) (l : list A) :
  length (List.filter (fun x => p x && q x) l) <= length (List.filter p l).
Proof.
  induction l as [|x l IH]; cbn; [lia|].
  destruct (p x), (q x); cbn; lia.
Qed.

Lemma hasStatus_disjoint s t r : s <> t -> hasStatus s r = true -> hasStatus t r = false.
Proof.
  intros Hne H. unfold hasStatus in *. apply strictEqStr_true in H. rewrite H. cbn.
  now apply String.eqb_neq.
Qed.

(** X18.  [getDashboardMetrics] reads the three collections and
    writes none: every array that existed before the call is as it
    was, and the heap has the four arrays of its filters more.  Its
    counts are consistent: the pending and the completed sales orders
    together are at most the sales orders, the active work orders at
    most the work orders, and the overdue invoices are among the
    pending invoices. *)
Theorem getDashboardMetrics_reads_only (this : MemStorage) (now : Z) (h : heap) :
  allocated this h ->
  exists metrics h',
    getDashboardMetrics this now h = (Normal metrics, h') /\
    (forall l0, l0 < length h -> h' !! l0 = h !! l0) /\
    length h' = length h + 4 /\
    Metrics.pendingOrders metrics =
      length (List.filter (hasStatus "pending") (contents h (salesOrders this))) /\
    Metrics.activeWorkOrders metrics =
      length (List.filter (hasStatus "in-progress") (contents h (workOrders this))) /\
    Metrics.pendingOrders metrics +
      length (List.filter (hasStatus "completed") (contents h (salesOrders this)))
      <= length (contents h (salesOrders this)) /\
    Metrics.activeWorkOrders metrics <= length (contents h (workOrders this)) /\
    Metrics.overdueInvoices metrics
      <= length (List.filter (hasStatus "pending") (contents h (invoices this))).
Proof.
  intros Halloc. eexists _, _. split; [exact (getDashboardMetrics_eq this now h Halloc)|].
  cbn [Metrics.pendingOrders Metrics.activeWorkOrders Metrics.overdueInvoices].
  split; [intros l0 Hl0; now rewrite lookup_app_l|].
  split; [rewrite length_app; reflexivity|].
  split; [reflexivity|]. split; [reflexivity|].
  split; [apply filter_disjoint_length; intros r; now apply hasStatus_disjoint|].
  split; [apply List.filter_length_le|].
  apply (filter_and_length (hasStatus "pending")).
Qed.

(** The filter of the statement for overdue invoices. *)
Lemma overdueSql_callback now r :
  whereCallback "status = 'pending' AND due_date < GETDATE()" now r =
  hasStatus "pending" r &&
  negb (truthy (getProp r "dueDate") && dateGe (newDate (getProp r "dueDate")) (Some now)).
Proof.
  set (wc := "status = 'pending' AND due_date < GETDATE()").
  assert (Hs : exists m, jsMatch wc STATUS_RE = Some m /\ group m 1 = Some "pending")
    by (vm_compute; eexists; split; reflexivity).
  assert (Hd : exists m, jsMatch wc DUE_DATE_RE = Some m)
    by (vm_compute; eexists; reflexivity).
  assert (Hp : jsMatch wc PRIORITY_RE = None) by (vm_compute; reflexivity).
  assert (Hg : jsMatch wc REGION_RE = None) by (vm_compute; reflexivity).
  assert (Hsd : jsMatch wc SCHEDULED_DATE_RE = None) by (vm_compute; reflexivity).
  assert (Hl : jsMatch wc LOW_STOCK_RE = None) by (vm_compute; reflexivity).
  assert (Hq : jsMatch wc QUARTER_RE = None) by (vm_compute; reflexivity).
  assert (Ho : jsMatch wc DELAYED_OR_RE = None) by (vm_compute; reflexivity).
  destruct Hs as (ms & Hms & Hv). destruct Hd as (md & Hmd).
  unfold whereCallback.
  rewrite (equalityRejects_eq STATUS_RE "status" wc ms "pending" r Hms Hv).
  rewrite (equalityRejects_absent PRIORITY_RE "priority" wc r Hp).
  rewrite (equalityRejects_absent REGION_RE "region" wc r Hg).
  unfold notBeforeNowRejects, lowStockRejects, quarterRejects, delayedOrRejects.
  rewrite Hmd, Hsd, Hl, Hq, Ho. unfold hasStatus.
  destruct (strictEqStr (getProp r "status") "pending"); cbn; [|reflexivity].
  now destruct (truthy (getProp r "dueDate") &&
                dateGe (newDate (getProp r "dueDate")) (Some now)).
Qed.

Lemma overdueSql_rows this now h :
  resultRows (executeSqlQuery this overdueSql now h) =
  Normal (List.filter
            (whereCallback "status = 'pending' AND due_date < GETDATE()" now)
            (contents h (invoices this))).
Proof.
  assert (Hs : startsWith (lowered overdueSql) "select" = true) by (vm_compute; reflexivity).
  assert (Hsel : selectTable this (lowered overdueSql) =
                 (do data <- Array_spread (invoices this); ret (data, "invoices")))
    by (vm_compute; reflexivity).
  rewrite (answersFrom_Normal _ _ _ _ _ (executeSqlQuery_on _ _ _ _ _ _ Hs Hsel)).
  apply f_equal. unfold stagesRows, limitRows, orderRows, whereRows.
  replace (limitOf overdueSql) with (@None (option N)) by (vm_compute; reflexivity).
  replace (jsMatch overdueSql ORDER_BY_RE) with (@None captures) by (vm_compute; reflexivity).
  replace (whereClauseOf overdueSql)
    with (Some "status = 'pending' AND due_date < GETDATE()") by (vm_compute; reflexivity).
  reflexivity.
Qed.

(** X19.  The dashboard and the statement agree.  When every invoice
    holds a valid due date, the count [overdueInvoices] is the number
    of rows that [executeSqlQuery] returns for the statement the prompt
    prescribes for overdue invoices, read at the same clock; and those
    rows are the invoices with status [pending] that are due strictly
    before the clock. *)
Theorem overdueInvoices_agrees_with_statement (this : MemStorage) (now : Z) (h : heap) :
  allocated this h ->
  (forall r, In r (contents h (invoices this)) ->
     exists t, getProp r "dueDate" = VDate (Some t)) ->
  exists metrics h' rows,
    getDashboardMetrics this now h = (Normal metrics, h') /\
    resultRows (executeSqlQuery this overdueSql now h) = Normal rows /\
    Metrics.overdueInvoices metrics = length rows /\
    rows = List.filter
             (fun r => hasStatus "pending" r &&
                       match timeAt "dueDate" r with
                       | Some t => (t <? now)%Z
                       | None => false
                       end)
             (contents h (invoices this)).
Proof.
  intros Halloc Hvalid. eexists _, _, _.
  split; [exact (getDashboardMetrics_eq this now h Halloc)|].
  split; [apply overdueSql_rows|].
  cbn [Metrics.overdueInvoices].
  assert (E1 : forall r, In r (contents h (invoices this)) ->
             whereCallback "status = 'pending' AND due_date < GETDATE()" now r =
             hasStatus "pending" r &&
             match timeAt "dueDate" r with Some t => (t <? now)%Z | None => false end).
  { intros r Hr. rewrite overdueSql_callback. destruct (Hvalid r Hr) as (t & Ht).
    unfold timeAt. rewrite Ht. cbn. f_equal.
    destruct (Z.leb_spec now t), (Z.ltb_spec t now); try reflexivity; lia. }
  assert (E2 : forall r, In r (contents h (invoices this)) ->
             hasStatus "pending" r && dateLt (newDate (getProp r "dueDate")) (Some now) =
             hasStatus "pending" r &&
             match timeAt "dueDate" r with Some t => (t <? now)%Z | None => false end).
  { intros r Hr. destruct (Hvalid r Hr) as (t & Ht). unfold timeAt. now rewrite Ht. }
  rewrite (List.filter_ext_in _ _ _ E1), (List.filter_ext_in _ _ _ E2). split; reflexivity.
Qed.

End DashboardFacts.

Lemma getDashboardMetrics_reads_only_witness :
  exists metrics h',
    getDashboardMetrics (rt := plainHost) freshStorage 5000 exampleHeap = (Normal metrics, h') /\
    Metrics.pendingOrders metrics = 2 /\
    Metrics.activeWorkOrders metrics = 1 /\
    length h' = 8.
Proof.
  destruct (getDashboardMetrics_reads_only (rt := plainHost) freshStorage 5000 exampleHeap
              ltac:(vm_compute; repeat split; lia))
    as (metrics & h' & E & _ & Hlen & Hp & Ha & _).
  exists metrics, h'. split; [exact E|]. split; [exact Hp|]. split; [exact Ha | exact Hlen].
Defined.

Lemma overdueInvoices_agrees_with_statement_witness :
  exists metrics h' rows,
    getDashboardMetrics (rt := plainHost) freshStorage 5000 exampleHeap = (Normal metrics, h') /\
    resultRows (executeSqlQuery (rt := plainHost) freshStorage overdueSql 5000 exampleHeap) =
      Normal rows /\
    Metrics.overdueInvoices metrics = length rows /\
    rows = [invoice "INV-1" "pending" 10].
Proof.
  destruct (overdueInvoices_agrees_with_statement (rt := plainHost) freshStorage 5000
              exampleHeap ltac:(vm_compute; repeat split; lia))
    as (metrics & h' & rows & E & Hrows & Hlen & Hfilter).
  - intros r Hr. vm_compute in Hr.
    destruct Hr as [<-|[<-|[<-|[]]]]; eexists; vm_compute; reflexivity.
  - exists metrics, h', rows. split; [exact E|]. split; [exact Hrows|].
    split; [exact Hlen | exact Hfilter].
Defined.

Section TotalSales.
Context {rt : JsRuntime}.
Local Open Scope Q_scope.

Lemma pow2Q_pos (e : Z) : 0 < pow2Q e.
Proof.
  unfold pow2Q. destruct (Z.leb_spec 0 e).
  - change 0 with (inject_Z 0). rewrite <- Zlt_Qlt. now apply Z.pow_pos_nonneg.
  - apply Qlt_shift_div_l.
    + change 0 with (inject_Z 0). rewrite <- Zlt_Qlt. apply Z.pow_pos_nonneg; lia.
    + rewrite Qmult_0_l. reflexivity.
Qed.

Lemma roundHalfEven_nonneg (x y : Z) : (0 <= x)%Z -> (0 < y)%Z -> (0 <= roundHalfEven x y)%Z.
Proof.
  intros Hx Hy. unfold roundHalfEven.
  assert (0 <= x / y)%Z by (apply Z.div_pos; lia).
  destruct (_ <? _)%Z; [assumption|]. destruct (_ <? _)%Z; [lia|].
  destruct (Z.even _); lia.
Qed.

Lemma roundDouble_nonNegative (q : Q) : 0 < q -> nonNegative (roundDouble q).
Proof.
  intros Hq. unfold roundDouble.
  set (u := (Z.max (floorLog2 q) (-1022) - 52)%Z).
  set (m := q / pow2Q u).
  destruct (_ || _); [reflexivity|]. cbn [nonNegative].
  rewrite Qred_correct.
  assert (Hm : 0 <= m).
  { unfold m. apply Qle_shift_div_l; [apply pow2Q_pos|]. rewrite Qmult_0_l.
    now apply Qlt_le_weak. }
  apply Qmult_le_0_compat; [|apply Qlt_le_weak, pow2Q_pos].
  change 0 with (inject_Z 0). rewrite <- Zle_Qle.
  apply roundHalfEven_nonneg; [|reflexivity].
  clearbody m. destruct m as [mn md]. unfold Qle in Hm. cbn in Hm |- *. lia.
Qed.

Lemma add_nonNegative (a b : number) :
  nonNegative a -> nonNegative b -> nonNegative (add a b).
Proof.
  destruct a as [|s|x], b as [|t|y]; cbn; try contradiction; try (intros -> ->; reflexivity);
    try (intros; assumption).
  intros Hx Hy. unfold roundSigned.
  destruct (Qcompare_spec (x + y) 0) as [E|E|E].
  - cbn. apply Qle_refl.
  - exfalso. apply (Qlt_not_le _ _ E).
    rewrite <- (Qplus_0_l 0). now apply Qplus_le_compat.
  - now apply roundDouble_nonNegative.
Qed.

Lemma add_NaN_r (a : number) : add a NaN = NaN.
Proof. now destruct a. Qed.

Lemma fold_add_NaN {A} (f : A -> number) (l : list A) :
  fold_left (fun sum o => add sum (f o)) l NaN = NaN.
Proof. induction l as [|x l IH]; cbn; [reflexivity | exact IH]. Qed.

Lemma fold_add_poisoned {A} (f : A -> number) (l : list A) (init : number) :
  (exists x, In x l /\ f x = NaN) ->
  fold_left (fun sum o => add sum (f o)) l init = NaN.
Proof.
  intros (x & Hx & Hn). revert init.
  induction l as [|y l IH]; intros init; [contradiction|]. cbn.
  destruct Hx as [->|Hx].
  - rewrite Hn, add_NaN_r. apply fold_add_NaN.
  - now apply IH.
Qed.

Lemma fold_add_nonNegative {A} (f : A -> number) (l : list A) (init : number) :
  nonNegative init -> (forall x, In x l -> nonNegative (f x)) ->
  nonNegative (fold_left (fun sum o => add sum (f o)) l init).
Proof.
  revert init. induction l as [|y l IH]; intros init Hi Hl; cbn; [assumption|].
  apply IH.
  - apply add_nonNegative; [assumption|]. apply Hl. now left.
  - intros x Hx. apply Hl. now right.
Qed.

Local Close Scope Q_scope.

(** X20.  The total of the sales.  [totalSales] adds [parseFloat] of
    the amount of every completed sales order, in the order of the
    collection, starting from 0.  It is 0 when no order is completed;
    it is NaN as soon as the amount of one completed order does not
    read as a number; and when every completed order has an amount
    that reads as a number not below zero, it is a number not below
    zero (possibly Infinity), not NaN. *)
Theorem totalSales_of_amounts (this : MemStorage) (now : Z) (h : heap) :
  allocated this h ->
  let sales := contents h (salesOrders this) in
  let amount r := parseFloat (getProp r "totalAmount") in
  exists metrics h',
    getDashboardMetrics this now h = (Normal metrics, h') /\
    Metrics.totalSales metrics =
      fold_left (fun sum o => add sum (amount o))
                (List.filter (hasStatus "completed") sales) (Fin 0) /\
    ((forall r, In r sales -> hasStatus "completed" r = false) ->
     Metrics.totalSales metrics = Fin 0) /\
    ((exists r, In r sales /\ hasStatus "completed" r = true /\ amount r = NaN) ->
     Metrics.totalSales metrics = NaN) /\
    ((forall r, In r sales -> hasStatus "completed" r = true -> nonNegative (amount r)) ->
     nonNegative (Metrics.totalSales metrics)).
Proof.
  intros Halloc sales amount. eexists _, _.
  split; [exact (getDashboardMetrics_eq this now h Halloc)|].
  cbn [Metrics.totalSales]. fold sales. split; [reflexivity|]. split; [|split].
  - intros Hnone.
    replace (List.filter (hasStatus "completed") sales) with (@nil row); [reflexivity|].
    symmetry. induction sales as [|r l IH]; [reflexivity|]. cbn.
    rewrite (Hnone r) by now left. apply IH. intros r' Hr'. apply Hnone. now right.
  - intros (r & Hr & Hc & Hn). apply (fold_add_poisoned amount).
    exists r. split; [|exact Hn]. apply filter_In. now split.
  - intros Hall. apply (fold_add_nonNegative amount).
    + cbn. apply Qle_refl.
    + intros r Hr. apply filter_In in Hr as [Hr Hc]. now apply Hall.
Qed.

End TotalSales.

Lemma totalSales_of_amounts_witness :
  exists metrics h',
    getDashboardMetrics (rt := plainHost) freshStorage 5000 exampleHeap = (Normal metrics, h') /\
    Metrics.totalSales metrics = add (Fin 0) (literal "80.25") /\
    nonNegative (Metrics.totalSales metrics).
Proof.
  destruct (totalSales_of_amounts (rt := plainHost) freshStorage 5000 exampleHeap
              ltac:(vm_compute; repeat split; lia))
    as (metrics & h' & E & Hsum & _ & _ & Hnn).
  exists metrics, h'. split; [exact E|]. split; [exact Hsum|].
  apply Hnn. intros r Hr Hc. vm_compute in Hr.
  destruct Hr as [<-|[<-|[<-|[]]]]; try discriminate Hc.
  vm_compute. discriminate.
Defined.

(* ===================================================================== *)
(** ** The fallback generator *)
(* ===================================================================== *)

Section Fallback.
Context {rt : JsRuntime}.

Lemma executeSqlQuery_named this sql now h table :
  startsWith (lowered sql) "select" = true ->
  namedTable this (lowered sql) = Some table ->
  answersFrom (contents h table) sql now h (executeSqlQuery this sql now h).
Proof.
  intros Hs Hn.
  destruct (executeSqlQuery_cases this sql now h)
    as [(Hs' & _)|[(_ & Hn' & _)|(_ & table' & Hn' & A)]]; [congruence | congruence |].
  assert (table' = table) as -> by congruence. exact A.
Qed.

(** A statement with a table and a limit runs, and returns at most
    that many rows of the table. *)
Lemma limited_statement_runs this sql now h table n :
  startsWith (lowered sql) "select" = true ->
  namedTable this (lowered sql) = Some table ->
  limitOf sql = Some (Some n) ->
  exists rows,
    resultRows (executeSqlQuery this sql now h) = Normal rows /\
    length rows <= N.to_nat n /\
    rows ⊆+ contents h table.
Proof.
  intros Hs Hn Hlim. eexists. split.
  - exact (answersFrom_Normal _ _ _ _ _ (executeSqlQuery_named _ _ _ _ _ Hs Hn)).
  - split; [|apply stagesRows_submseteq].
    unfold stagesRows, limitRows. rewrite Hlim. rewrite length_take. lia.
Qed.

(** X21.  Whatever the question, the statement of the fallback
    generator can be run: on every store [executeSqlQuery] accepts it,
    finds its table and returns rows of that table, at most twenty of
    them. *)
Theorem fallback_statement_always_runs :
  forall (userQuestion : string) (this : MemStorage) (now : Z) (h : heap),
    let sql := Generation.sql (generateFallbackSQL userQuestion) in
    exists table rows,
      namedTable this (lowered sql) = Some table /\
      resultRows (executeSqlQuery this sql now h) = Normal rows /\
      length rows <= 20 /\
      rows ⊆+ contents h table.
Proof.
  intros userQuestion this now h. unfold generateFallbackSQL.
  set (q := toLowerCase userQuestion). cbv zeta.
  destruct (includes q "pending" && includes q "sales");
    [|destruct (includes q "delayed" && includes q "work");
      [|destruct (includes q "overdue" && includes q "invoice");
        [|destruct (includes q "low" && includes q "inventory");
          [|destruct (includes q "sales");
            [|destruct (includes q "work");
              [|destruct (includes q "invoice");
                [|destruct (includes q "inventory")]]]]]]];
    cbn [Generation.sql];
    match goal with
    | |- exists table rows, namedTable this (lowered ?s) = _ /\ _ =>
        let t := eval vm_compute in (namedTable this (lowered s)) in
        let l := eval vm_compute in (limitOf s) in
        match t with
        | Some ?table =>
            match l with
            | Some (Some ?n) =>
                destruct (limited_statement_runs this s now h table n)
                  as (rows & Hrows & Hlen & Hsub);
                [vm_compute; reflexivity | vm_compute; reflexivity | vm_compute; reflexivity
                | exists table, rows; split; [vm_compute; reflexivity|];
                  split; [exact Hrows|]; split; [cbn in Hlen; lia | exact Hsub]]
            end
        end
    end.
Qed.

Lemma lowerChar_idempotent (c : ascii) : lowerChar (lowerChar c) = lowerChar c.
Proof.
  destruct c as [[] [] [] [] [] [] [] []]; vm_compute; reflexivity.
Qed.

Lemma toLowerCase_idempotent (s : string) : toLowerCase (toLowerCase s) = toLowerCase s.
Proof.
  induction s as [|c s IH]; [reflexivity|].
  unfold toLowerCase in *. cbn. now rewrite lowerChar_idempotent, IH.
Qed.

(** X22.  The fallback generator reads the question in lower case
    only, so the letter case of the question does not matter.  It gives
    the default statement, with confidence 0.5, exactly when the
    question names none of [sales], [work], [invoice] and [inventory];
    otherwise its confidence is 0.7 or 0.85. *)
Theorem fallback_reads_subject :
  forall userQuestion : string,
    let result := generateFallbackSQL userQuestion in
    generateFallbackSQL (toLowerCase userQuestion) = result /\
    (namesSubject userQuestion = false <->
     Generation.confidence result = literal "0.5") /\
    (namesSubject userQuestion = false ->
     Generation.sql result = "SELECT * FROM sales_orders ORDER BY order_date DESC LIMIT 10") /\
    (namesSubject userQuestion = true ->
     Generation.confidence result = literal "0.7" \/
     Generation.confidence result = literal "0.85").
Proof.
  intros userQuestion result. subst result. split.
  - unfold generateFallbackSQL. now rewrite toLowerCase_idempotent.
  - unfold generateFallbackSQL, namesSubject.
    set (q := toLowerCase userQuestion). cbv zeta.
    destruct (includes q "pending"), (includes q "sales"), (includes q "delayed"),
             (includes q "work"), (includes q "overdue"), (includes q "invoice"),
             (includes q "low"), (includes q "inventory");
      cbn [andb orb Generation.confidence Generation.sql];
      (split; [split; [discriminate || reflexivity
                      | intros E; try reflexivity; vm_compute in E; discriminate E]|]);
      (split; [discriminate || reflexivity|]);
      intros E; (now left) || (now right) || discriminate E.
Qed.

End Fallback.

Section OverdueFallback.
Context {rt : JsRuntime}.

(** X23.  The fallback statement for overdue invoices does not look
    at the due date.  Its condition [due_date < CURRENT_TIMESTAMP] is
    none of the recognized shapes, so, when every pending invoice holds
    a valid due date or none, the statement returns the first twenty of
    the invoices with status [pending], due or not, in the order of
    their due dates, the earliest first and those without a date at the
    end, invoices of equal due date in the order of the collection: the
    clock plays no part in the answer. *)
Theorem overdue_fallback_ignores_due_date
        (this : MemStorage) (now : Z) (h : heap) :
  let pending := List.filter (hasStatus "pending") (contents h (invoices this)) in
  (forall r, In r pending ->
     nullAt "dueDate" r = true \/ exists t, getProp r "dueDate" = VDate (Some t)) ->
  overdueFallbackSql =
    "SELECT * FROM invoices WHERE status = 'pending' AND due_date < CURRENT_TIMESTAMP ORDER BY due_date ASC LIMIT 20" /\
  exists sorted,
    resultRows (executeSqlQuery this overdueFallbackSql now h) = Normal (take 20 sorted) /\
    Permutation sorted pending /\
    nullsLast "dueDate" sorted /\
    inTimeOrder "ASC" "dueDate" sorted /\
    (forall t, List.filter (atTime "dueDate" t) sorted =
               List.filter (atTime "dueDate" t) pending).
Proof.
  intros pending Hdated. split; [vm_compute; reflexivity|].
  exists (sortList (orderComparator "dueDate" "ASC") pending).
  split; [|split; [apply SortFacts.sortList_perm|
           split; [apply sortList_nullsLast|
                   exact (sortList_dates "dueDate" "ASC" pending Hdated)]]].
  assert (Hs : startsWith (lowered overdueFallbackSql) "select" = true)
    by (vm_compute; reflexivity).
  assert (Hn : namedTable this (lowered overdueFallbackSql) = Some (invoices this))
    by (vm_compute; reflexivity).
  rewrite (answersFrom_Normal _ _ _ _ _ (executeSqlQuery_named _ _ _ _ _ Hs Hn)).
  apply f_equal. unfold stagesRows, limitRows, orderRows, whereRows.
  replace (limitOf overdueFallbackSql) with (Some (Some 20%N)) by (vm_compute; reflexivity).
  assert (Ho : exists m, jsMatch overdueFallbackSql ORDER_BY_RE = Some m /\
                         columnOf m = "dueDate" /\ directionOf m = "ASC")
    by (vm_compute; eexists; repeat split).
  destruct Ho as (m & -> & -> & ->).
  set (wc := "status = 'pending' AND due_date < CURRENT_TIMESTAMP").
  replace (whereClauseOf overdueFallbackSql) with (Some wc) by (vm_compute; reflexivity).
  change (N.to_nat 20) with 20. do 2 f_equal.
  apply List.filter_ext. intros r.
  assert (Hst : exists ms, jsMatch wc STATUS_RE = Some ms /\ group ms 1 = Some "pending")
    by (vm_compute; eexists; split; reflexivity).
  destruct Hst as (ms & Hms & Hv).
  rewrite whereCallback_statusOnly by (vm_compute; repeat split; reflexivity).
  rewrite (equalityRejects_eq STATUS_RE "status" wc ms "pending" r Hms Hv).
  unfold hasStatus. now destruct (strictEqStr (getProp r "status") "pending").
Qed.

End OverdueFallback.

Lemma overdue_fallback_ignores_due_date_witness :
  resultRows (executeSqlQuery (rt := plainHost) freshStorage overdueFallbackSql 100
                exampleHeap) =
    Normal [invoice "INV-1" "pending" 10; invoice "INV-3" "pending" 9000] /\
  exists sorted,
    resultRows (executeSqlQuery (rt := plainHost) freshStorage overdueFallbackSql 100
                  exampleHeap) = Normal (take 20 sorted) /\
    Permutation sorted [invoice "INV-1" "pending" 10; invoice "INV-3" "pending" 9000].
Proof.
  split; [vm_compute; reflexivity|].
  destruct (overdue_fallback_ignores_due_date (rt := plainHost) freshStorage 100 exampleHeap)
    as (_ & sorted & Hres & Hperm & _).
  - intros r Hr. right. vm_compute in Hr.
    destruct Hr as [<-|[<-|[]]]; eexists; vm_compute; reflexivity.
  - exists sorted. split; [exact Hres | exact Hperm].
Defined.

(* ===================================================================== *)
(** ** The generated statement *)
(* ===================================================================== *)

Section GenerationFacts.
Context {rt : JsRuntime}.
Import NumberFacts.

Lemma upper_then_lower (c : ascii) :
  isUpperAZ (upperChar c) = true -> lowerChar c = lowerChar (upperChar c).
Proof.
  destruct c as [[] [] [] [] [] [] [] []]; vm_compute; intros H;
    try reflexivity; discriminate H.
Qed.

Lemma upper_not_space (c : ascii) : isUpperAZ (upperChar c) = true -> isWhiteSpace c = false.
Proof.
  destruct c as [[] [] [] [] [] [] [] []]; vm_compute; intros H;
    try reflexivity; discriminate H.
Qed.

Lemma trimEnd_cons (c : ascii) (s : string) :
  isWhiteSpace c = false -> trimEnd (String c s) = String c (trimEnd s).
Proof. intros H. cbn. rewrite H. now destruct (trimEnd s). Qed.

Lemma lowerChar_not_space (c : ascii) : isWhiteSpace c = false -> isWhiteSpace (lowerChar c) = false.
Proof.
  destruct c as [[] [] [] [] [] [] [] []]; vm_compute; intros H;
    try reflexivity; discriminate H.
Qed.

Lemma prefix_step (a c : ascii) (p s : string) :
  String.prefix (String a p) (String c s) = true -> a = c /\ String.prefix p s = true.
Proof. cbn. destruct (Ascii.ascii_dec a c); [auto | discriminate]. Qed.

Lemma prefix_same (a : ascii) (p s : string) :
  String.prefix (String a p) (String a s) = String.prefix p s.
Proof. cbn. destruct (Ascii.ascii_dec a a); [reflexivity | congruence]. Qed.

(** What the generator accepts, the executor accepts. *)
Lemma select_in_capitals (t : string) :
  startsWith (toUpperCase t) "SELECT" = true ->
  startsWith (lowered t) "select" = true.
Proof.
  unfold startsWith, lowered, toUpperCase, toLowerCase, trim. intros H.
  assert (U : forall c x, x = upperChar c -> isUpperAZ x = true ->
                          lowerChar c = lowerChar x /\ isWhiteSpace (lowerChar c) = false).
  { intros c x -> Hx. split; [now apply upper_then_lower|].
    apply lowerChar_not_space. now apply upper_not_space. }
  destruct t as [|c1 t]; [discriminate H|]. apply prefix_step in H as [e1 H].
  destruct t as [|c2 t]; [discriminate H|]. apply prefix_step in H as [e2 H].
  destruct t as [|c3 t]; [discriminate H|]. apply prefix_step in H as [e3 H].
  destruct t as [|c4 t]; [discriminate H|]. apply prefix_step in H as [e4 H].
  destruct t as [|c5 t]; [discriminate H|]. apply prefix_step in H as [e5 H].
  destruct t as [|c6 t]; [discriminate H|]. apply prefix_step in H as [e6 _].
  destruct (U c1 _ e1 eq_refl) as [E1 W1]. destruct (U c2 _ e2 eq_refl) as [E2 W2].
  destruct (U c3 _ e3 eq_refl) as [E3 W3]. destruct (U c4 _ e4 eq_refl) as [E4 W4].
  destruct (U c5 _ e5 eq_refl) as [E5 W5]. destruct (U c6 _ e6 eq_refl) as [E6 W6].
  cbn [mapChars trimStart]. rewrite W1.
  rewrite !trimEnd_cons by assumption.
  rewrite E1, E2, E3, E4, E5, E6.
  change (lowerChar "S") with "s"%char. change (lowerChar "E") with "e"%char.
  change (lowerChar "L") with "l"%char. change (lowerChar "C") with "c"%char.
  change (lowerChar "T") with "t"%char.
  rewrite !prefix_same. now destruct (trimEnd (mapChars lowerChar t)).
Qed.

Lemma clamp_bounds (c : number) :
  isNaN c = false ->
  numberLe (Fin 0) (Math_min (Math_max c (Fin 0)) (Fin 1)) /\
  numberLe (Math_min (Math_max c (Fin 0)) (Fin 1)) (Fin 1).
Proof.
  intros Hc. unfold Math_max. rewrite Hc. cbn [isNaN orb].
  destruct (ltb c (Fin 0)) eqn:E0.
  - vm_compute. repeat split; reflexivity.
  - unfold Math_min. rewrite Hc. cbn [isNaN orb].
    destruct (ltb (Fin 1) c) eqn:E1.
    + vm_compute. repeat split; reflexivity.
    + unfold numberLe. cbn [isNaN]. repeat split; assumption.
Qed.

Lemma orNumber_not_NaN (value : option number) (fallback : number) :
  isNaN fallback = false -> isNaN (orNumber value fallback) = false.
Proof.
  intros Hf. unfold orNumber. destruct value as [n|]; [|assumption].
  destruct (isNaN n) eqn:E; cbn; [assumption|]. destruct (isZero n); assumption.
Qed.

(** The statements of the fallback generator start with SELECT and name
    a table, and its confidences lie between 0 and 1. *)
Lemma fallback_shape (userQuestion : string) :
  let result := generateFallbackSQL userQuestion in
  startsWith (lowered (Generation.sql result)) "select" = true /\
  (forall this, exists table, namedTable this (lowered (Generation.sql result)) = Some table) /\
  numberLe (Fin 0) (Generation.confidence result) /\
  numberLe (Generation.confidence result) (Fin 1).
Proof.
  unfold generateFallbackSQL. set (q := toLowerCase userQuestion). cbv zeta.
  destruct (includes q "pending" && includes q "sales");
    [|destruct (includes q "delayed" && includes q "work");
      [|destruct (includes q "overdue" && includes q "invoice");
        [|destruct (includes q "low" && includes q "inventory");
          [|destruct (includes q "sales");
            [|destruct (includes q "work");
              [|destruct (includes q "invoice");
                [|destruct (includes q "inventory")]]]]]]];
    cbn [Generation.sql Generation.confidence];
    (split; [vm_compute; reflexivity|]);
    (split; [intros this; eexists; vm_compute; reflexivity|]);
    vm_compute; repeat split; reflexivity.
Qed.

Lemma acceptReply_Normal (reply : Generation.Reply) (result : Generation.SQLGenerationResult) :
  acceptReply reply = Normal result ->
  exists sql,
    Generation.replySql reply = Some sql /\ sql <> "" /\
    startsWith (toUpperCase (trim sql)) "SELECT" = true /\
    Generation.sql result = trim sql /\
    Generation.confidence result =
      Math_min (Math_max (orNumber (Generation.replyConfidence reply) (literal "0.7"))
                         (Fin 0)) (Fin 1).
Proof.
  unfold acceptReply. destruct (Generation.replySql reply) as [sql|]; [|discriminate].
  destruct (String.eqb_spec sql "") as [->|Hne]; [discriminate|]. cbn [orb].
  destruct (startsWith (toUpperCase (trim sql)) "SELECT") eqn:E; [|discriminate].
  cbn [negb]. intros [= <-]. exists sql.
  split; [reflexivity|]. split; [exact Hne|]. split; [exact E|]. split; reflexivity.
Qed.

(** X24.  What [generateSQLWithContext] returns can be run as far as
    the check for SELECT goes.  Whether the result comes from the reply
    of the model or from the fallback generator, its statement starts
    with [select] once lower-cased and trimmed, so [executeSqlQuery]
    never rejects it as unsupported; and its confidence is a number
    between 0 and 1.  This is about text in the Latin-1 range, the
    strings of this development. *)
Theorem generated_statement_is_select
        (userQuestion : string) (reply : completion Generation.Reply)
        (result : Generation.SQLGenerationResult) :
  generateSQLWithContext userQuestion reply = Normal result ->
  startsWith (lowered (Generation.sql result)) "select" = true /\
  numberLe (Fin 0) (Generation.confidence result) /\
  numberLe (Generation.confidence result) (Fin 1) /\
  (forall this now h,
     fst (executeSqlQuery this (Generation.sql result) now h) <> Throw UnsupportedStatement).
Proof.
  intros Hgen.
  assert (H : startsWith (lowered (Generation.sql result)) "select" = true /\
              numberLe (Fin 0) (Generation.confidence result) /\
              numberLe (Generation.confidence result) (Fin 1)).
  { unfold generateSQLWithContext in Hgen. cbv zeta in Hgen.
    assert (Hfb : forall e,
              (if includes (message e) "429" || includes (message e) "quota"
               then Normal (generateFallbackSQL userQuestion)
               else Throw (Error (String.append "AI processing failed: " (message e)))) =
              Normal result ->
              result = generateFallbackSQL userQuestion).
    { intros e. destruct (_ || _); [now intros [= <-] | discriminate]. }
    assert (Hshape := fallback_shape userQuestion). cbv zeta in Hshape.
    destruct reply as [r|e].
    - destruct (acceptReply r) as [res|e] eqn:Ea.
      + injection Hgen as <-.
        destruct (acceptReply_Normal r res Ea) as (sql & _ & _ & Hsel & -> & ->).
        split; [now apply select_in_capitals|].
        apply clamp_bounds. apply orNumber_not_NaN. vm_compute. reflexivity.
      + rewrite (Hfb e Hgen). destruct Hshape as (H1 & _ & H3 & H4). auto.
    - rewrite (Hfb e Hgen). destruct Hshape as (H1 & _ & H3 & H4). auto. }
  destruct H as (Hs & Hlo & Hhi).
  split; [exact Hs|]. split; [exact Hlo|]. split; [exact Hhi|].
  intros this now h.
  destruct (executeSqlQuery_cases this (Generation.sql result) now h)
    as [(Hs' & _)|[(_ & _ & ->)|(_ & table & _ & l & h' & -> & _)]];
    [congruence | discriminate | discriminate].
Qed.

(** X25.  The errors of [generateSQLWithContext].  A request that
    fails with a message holding [429] or [quota] is answered by the
    fallback generator, and any other failure is thrown again with the
    prefix [AI processing failed: ].  A reply without a statement, or
    with one that does not start with SELECT, is such a failure: it is
    rejected, not answered by the fallback.  Every error the function
    throws carries that prefix. *)
Theorem generation_errors (userQuestion : string) (reply : completion Generation.Reply) :
  let generated := generateSQLWithContext userQuestion reply in
  (forall error, reply = Throw error ->
     (includes (message error) "429" || includes (message error) "quota" = true ->
      generated = Normal (generateFallbackSQL userQuestion)) /\
     (includes (message error) "429" || includes (message error) "quota" = false ->
      generated = Throw (Error (String.append "AI processing failed: " (message error))))) /\
  (forall result, reply = Normal result ->
     (Generation.replySql result = None \/
      exists sql, Generation.replySql result = Some sql /\
                  startsWith (toUpperCase (trim sql)) "SELECT" = false) ->
     generated =
       Throw (Error "AI processing failed: Generated query must be a SELECT statement")) /\
  (forall error, generated = Throw error ->
     startsWith (message error) "AI processing failed: " = true).
Proof.
  intros generated. subst generated. unfold generateSQLWithContext. cbv zeta.
  split; [|split].
  - intros error ->. split; intros ->; reflexivity.
  - intros result -> Hbad.
    assert (E : acceptReply result = Throw NotASelect).
    { unfold acceptReply. destruct Hbad as [->|(sql & -> & Hno)]; [reflexivity|].
      rewrite Hno. cbn [negb]. now rewrite orb_true_r. }
    rewrite E. reflexivity.
  - intros error.
    assert (Hpre : forall m, startsWith (String.append "AI processing failed: " m)
                                        "AI processing failed: " = true).
    { intros m. unfold startsWith.
      repeat (rewrite RegexFacts.app_cons, prefix_same). now destruct (_ +:+ _). }
    destruct reply as [r|e]; [destruct (acceptReply r) as [res|e]; [discriminate|]|];
      (destruct (_ || _); [discriminate|]); intros [= <-]; apply Hpre.
Qed.

End GenerationFacts.

Lemma generated_statement_is_select_witness :
  startsWith (lowered "select * from invoices where status = 'paid'") "select" = true /\
  (forall this now h,
     fst (executeSqlQuery (rt := plainHost) this "select * from invoices where status = 'paid'"
            now h) <> Throw UnsupportedStatement).
Proof.
  destruct (generated_statement_is_select (rt := plainHost) "Which invoices are paid?"
              (Normal {| Generation.replySql :=
                           Some "  select * from invoices where status = 'paid' ";
                         Generation.replyInterpretation := None;
                         Generation.replyConfidence := Some (ofZ 7) |})
              {| Generation.sql := "select * from invoices where status = 'paid'";
                 Generation.interpretation := "Generated SQL query based on your question";
                 Generation.confidence := Fin 1 |}
              ltac:(vm_compute; reflexivity)) as (Hs & _ & _ & Hrun).
  split; [exact Hs | exact Hrun].
Defined.

(* ===================================================================== *)
(** ** Processing a submission *)
(* ===================================================================== *)

Section ProcessingFacts.
Context {rt : JsRuntime}.
Variable JSON_stringify : list row -> string.

Lemma executeSqlQuery_after_alloc this sql now h :
  allocated this h ->
  resultRows (executeSqlQuery this sql now (h ++ [[]])) =
  resultRows (executeSqlQuery this sql now h).
Proof.
  intros (Hs & Hw & Hi & Ht).
  apply executeSqlQuery_rows_ext; now apply contents_app_old.
Qed.

Lemma updateQuery_stored id updates this old :
  queries this !! id = Some old ->
  getQuery id (snd (updateQuery id updates this)) = Some (Schema.spread old updates) /\
  (forall id', id' <> id ->
     getQuery id' (snd (updateQuery id updates this)) = getQuery id' this).
Proof.
  intros Hold. unfold getQuery. rewrite (updateQuery_lookup _ _ _ _ Hold).
  split; [apply lookup_insert_eq | intros id' Hne; now apply lookup_insert_ne].
Qed.

Lemma failure_text_not_empty (m : string) :
  String.eqb (String.append "Failed to execute query: " m) "" = false.
Proof. now rewrite RegexFacts.app_cons. Qed.

(** X26.  What one run of [processQueryAsync] stores.  For a record
    that exists, the run writes it once and leaves every array as it
    was; the record keeps its identifier, question and creation time
    and gets the elapsed time.  If the generation failed, the status is
    [error] with the message of the failure, and no statement is
    stored.  If it gave a statement, the statement and its
    interpretation are stored, and the status is [success] with the
    rendered rows and no message exactly when [executeSqlQuery]
    returns; when that throws, the status is [error], the result is
    [null] and the message is the one thrown after the prefix
    [Failed to execute query: ]. *)
Theorem processing_stores_outcome
        (queryId : string) (generated : completion Generation.SQLGenerationResult)
        (startTime finishTime now : Z) (this : MemStorage) (h : heap)
        (old : Schema.Query) :
  allocated this h ->
  getQuery queryId this = Some old ->
  exists this' h' stored,
    processSubmission JSON_stringify queryId generated startTime finishTime now this h =
      (Normal this', h') /\
    getQuery queryId this' = Some stored /\
    (forall id', id' <> queryId -> getQuery id' this' = getQuery id' this) /\
    (forall l0, l0 < length h -> h' !! l0 = h !! l0) /\
    (Schema.id stored, Schema.userQuestion stored, Schema.createdAt stored) =
      (Schema.id old, Schema.userQuestion old, Schema.createdAt old) /\
    Schema.executionTimeMs stored = Some (finishTime - startTime)%Z /\
    (forall error, generated = Throw error ->
       Schema.status stored = "error" /\
       Schema.errorMessage stored = Some (message error) /\
       Schema.generatedSql stored = Schema.generatedSql old /\
       Schema.resultData stored = Schema.resultData old) /\
    (forall result, generated = Normal result ->
       Schema.generatedSql stored = Some (Generation.sql result) /\
       Schema.aiInterpretation stored = Some (Generation.interpretation result) /\
       (forall rows,
          resultRows (executeSqlQuery this (Generation.sql result) now h) = Normal rows ->
          Schema.status stored = "success" /\
          Schema.errorMessage stored = None /\
          Schema.resultData stored = Some (JSON_stringify rows)) /\
       (forall execError,
          resultRows (executeSqlQuery this (Generation.sql result) now h) = Throw execError ->
          Schema.status stored = "error" /\
          Schema.errorMessage stored =
            Some (String.append "Failed to execute query: " (message execError)) /\
          Schema.resultData stored = None)).
Proof.
  intros Halloc Hold. unfold getQuery in Hold.
  unfold processSubmission, outcomeOf, bind, ret, alloc.
  destruct generated as [result|error].
  - pose proof (executeSqlQuery_after_alloc this (Generation.sql result) now h Halloc) as Hext.
    assert (Hframe : forall l0, l0 < length h ->
              snd (executeSqlQuery this (Generation.sql result) now (h ++ [[]])) !! l0 = h !! l0).
    { intros l0 Hl0. rewrite executeSqlQuery_frame by (rewrite length_app; cbn; lia).
      now apply lookup_app_l. }
    destruct (executeSqlQuery this (Generation.sql result) now (h ++ [[]]))
      as [[l|e] h'] eqn:E; cbn [processQueryAsync]; cbn [resultRows] in Hext;
      cbn [snd] in Hframe;
      match goal with
      | |- context [updateQuery queryId ?u this] =>
          destruct (updateQuery_stored queryId u this old Hold) as [Hget Hother];
          exists (snd (updateQuery queryId u this)), h', (Schema.spread old u)
      end;
      (split; [reflexivity|]); (split; [exact Hget|]); (split; [exact Hother|]);
      (split; [exact Hframe|]); (split; [reflexivity|]); (split; [reflexivity|]);
      (split; [discriminate|]); intros result' [= <-];
      (split; [reflexivity|]); (split; [reflexivity|]); rewrite <- Hext.
    + split; [intros rows [= <-]; repeat split | discriminate].
    + split; [discriminate|]. intros e' [= <-].
      cbn. rewrite failure_text_not_empty. repeat split.
  - cbn [processQueryAsync].
    destruct (updateQuery_stored queryId (failedUpdate (message error) (finishTime - startTime))
                this old Hold) as [Hget Hother].
    eexists _, _, _. split; [reflexivity|]. split; [exact Hget|]. split; [exact Hother|].
    split; [reflexivity|]. split; [reflexivity|]. split; [reflexivity|].
    split; [|discriminate]. intros error' [= <-]. repeat split.
Qed.

(** The update a run makes for a generated statement. *)
Lemma processSubmission_statement queryId result startTime finishTime now this h :
  allocated this h ->
  exists h',
    (forall l0, l0 < length h -> h' !! l0 = h !! l0) /\
    processSubmission JSON_stringify queryId (Normal result) startTime finishTime now this h =
    (Normal
       (snd (updateQuery queryId
               (match resultRows (executeSqlQuery this (Generation.sql result) now h) with
                | Normal rows =>
                    completedUpdate (Generation.sql result) (Generation.interpretation result)
                                    (JSON_stringify rows) None (finishTime - startTime)
                | Throw execError =>
                    completedUpdate (Generation.sql result) (Generation.interpretation result)
                                    (JSON_stringify [])
                                    (Some (String.append "Failed to execute query: "
                                                         (message execError)))
                                    (finishTime - startTime)
                end) this)), h').
Proof.
  intros Halloc.
  pose proof (executeSqlQuery_after_alloc this (Generation.sql result) now h Halloc) as Hext.
  assert (Hframe : forall l0, l0 < length h ->
            snd (executeSqlQuery this (Generation.sql result) now (h ++ [[]])) !! l0 = h !! l0).
  { intros l0 Hl0. rewrite executeSqlQuery_frame by (rewrite length_app; cbn; lia).
    now apply lookup_app_l. }
  unfold processSubmission, outcomeOf, bind, ret, alloc.
  destruct (executeSqlQuery this (Generation.sql result) now (h ++ [[]]))
    as [[l|e] h'] eqn:E; cbn [processQueryAsync]; cbn [resultRows] in Hext;
    cbn [snd] in Hframe; rewrite <- Hext; exists h'; split; [exact Hframe | reflexivity |
    exact Hframe | reflexivity].
Qed.

Lemma generation_shape (userQuestion : string) (reply : completion Generation.Reply)
      (result : Generation.SQLGenerationResult) :
  generateSQLWithContext userQuestion reply = Normal result ->
  startsWith (lowered (Generation.sql result)) "select" = true /\
  ((exists error, reply = Throw error) -> result = generateFallbackSQL userQuestion).
Proof.
  intros Hgen. unfold generateSQLWithContext in Hgen. cbv zeta in Hgen.
  assert (Hfb : forall e,
            (if includes (message e) "429" || includes (message e) "quota"
             then Normal (generateFallbackSQL userQuestion)
             else Throw (Error (String.append "AI processing failed: " (message e)))) =
            Normal result ->
            result = generateFallbackSQL userQuestion).
  { intros e. destruct (_ || _); [now intros [= <-] | discriminate]. }
  assert (Hshape := fallback_shape userQuestion). cbv zeta in Hshape.
  destruct reply as [r|e].
  - split; [|intros (error & [=])].
    destruct (acceptReply r) as [res|e] eqn:Ea.
    + injection Hgen as <-.
      destruct (acceptReply_Normal r res Ea) as (sql & _ & _ & Hsel & -> & _).
      now apply select_in_capitals.
    + rewrite (Hfb e Hgen). now destruct Hshape.
  - rewrite (Hfb e Hgen). split; [now destruct Hshape | reflexivity].
Qed.

(** X27.  From the question to the stored record.  When
    [generateSQLWithContext] has returned a statement, the run of
    [processQueryAsync] stores it and ends in one of two ways: with
    status [success], no message and the rows of the named table
    rendered, or, when the statement names none of the four tables,
    with status [error] and the message of the unknown table.  The
    error for an unsupported statement cannot be stored.  When the
    statement is the one of the fallback generator, after a failed
    request, the run always ends in [success].  This is about text in
    the Latin-1 range, the strings of this development: there a
    statement whose capitals begin with SELECT begins with [select] in
    lower case. *)
Theorem submission_after_generation
        (userQuestion queryId : string) (reply : completion Generation.Reply)
        (result : Generation.SQLGenerationResult)
        (startTime finishTime now : Z) (this : MemStorage) (h : heap) (old : Schema.Query) :
  allocated this h ->
  getQuery queryId this = Some old ->
  generateSQLWithContext userQuestion reply = Normal result ->
  exists this' h' stored,
    processSubmission JSON_stringify queryId (Normal result) startTime finishTime now this h =
      (Normal this', h') /\
    getQuery queryId this' = Some stored /\
    Schema.generatedSql stored = Some (Generation.sql result) /\
    ((Schema.status stored = "success" /\
      Schema.errorMessage stored = None /\
      exists table rows,
        namedTable this (lowered (Generation.sql result)) = Some table /\
        rows ⊆+ contents h table /\
        Schema.resultData stored = Some (JSON_stringify rows)) \/
     (Schema.status stored = "error" /\
      Schema.errorMessage stored = Some unknownTableFailure /\
      Schema.resultData stored = None /\
      namedTable this (lowered (Generation.sql result)) = None)) /\
    ((exists error, reply = Throw error) -> Schema.status stored = "success").
Proof.
  intros Halloc Hold Hgen. unfold getQuery in Hold.
  destruct (generation_shape userQuestion reply result Hgen) as [Hs Hfb].
  destruct (processSubmission_statement queryId result startTime finishTime now this h Halloc)
    as (h' & _ & Hrun).
  destruct (executeSqlQuery_cases this (Generation.sql result) now h)
    as [(Hs' & _)|[(_ & Hn & E)|(_ & table & Hn & A)]]; [congruence| |].
  - rewrite E in Hrun. cbn [resultRows] in Hrun.
    match type of Hrun with
    | context [updateQuery queryId ?u this] =>
        destruct (updateQuery_stored queryId u this old Hold) as [Hget _];
        exists (snd (updateQuery queryId u this)), h', (Schema.spread old u)
    end.
    split; [exact Hrun|]. split; [exact Hget|]. split; [reflexivity|]. split.
    + right. repeat split. exact Hn.
    + intros Hthrow. rewrite (Hfb Hthrow) in Hn.
      destruct (fallback_shape userQuestion) as (_ & Hnamed & _).
      destruct (Hnamed this) as (table & Ht). congruence.
  - rewrite (answersFrom_Normal _ _ _ _ _ A) in Hrun.
    match type of Hrun with
    | context [updateQuery queryId ?u this] =>
        destruct (updateQuery_stored queryId u this old Hold) as [Hget _];
        exists (snd (updateQuery queryId u this)), h', (Schema.spread old u)
    end.
    split; [exact Hrun|]. split; [exact Hget|]. split; [reflexivity|]. split.
    + left. split; [reflexivity|]. split; [reflexivity|].
      exists table, (stagesRows (Generation.sql result) now (contents h table)).
      split; [exact Hn|]. split; [apply stagesRows_submseteq | reflexivity].
    + intros _. reflexivity.
Qed.

End ProcessingFacts.

Lemma processing_stores_outcome_witness :
  let this := snd (createQuery "q-1" 0 question freshStorage) in
  exists this' h' stored,
    processSubmission (rt := plainHost) countingStringify "q-1"
      (Normal (generateFallbackSQL "Show me all delayed work orders")) 1000 1040 5000
      this exampleHeap = (Normal this', h') /\
    getQuery "q-1" this' = Some stored /\
    Schema.status stored = "success" /\
    Schema.resultData stored = Some "*" /\
    Schema.executionTimeMs stored = Some 40%Z.
Proof.
  intros this.
  destruct (processing_stores_outcome (rt := plainHost) countingStringify "q-1"
              (Normal (generateFallbackSQL "Show me all delayed work orders")) 1000 1040 5000
              this exampleHeap (fst (createQuery "q-1" 0 question freshStorage))
              ltac:(vm_compute; repeat split; lia) ltac:(vm_compute; reflexivity))
    as (this' & h' & stored & Hrun & Hget & _ & _ & _ & Htime & _ & Hok).
  exists this', h', stored. split; [exact Hrun|]. split; [exact Hget|].
  destruct (Hok _ eq_refl) as (_ & _ & Hsuccess & _).
  destruct (Hsuccess [delayedOrder] ltac:(vm_compute; reflexivity)) as (Hst & _ & Hdata).
  split; [exact Hst|]. split; [exact Hdata | exact Htime].
Defined.

Lemma submission_after_generation_witness :
  let this := snd (createQuery "q-1" 0 question freshStorage) in
  exists this' h' stored,
    processSubmission (rt := plainHost) countingStringify "q-1"
      (Normal (generateFallbackSQL "Show me all delayed work orders")) 1000 1040 5000
      this exampleHeap = (Normal this', h') /\
    getQuery "q-1" this' = Some stored /\
    Schema.status stored = "success".
Proof.
  intros this.
  destruct (submission_after_generation (rt := plainHost) countingStringify
              "Show me all delayed work orders" "q-1"
              (Throw (Error "429 You exceeded your current quota"))
              (generateFallbackSQL "Show me all delayed work orders") 1000 1040 5000
              this exampleHeap (fst (createQuery "q-1" 0 question freshStorage))
              ltac:(vm_compute; repeat split; lia) ltac:(vm_compute; reflexivity)
              ltac:(vm_compute; reflexivity))
    as (this' & h' & stored & Hrun & Hget & _ & _ & Hfallback).
  exists this', h', stored. split; [exact Hrun|]. split; [exact Hget|].
  apply Hfallback. eexists. reflexivity.
Defined.

(* ===================================================================== *)
(** ** The low-stock condition on well-formed items *)
(* ===================================================================== *)

Section WellFormedStock.
Context {rt : JsRuntime}.



End WellFormedStock.

